(** * Arix Signature interactive Christmas tree: model and properties

    A shallow embedding of the procedural geometry generators and the
    per-frame callbacks of [components/Tree.tsx], of the wish service of
    [services/geminiService.ts] and of the submit handler of
    [components/UI.tsx].

    Conventions of the model.
    - A JavaScript [number] is read as a real number: IEEE rounding and the
      narrowing to 32 bits done by a [Float32Array] are left out.  All the
      bounds below are statements over the reals.
    - [Math.random] is an oracle [rnd : nat -> R]: [rnd k] is the value
      returned by the k-th call.  The store counts the calls, so the
      generators consume the oracle in source order.
    - [THREE.Vector3] objects live in a store and are handled through
      references, so that a write through one alias is seen through the
      others.
    - Functions of three.js that the source calls ([lerp], [lerpVectors],
      [multiplyScalar], [copy], [setScalar]) are written out from their
      documented arithmetic, and so are the GLSL built-ins of the two
      foliage shaders ([clamp], [smoothstep], [mix]).
    - [new THREE.Object3D()] is a model of the library's constructor, which
      is not part of the repository: of the object it builds, only what
      [Tree.tsx] uses is kept, its [position] and [scale] as two fresh and
      distinct vectors of the store.  What else the constructor allocates
      or draws is left out, and no statement counts its objects.
    - An asynchronous function is a task that either finishes or is
      suspended on the external call; the panel keeps the continuations of
      the calls in flight, so events may interleave with them. *)

From Stdlib Require Import String Ascii.
From Stdlib Require Import Reals Lra Lia Arith Bool ZArith List.
Import ListNotations.

Local Open Scope R_scope.

(** ** Numbers, vectors and the store *)

Abbreviation number := R.

Record Vector3 := mkVector3 { vx : number; vy : number; vz : number }.

(** A reference to a [Vector3] object of the store. *)
Definition ref := nat.

Record Store := mkStore {
  randomCalls : nat;          (* how many times Math.random was called *)
  vectors : list Vector3      (* the Vector3 objects allocated so far *)
}.

Definition deref (s : Store) (p : ref) : option Vector3 := nth_error (vectors s) p.

(** [Float32Array]: a fixed length, zero filled at creation; a write out of
    range is dropped, a read out of range is not used by the source. *)
Record Float32Array := mkF32 { f32_length : nat; f32_at : nat -> number }.

Definition new_Float32Array (n : nat) : Float32Array :=
  {| f32_length := n; f32_at := fun _ => 0 |}.

Definition f32_set (a : Float32Array) (k : nat) (v : number) : Float32Array :=
  if (k <? f32_length a)%nat
  then {| f32_length := f32_length a;
          f32_at := fun j => if (j =? k)%nat then v else f32_at a j |}
  else a.

(** ** A state monad over the store *)

Definition M (A : Type) : Type := Store -> A * Store.

Definition ret {A} (a : A) : M A := fun s => (a, s).

Definition bind {A B} (m : M A) (f : A -> M B) : M B :=
  fun s => let (a, s') := m s in f a s'.

Notation "x <- m ;; k" := (bind m (fun x => k))
  (at level 61, m at next level, right associativity).

(** [for (let i = 0; i < n; i++) body], threading the loop's variables. *)
Fixpoint for_upto {A} (n : nat) (body : nat -> A -> M A) (a : A) : M A :=
  match n with
  | O => ret a
  | S k => a' <- for_upto k body a ;; body k a'
  end.

Section Generators.

(** The values handed out by [Math.random], in call order. *)
Variable rnd : nat -> number.

Definition Math_random : M number :=
  fun s => (rnd (randomCalls s),
            {| randomCalls := S (randomCalls s); vectors := vectors s |}).

(** [new THREE.Vector3(x, y, z)] *)
Definition new_Vector3 (x y z : number) : M ref :=
  fun s => (length (vectors s),
            {| randomCalls := randomCalls s;
               vectors := vectors s ++ [mkVector3 x y z] |}).

Fixpoint list_set {A} (l : list A) (k : nat) (v : A) : list A :=
  match l, k with
  | [], _ => []
  | _ :: t, O => v :: t
  | h :: t, S k' => h :: list_set t k' v
  end.

Definition update_vector (p : ref) (f : Vector3 -> Vector3) : M unit :=
  fun s => (tt,
            match deref s p with
            | Some v => {| randomCalls := randomCalls s;
                           vectors := list_set (vectors s) p (f v) |}
            | None => s
            end).

(** [v.multiplyScalar(k)]: scales [v] in place and returns [v]. *)
Definition multiplyScalar (p : ref) (k : number) : M ref :=
  _ <- update_vector p (fun v => mkVector3 (vx v * k) (vy v * k) (vz v * k)) ;;
  ret p.

(** *** Constants of [Tree.tsx] *)

Definition FOLIAGE_COUNT : nat := 60 * 100.
Definition TREE_HEIGHT : number := 14.
Definition TREE_RADIUS : number := 5.5.

Inductive OrnamentType := SPHERE | CUBE | DIAMOND.

Record OrnamentData := mkOrnament {
  id : nat;
  scatterPos : ref;
  treePos : ref;
  rotationSpeed : ref;
  scale : number;
  type : OrnamentType;
  phase : number
}.

Record FoliageAttributes := mkFoliage {
  f_scatterPos : Float32Array;
  f_treePos : Float32Array;
  f_randoms : Float32Array;
  f_sizes : Float32Array
}.

(** *** [generateFoliageAttributes] *)

Definition foliage_body (i : nat) (a : FoliageAttributes) : M FoliageAttributes :=
  let t := INR i / INR FOLIAGE_COUNT in
  let y := t * TREE_HEIGHT - TREE_HEIGHT / 2 in
  let heightFactor := (TREE_HEIGHT / 2 - y) / TREE_HEIGHT in
  let idealRadius := heightFactor * TREE_RADIUS in
  let angle := t * PI * 120 in
  u1 <- Math_random ;;
  let radiusJitter := u1 * 0.3 - 0.15 in
  let r := idealRadius + radiusJitter in
  let r := if Rlt_dec r 0 then 0 else r in
  let tx := cos angle * r in
  let tz := sin angle * r in
  let treePos := f32_set (f_treePos a) (i * 3) tx in
  let treePos := f32_set treePos (i * 3 + 1) y in
  let treePos := f32_set treePos (i * 3 + 2) tz in
  u2 <- Math_random ;;
  let sr := 25 + u2 * 20 in
  u3 <- Math_random ;;
  let sTheta := u3 * PI * 2 in
  u4 <- Math_random ;;
  let sPhi := acos (2 * u4 - 1) in
  let scatterPos := f32_set (f_scatterPos a) (i * 3) (sr * sin sPhi * cos sTheta) in
  let scatterPos := f32_set scatterPos (i * 3 + 1) (sr * sin sPhi * sin sTheta) in
  let scatterPos := f32_set scatterPos (i * 3 + 2) (sr * cos sPhi) in
  u5 <- Math_random ;;
  let randoms := f32_set (f_randoms a) i u5 in
  u6 <- Math_random ;;
  let sizes := f32_set (f_sizes a) i (u6 * 0.6 + 0.4) in
  ret {| f_scatterPos := scatterPos; f_treePos := treePos;
         f_randoms := randoms; f_sizes := sizes |}.

Definition generateFoliageAttributes : M FoliageAttributes :=
  let scatterPos := new_Float32Array (FOLIAGE_COUNT * 3) in
  let treePos := new_Float32Array (FOLIAGE_COUNT * 3) in
  let randoms := new_Float32Array FOLIAGE_COUNT in
  let sizes := new_Float32Array FOLIAGE_COUNT in
  for_upto FOLIAGE_COUNT foliage_body
    {| f_scatterPos := scatterPos; f_treePos := treePos;
       f_randoms := randoms; f_sizes := sizes |}.

(** *** [generateOrnaments] *)

Definition ornament_type (i : nat) : OrnamentType :=
  if (i mod 6 =? 0)%nat then CUBE
  else if (i mod 4 =? 0)%nat then DIAMOND
  else SPHERE.

Definition ornament_scale (ty : OrnamentType) : number :=
  match ty with
  | CUBE => 0.7
  | SPHERE => 0.5
  | DIAMOND => 0.4
  end.

Definition ornament_body (count : nat) (i : nat) (ornaments : list OrnamentData)
  : M (list OrnamentData) :=
  let t := INR i / INR count in
  let y := t * TREE_HEIGHT - TREE_HEIGHT / 2 in
  let heightFactor := (TREE_HEIGHT / 2 - y) / TREE_HEIGHT in
  let idealRadius := heightFactor * (TREE_RADIUS + 0.2) in
  u1 <- Math_random ;;
  let angle := t * PI * 25 + u1 * 0.5 in
  let tx := cos angle * idealRadius in
  let tz := sin angle * idealRadius in
  let type := ornament_type i in
  let spread := 30 in
  u2 <- Math_random ;;
  let sx := (u2 - 0.5) * spread in
  u3 <- Math_random ;;
  let sy := (u3 - 0.5) * spread in
  u4 <- Math_random ;;
  let sz := (u4 - 0.5) * spread in
  pTree <- new_Vector3 tx y tz ;;
  pScatter <- new_Vector3 sx sy sz ;;
  u5 <- Math_random ;;
  u6 <- Math_random ;;
  u7 <- Math_random ;;
  pRot0 <- new_Vector3 u5 u6 u7 ;;
  pRot <- multiplyScalar pRot0 0.05 ;;
  u8 <- Math_random ;;
  ret (ornaments ++
       [{| id := i; treePos := pTree; scatterPos := pScatter;
           rotationSpeed := pRot; scale := ornament_scale type;
           type := type; phase := u8 * PI * 2 |}]).

Definition generateOrnaments (count : nat) : M (list OrnamentData) :=
  for_upto count (ornament_body count) [].

End Generators.

(** ** Per-frame callbacks of [Tree.tsx] *)

(** [THREE.MathUtils.lerp(x, y, t)] *)
Definition lerp (x y t : number) : number := (1 - t) * x + t * y.

(** The two refs of the [Tree] component: [progressRef.current] and, when
    [groupRef.current] is set, the [rotation.y] of that group. *)
Record TreeRefs := mkTreeRefs {
  progressRef : number;
  groupRef : option number
}.

(** The [useFrame] callback of [Tree]: the blend driver. *)
Definition Tree_useFrame (isFormed : bool) (delta : number) (t : TreeRefs) : TreeRefs :=
  let target := if isFormed then 1 else 0 in
  {| progressRef := lerp (progressRef t) target (delta * 1.2);
     groupRef :=
       match groupRef t with
       | Some rotation_y =>
           let rotSpeed := if isFormed then 0.05 else 0.01 in
           Some (rotation_y + delta * rotSpeed)
       | None => None
       end |}.

(** The blend scalar after [n] ticks of size [dt], the flag held fixed. *)
Fixpoint blend_after (isFormed : bool) (dt : number) (n : nat) (t : TreeRefs) : TreeRefs :=
  match n with
  | O => t
  | S k => Tree_useFrame isFormed dt (blend_after isFormed dt k t)
  end.

(** The uniforms of the foliage shader material that the callback writes. *)
Record FoliageUniforms := mkUniforms { uTime : number; uProgress : number }.

(** The [useFrame] callback of [FoliageLayer]; [shaderRef] is [None] while
    [shaderRef.current] is null. *)
Definition FoliageLayer_useFrame (progress elapsedTime : number)
    (shaderRef : option FoliageUniforms) : option FoliageUniforms :=
  match shaderRef with
  | Some _ => Some {| uTime := elapsedTime; uProgress := progress |}
  | None => None
  end.

(** A [Matrix4] as [Object3D.updateMatrix] composes it: kept as the
    position, Euler rotation and scale it was composed from. *)
Record Matrix4 := compose {
  m_position : Vector3;
  m_rotation : Vector3;
  m_scale : Vector3
}.

(** The [dummy] of an [OrnamentLayer]: its [position] and [scale] are
    [Vector3] objects of the store, [rotation] holds the Euler angles. *)
Record Object3D := mkObject3D {
  position : ref;
  rotation : Vector3;
  scale3 : ref;
  matrix : Matrix4
}.

Record InstancedMesh := mkMesh {
  instanceMatrix : list Matrix4;
  needsUpdate : bool
}.

Definition zero3 : Vector3 := mkVector3 0 0 0.
Definition one3 : Vector3 := mkVector3 1 1 1.

(** Reads the object behind a reference.  A reference of the program always
    points to an allocated object; the default stands for no source path. *)
Definition read (p : ref) : M Vector3 :=
  fun s => (match deref s p with Some v => v | None => zero3 end, s).

(** [new THREE.Object3D()].  A model of the constructor of three.js, kept
    to what [OrnamentLayer] uses of its [dummy]: [position] and [scale] are
    two fresh, distinct [Vector3] objects, (0,0,0) and (1,1,1), [rotation]
    is zero and [matrix] the identity.  The other objects of the library's
    constructor are not in the store. *)
Definition new_Object3D : M Object3D :=
  fun s =>
    let p := length (vectors s) in
    ({| position := p; rotation := zero3; scale3 := S p;
        matrix := compose zero3 zero3 one3 |},
     {| randomCalls := randomCalls s;
        vectors := vectors s ++ [zero3; one3] |}).

(** [out.lerpVectors(v1, v2, alpha)]: writes [out], reads [v1] and [v2]. *)
Definition lerpVectors (out v1 v2 : ref) (alpha : number) : M ref :=
  a <- read v1 ;;
  b <- read v2 ;;
  _ <- update_vector out (fun _ =>
         mkVector3 (vx a + (vx b - vx a) * alpha)
                   (vy a + (vy b - vy a) * alpha)
                   (vz a + (vz b - vz a) * alpha)) ;;
  ret out.

(** [out.copy(v)] *)
Definition copy (out v : ref) : M unit :=
  a <- read v ;; update_vector out (fun _ => a).

(** [out.setScalar(k)] *)
Definition setScalar (out : ref) (k : number) : M unit :=
  update_vector out (fun _ => mkVector3 k k k).

(** [mesh.setMatrixAt(i, m)] *)
Definition setMatrixAt (mesh : InstancedMesh) (i : nat) (m : Matrix4) : InstancedMesh :=
  {| instanceMatrix := list_set (instanceMatrix mesh) i m;
     needsUpdate := needsUpdate mesh |}.

(** The body of [data.forEach((item, i) => ...)] in [OrnamentLayer]. *)
Definition ornament_item (time progress : number) (item : OrnamentData) (i : nat)
    (st : Object3D * InstancedMesh) : M (Object3D * InstancedMesh) :=
  let (dummy, mesh) := st in
  fresh <- new_Vector3 0 0 0 ;;
  currentPos <- lerpVectors fresh (scatterPos item) (treePos item) progress ;;
  let floatAmp := (1 - progress) * 1.0 + 0.05 in
  _ <- update_vector currentPos (fun v =>
         mkVector3 (vx v) (vy v + sin (time + phase item) * floatAmp) (vz v)) ;;
  _ <- update_vector currentPos (fun v =>
         mkVector3 (vx v + cos (time * 0.5 + phase item) * floatAmp * 0.5) (vy v) (vz v)) ;;
  _ <- copy (position dummy) currentPos ;;
  _ <- setScalar (scale3 dummy) (scale item * (progress * 0.3 + 0.7)) ;;
  speed <- read (rotationSpeed item) ;;
  let rot := mkVector3 (time * vx speed) (time * vy speed) (time * vz speed) in
  pos <- read (position dummy) ;;
  sc <- read (scale3 dummy) ;;
  let m := compose pos rot sc in
  ret ({| position := position dummy; rotation := rot;
          scale3 := scale3 dummy; matrix := m |},
       setMatrixAt mesh i m).

Fixpoint forEach_from (time progress : number) (data : list OrnamentData) (i : nat)
    (st : Object3D * InstancedMesh) : M (Object3D * InstancedMesh) :=
  match data with
  | [] => ret st
  | item :: rest =>
      st' <- ornament_item time progress item i st ;;
      forEach_from time progress rest (S i) st'
  end.

Record OrnamentLayerRefs := mkLayerRefs {
  meshRef : option InstancedMesh;
  dummy : Object3D
}.

(** The [useFrame] callback of [OrnamentLayer]. *)
Definition OrnamentLayer_useFrame (progress : number) (data : list OrnamentData)
    (time : number) (l : OrnamentLayerRefs) : M OrnamentLayerRefs :=
  match meshRef l with
  | None => ret l
  | Some mesh =>
      st <- forEach_from time progress data 0 (dummy l, mesh) ;;
      ret {| meshRef := Some {| instanceMatrix := instanceMatrix (snd st);
                                needsUpdate := true |};
             dummy := fst st |}
  end.

(** ** The mounted [Tree] component *)

Definition OrnamentType_eqb (a b : OrnamentType) : bool :=
  match a, b with
  | SPHERE, SPHERE | CUBE, CUBE | DIAMOND, DIAMOND => true
  | _, _ => false
  end.

Definition of_type (ty : OrnamentType) (l : list OrnamentData) : list OrnamentData :=
  filter (fun o => OrnamentType_eqb (type o) ty) l.

(** What the component tree holds between two callbacks: the store, the
    memoised resources, the refs, and the props of the last render. *)
Record Session := mkSession {
  store : Store;
  isFormed : bool;
  ornaments : list OrnamentData;
  cubes : list OrnamentData;
  spheres : list OrnamentData;
  diamonds : list OrnamentData;
  foliage : FoliageAttributes;
  treeRefs : TreeRefs;
  progressProp : number;
  shaderRef : option FoliageUniforms;
  cubeLayer : OrnamentLayerRefs;
  sphereLayer : OrnamentLayerRefs;
  diamondLayer : OrnamentLayerRefs
}.

Definition identity4 : Matrix4 := compose zero3 zero3 one3.

Definition new_layer (data : list OrnamentData) : M OrnamentLayerRefs :=
  d <- new_Object3D ;;
  ret {| meshRef := Some {| instanceMatrix := repeat identity4 (length data);
                            needsUpdate := false |};
         dummy := d |}.

Section Mount.

Variable rnd : nat -> number.

(** The first render: every [useMemo] factory runs once, in render order
    ([Tree], then [FoliageLayer], then the three [OrnamentLayer]s), and the
    refs are attached. *)
Definition mount_resources (formed : bool) : M Session :=
  orn <- generateOrnaments rnd 180 ;;
  let cu := of_type CUBE orn in
  let sp := of_type SPHERE orn in
  let di := of_type DIAMOND orn in
  fol <- generateFoliageAttributes rnd ;;
  lc <- new_layer cu ;;
  ls <- new_layer sp ;;
  ld <- new_layer di ;;
  fun s =>
    ({| store := s; isFormed := formed;
        ornaments := orn; cubes := cu; spheres := sp; diamonds := di;
        foliage := fol;
        treeRefs := {| progressRef := 0; groupRef := Some 0 |};
        progressProp := 0;
        shaderRef := Some {| uTime := 0; uProgress := 0 |};
        cubeLayer := lc; sphereLayer := ls; diamondLayer := ld |}, s).

Definition empty_store : Store := {| randomCalls := 0; vectors := [] |}.

Definition mount (formed : bool) : Session := fst (mount_resources formed empty_store).

End Mount.

Inductive Event :=
| Frame (elapsedTime delta : number)   (* one pass of the render loop *)
| Render (formed : bool).              (* a re-render of [Tree] with a new prop *)

(** One pass of the render loop: the callbacks registered with [useFrame]
    run, children first. *)
Definition run_frame (time delta : number) (ss : Session) : Session :=
  let sh := FoliageLayer_useFrame (progressProp ss) time (shaderRef ss) in
  let (lc, s1) := OrnamentLayer_useFrame (progressProp ss) (cubes ss) time (cubeLayer ss) (store ss) in
  let (ls, s2) := OrnamentLayer_useFrame (progressProp ss) (spheres ss) time (sphereLayer ss) s1 in
  let (ld, s3) := OrnamentLayer_useFrame (progressProp ss) (diamonds ss) time (diamondLayer ss) s2 in
  {| store := s3; isFormed := isFormed ss;
     ornaments := ornaments ss; cubes := cubes ss; spheres := spheres ss;
     diamonds := diamonds ss; foliage := foliage ss;
     treeRefs := Tree_useFrame (isFormed ss) delta (treeRefs ss);
     progressProp := progressProp ss;
     shaderRef := sh;
     cubeLayer := lc; sphereLayer := ls; diamondLayer := ld |}.

(** A re-render: the memoised values (empty dependency lists) are kept and
    the layers receive [progressRef.current] as their [progress] prop. *)
Definition rerender (formed : bool) (ss : Session) : Session :=
  {| store := store ss; isFormed := formed;
     ornaments := ornaments ss; cubes := cubes ss; spheres := spheres ss;
     diamonds := diamonds ss; foliage := foliage ss;
     treeRefs := treeRefs ss;
     progressProp := progressRef (treeRefs ss);
     shaderRef := shaderRef ss;
     cubeLayer := cubeLayer ss; sphereLayer := sphereLayer ss;
     diamondLayer := diamondLayer ss |}.

Definition step (ss : Session) (e : Event) : Session :=
  match e with
  | Frame time delta => run_frame time delta ss
  | Render formed => rerender formed ss
  end.

Definition run (ss : Session) (es : list Event) : Session := fold_left step es ss.

(** ** Positions and distances *)

(** Point [i] of a flat [Float32Array] of triples. *)
Definition point_at (a : Float32Array) (i : nat) : Vector3 :=
  mkVector3 (f32_at a (i * 3)) (f32_at a (i * 3 + 1)) (f32_at a (i * 3 + 2)).

(** Distance from the origin. *)
Definition norm3 (v : Vector3) : number := sqrt (vx v * vx v + vy v * vy v + vz v * vz v).

(** Distance from the vertical axis. *)
Definition radial (v : Vector3) : number := sqrt (vx v * vx v + vz v * vz v).

(** The shell of the foliage scatter, [sr = 25 + Math.random() * 20]. *)
Definition SCATTER_MIN : number := 25.
Definition SCATTER_MAX : number := 45.

(** The bound of [radiusJitter = Math.random() * 0.3 - 0.15]. *)
Definition JITTER_BOUND : number := 0.15.

(** The half side of the cube of the ornament scatter, [spread / 2]. *)
Definition ORNAMENT_HALF_SPREAD : number := 15.

(** The ornaments sit at [TREE_RADIUS + 0.2] at the foot of the tree. *)
Definition ORNAMENT_OFFSET : number := 0.2.

Definition in_shell (v : Vector3) : Prop := SCATTER_MIN <= norm3 v <= SCATTER_MAX.

Definition in_cube (v : Vector3) : Prop :=
  - ORNAMENT_HALF_SPREAD <= vx v <= ORNAMENT_HALF_SPREAD /\
  - ORNAMENT_HALF_SPREAD <= vy v <= ORNAMENT_HALF_SPREAD /\
  - ORNAMENT_HALF_SPREAD <= vz v <= ORNAMENT_HALF_SPREAD.

Definition unit_interval (rnd : nat -> number) : Prop := forall k, 0 <= rnd k < 1.

(** ** The wish service, [services/geminiService.ts] *)

(** Strings are [string]s whose characters stand for code units below 256. *)

(** The white space and line terminators of ECMAScript in that range. *)
Definition is_whitespace (c : ascii) : bool :=
  let n := nat_of_ascii c in
  ((n =? 9) || (n =? 10) || (n =? 11) || (n =? 12) || (n =? 13)
   || (n =? 32) || (n =? 160))%nat.

Fixpoint trimStart (s : string) : string :=
  match s with
  | EmptyString => EmptyString
  | String c r => if is_whitespace c then trimStart r else s
  end.

Fixpoint trimEnd (s : string) : string :=
  match s with
  | EmptyString => EmptyString
  | String c r =>
      match trimEnd r with
      | EmptyString => if is_whitespace c then EmptyString else String c EmptyString
      | r' => String c r'
      end
  end.

(** [s.trim()] *)
Definition trim (s : string) : string := trimEnd (trimStart s).

(** A string is falsy exactly when it is empty. *)
Definition truthy (s : string) : bool :=
  match s with
  | EmptyString => false
  | String _ _ => true
  end.

(** [a || b] on strings *)
Definition or_else (a b : string) : string := if truthy a then a else b.

Fixpoint all_whitespace (s : string) : bool :=
  match s with
  | EmptyString => true
  | String c r => is_whitespace c && all_whitespace r
  end.

Definition dq : string := String (ascii_of_nat 34) EmptyString.
Definition nl : string := String (ascii_of_nat 10) EmptyString.

(** [LUXURY_SYSTEM_INSTRUCTION] of [constants.ts], line by line. *)
Definition LUXURY_SYSTEM_INSTRUCTION : string :=
  (nl
   ++ "You are the " ++ dq ++ "Arix Signature" ++ dq ++ " AI Concierge. " ++ nl
   ++ "Your tone is ultra-luxury, sophisticated, poetic, and warm but elevated. " ++ nl
   ++ "Think " ++ dq ++ "High-End Jewelry Commercial" ++ dq ++ " meets "
   ++ dq ++ "Magical Realism" ++ dq ++ "." ++ nl
   ++ "You should generate short (max 30 words), elegant holiday wishes based on the user's input." ++ nl
   ++ "Avoid generic phrases. Use words like " ++ dq ++ "Opulence," ++ dq ++ " "
   ++ dq ++ "Radiance," ++ dq ++ " " ++ dq ++ "Timeless," ++ dq ++ " "
   ++ dq ++ "Glow," ++ dq ++ " " ++ dq ++ "Serenity." ++ dq ++ nl)%string.

Record GenerateContentConfig := mkConfig {
  systemInstruction : string;
  temperature : number;
  maxOutputTokens : number
}.

Record GenerateContentRequest := mkRequest {
  model : string;
  contents : string;
  config : GenerateContentConfig
}.

(** The part of the response the source reads: [response.text]. *)
Record GenerateContentResponse := mkResponse { response_text : option string }.

(** What a [catch] clause can receive; the source looks at none of it. *)
Inductive Exception :=
| NetworkError (message : string)
| MalformedResponse (message : string)
| TimeoutError
| OtherError (message : string).

Inductive Result (A : Type) :=
| Returned (a : A)
| Thrown (e : Exception).
Arguments Returned {A} a.
Arguments Thrown {A} e.

Record WishState := mkWishState {
  isLoading : bool;
  text : option string;
  error : option string
}.

Inductive Effect :=
| Outbound (req : GenerateContentRequest)     (* ai.models.generateContent(req) *)
| ConsoleError (label : string) (e : Exception)
| OnIgnite
| OnScatter.

(** The state of [App] and [UI], and the effects observed so far. *)
Record World := mkWorld {
  formed : bool;
  prompt : string;
  wishState : WishState;
  log : list Effect
}.

(** An asynchronous computation either finishes without giving control
    back, or is suspended on the external call; its continuation receives
    the outcome of the call and the world as it is by then. *)
Inductive Task (A : Type) :=
| Finished (r : Result A) (w : World)
| Suspended (req : GenerateContentRequest) (w : World)
            (k : Result GenerateContentResponse -> World -> Task A).
Arguments Finished {A} r w.
Arguments Suspended {A} req w k.

Definition W (A : Type) : Type := World -> Task A.

Definition pure {A} (a : A) : W A := fun w => Finished (Returned a) w.

Definition throw {A} (e : Exception) : W A := fun w => Finished (Thrown e) w.

Fixpoint bind_task {A B} (t : Task A) (f : A -> W B) : Task B :=
  match t with
  | Finished (Returned a) w => f a w
  | Finished (Thrown e) w => Finished (Thrown e) w
  | Suspended req w k => Suspended req w (fun r w' => bind_task (k r w') f)
  end.

Definition and_then {A B} (m : W A) (f : A -> W B) : W B :=
  fun w => bind_task (m w) f.

Notation "x <~ m ;; k" := (and_then m (fun x => k))
  (at level 61, m at next level, right associativity).

(** [try { body } catch (e) { handler e }] *)
Fixpoint catch_task {A} (t : Task A) (handler : Exception -> W A) : Task A :=
  match t with
  | Finished (Returned a) w => Finished (Returned a) w
  | Finished (Thrown e) w => handler e w
  | Suspended req w k => Suspended req w (fun r w' => catch_task (k r w') handler)
  end.

Definition try_catch {A} (body : W A) (handler : Exception -> W A) : W A :=
  fun w => catch_task (body w) handler.

Definition tell (e : Effect) : W unit :=
  fun w => Finished (Returned tt)
             {| formed := formed w; prompt := prompt w;
                wishState := wishState w; log := log w ++ [e] |}.

(** [await ai.models.generateContent(req)]: the request leaves, the caller
    is suspended, and the outcome of the call resumes it. *)
Definition generateContent (req : GenerateContentRequest) : W GenerateContentResponse :=
  fun w =>
    Suspended req
      {| formed := formed w; prompt := prompt w;
         wishState := wishState w; log := log w ++ [Outbound req] |}
      (fun r w' => Finished r w').

Definition console_error (label : string) (e : Exception) : W unit :=
  tell (ConsoleError label e).

Section Service.

(** [process.env.API_KEY || ''], read once when the module is loaded. *)
Variable apiKey : string.

Definition wish_request (userInput : string) : GenerateContentRequest :=
  {| model := "gemini-2.5-flash";
     contents :=
       ("Create a luxurious, magical holiday wish for someone who loves: "
        ++ or_else userInput "Elegance")%string;
     config := {| systemInstruction := LUXURY_SYSTEM_INSTRUCTION;
                  temperature := 0.8;
                  maxOutputTokens := 60 |} |}.

Definition generateLuxuryWish (userInput : string) : W string :=
  if negb (truthy apiKey) then
    pure "Experience the magic of the holidays. (API Key missing)"%string
  else
    try_catch
      (response <~ generateContent (wish_request userInput) ;;
       pure (or_else
               match response_text response with
               | Some t => trim t
               | None => EmptyString
               end
               "May your holidays be filled with golden moments."))
      (fun error =>
         _ <~ console_error "Gemini API Error:" error ;;
         pure "May elegance guide your way into the New Year."%string).

(** ** The wish panel, [components/UI.tsx] and [App.tsx] *)

Definition setIsFormed (b : bool) : W unit :=
  fun w => Finished (Returned tt)
             {| formed := b; prompt := prompt w;
                wishState := wishState w; log := log w |}.

Definition setPrompt (p : string) : W unit :=
  fun w => Finished (Returned tt)
             {| formed := formed w; prompt := p;
                wishState := wishState w; log := log w |}.

Definition setWishState (f : WishState -> WishState) : W unit :=
  fun w => Finished (Returned tt)
             {| formed := formed w; prompt := prompt w;
                wishState := f (wishState w); log := log w |}.

(** The callbacks [App] passes to [UI]. *)
Definition onIgnite : W unit := _ <~ tell OnIgnite ;; setIsFormed true.
Definition onScatter : W unit := _ <~ tell OnScatter ;; setIsFormed false.

Definition initialWishState : WishState :=
  {| isLoading := false; text := None; error := None |}.

(** [handleGenerateWish]; [isFormed] and [prompt] are the values of the
    render that created the callback, which its dependency list keeps equal
    to the current ones. *)
Definition handleGenerateWish : W unit :=
  fun w =>
    let isFormed := formed w in
    let prompt := prompt w in
    (_ <~ (if negb isFormed then onIgnite else pure tt) ;;
     if negb (truthy (trim prompt)) then pure tt
     else
       _ <~ setWishState (fun prev =>
              {| isLoading := true; text := text prev; error := None |}) ;;
       try_catch
         (result <~ generateLuxuryWish prompt ;;
          setWishState (fun _ =>
            {| isLoading := false; text := Some result; error := None |}))
         (fun e =>
            setWishState (fun _ =>
              {| isLoading := false; text := None;
                 error := Some "The stars are misaligned. Try again."%string |}))) w.

Definition handleReset : W unit :=
  _ <~ setWishState (fun _ => initialWishState) ;;
  _ <~ setPrompt EmptyString ;;
  onScatter.

End Service.

(** *** Running asynchronous computations *)

Definition Service := GenerateContentRequest -> Result GenerateContentResponse.

(** Runs a task to its end, the external call answered by [service] and
    nothing else happening in between. *)
Fixpoint complete {A} (service : Service) (t : Task A) : Result A * World :=
  match t with
  | Finished r w => (r, w)
  | Suspended req w k => complete service (k (service req) w)
  end.

(** The requests that left, oldest first. *)
Fixpoint outbound (l : list Effect) : list GenerateContentRequest :=
  match l with
  | [] => []
  | Outbound req :: r => req :: outbound r
  | _ :: r => outbound r
  end.

Fixpoint ignitions (l : list Effect) : nat :=
  match l with
  | [] => O
  | OnIgnite :: r => S (ignitions r)
  | _ :: r => ignitions r
  end.

(** The panel between two events: the world, and the continuations of the
    submits whose external call has not settled yet. *)
Record Panel := mkPanel {
  world : World;
  inflight : list (Result GenerateContentResponse -> World -> Task unit)
}.

Inductive UIEvent :=
| Typed (p : string)                                  (* onChange of the input *)
| Submit                                              (* click or Enter *)
| Reset                                               (* header or button click *)
| Settled (i : nat) (outcome : Result GenerateContentResponse).

Definition commit (t : Task unit)
    (rest : list (Result GenerateContentResponse -> World -> Task unit)) : Panel :=
  match t with
  | Finished _ w => {| world := w; inflight := rest |}
  | Suspended _ w k => {| world := w; inflight := rest ++ [k] |}
  end.

Fixpoint remove_nth {A} (i : nat) (l : list A) : list A :=
  match l, i with
  | [], _ => []
  | _ :: t, O => t
  | h :: t, S j => h :: remove_nth j t
  end.

Definition panel_step (apiKey : string) (p : Panel) (e : UIEvent) : Panel :=
  match e with
  | Typed s => commit (setPrompt s (world p)) (inflight p)
  | Submit => commit (handleGenerateWish apiKey (world p)) (inflight p)
  | Reset => commit (handleReset (world p)) (inflight p)
  | Settled i outcome =>
      match nth_error (inflight p) i with
      | Some k => commit (k outcome (world p)) (remove_nth i (inflight p))
      | None => p
      end
  end.

Definition initialPanel : Panel :=
  {| world := {| formed := false; prompt := EmptyString;
                 wishState := initialWishState; log := [] |};
     inflight := [] |}.

Definition panel_run (apiKey : string) (es : list UIEvent) : Panel :=
  fold_left (panel_step apiKey) es initialPanel.

(** A task that ends with a returned value on every path, whatever the
    external call answers and whatever the world is when it resumes. *)
Inductive returns {A} : Task A -> Prop :=
| returns_now a w : returns (Finished (Returned a) w)
| returns_later req w k :
    (forall r w', returns (k r w')) -> returns (Suspended req w k).

(** ** What one iteration of each generator produces *)

Section Iterations.

Variable rnd : nat -> number.

(** Iteration [i] of the foliage loop, [u1] being its first random draw. *)
Definition foliage_tree_point (i : nat) (u1 : number) : Vector3 :=
  let t := INR i / INR FOLIAGE_COUNT in
  let y := t * TREE_HEIGHT - TREE_HEIGHT / 2 in
  let heightFactor := (TREE_HEIGHT / 2 - y) / TREE_HEIGHT in
  let idealRadius := heightFactor * TREE_RADIUS in
  let angle := t * PI * 120 in
  let r := idealRadius + (u1 * 0.3 - 0.15) in
  let r := if Rlt_dec r 0 then 0 else r in
  mkVector3 (cos angle * r) y (sin angle * r).

Definition foliage_scatter_point (u2 u3 u4 : number) : Vector3 :=
  let sr := 25 + u2 * 20 in
  let sTheta := u3 * PI * 2 in
  let sPhi := acos (2 * u4 - 1) in
  mkVector3 (sr * sin sPhi * cos sTheta) (sr * sin sPhi * sin sTheta) (sr * cos sPhi).

(** Iteration [i] of the ornament loop started after [c0] random draws. *)
Definition ornament_tree_point (count i : nat) (u1 : number) : Vector3 :=
  let t := INR i / INR count in
  let y := t * TREE_HEIGHT - TREE_HEIGHT / 2 in
  let heightFactor := (TREE_HEIGHT / 2 - y) / TREE_HEIGHT in
  let idealRadius := heightFactor * (TREE_RADIUS + 0.2) in
  let angle := t * PI * 25 + u1 * 0.5 in
  mkVector3 (cos angle * idealRadius) y (sin angle * idealRadius).

Definition ornament_scatter_point (u2 u3 u4 : number) : Vector3 :=
  mkVector3 ((u2 - 0.5) * 30) ((u3 - 0.5) * 30) ((u4 - 0.5) * 30).

Definition ornament_vectors (count c0 i : nat) : list Vector3 :=
  let c := (c0 + 8 * i)%nat in
  [ ornament_tree_point count i (rnd c);
    ornament_scatter_point (rnd (1 + c)%nat) (rnd (2 + c)%nat) (rnd (3 + c)%nat);
    mkVector3 (rnd (4 + c)%nat * 0.05) (rnd (5 + c)%nat * 0.05)
              (rnd (6 + c)%nat * 0.05) ].

Definition ornament_at (c0 h0 i : nat) : OrnamentData :=
  let c := (c0 + 8 * i)%nat in
  let h := (h0 + 3 * i)%nat in
  {| id := i;
     treePos := h;
     scatterPos := (1 + h)%nat;
     rotationSpeed := (2 + h)%nat;
     scale := ornament_scale (ornament_type i);
     type := ornament_type i;
     phase := rnd (7 + c)%nat * PI * 2 |}.

End Iterations.

(** ** Notions used by the statements *)

(** The references an ornament holds. *)
Definition refs_of (o : OrnamentData) : list ref :=
  [treePos o; scatterPos o; rotationSpeed o].

(** The stores agree on every reference below [base]. *)
Definition agree_below (base : nat) (s s' : Store) : Prop :=
  forall q, (q < base)%nat -> deref s' q = deref s q.

(** The constant oracle, for concrete runs. *)
Definition always (u : number) : nat -> number := fun _ => u.

Definition log_append (w : World) (es : list Effect) : World :=
  {| formed := formed w; prompt := prompt w;
     wishState := wishState w; log := log w ++ es |}.

(** The text shown for a response: [response.text?.trim() || fallback]. *)
Definition response_wish (response : GenerateContentResponse) : string :=
  or_else match response_text response with
          | Some t => trim t
          | None => EmptyString
          end
          "May your holidays be filled with golden moments.".

Definition blank_world : World :=
  {| formed := false; prompt := EmptyString; wishState := initialWishState; log := [] |}.

(** A continuation of a submit in flight: whatever the call answers and
    whatever the world is by then, it ends without an exception and leaves
    no error in the wish state. *)
Definition settles_clean (k : Result GenerateContentResponse -> World -> Task unit) : Prop :=
  forall r w, exists w', k r w = Finished (Returned tt) w' /\ error (wishState w') = None.

Definition panel_clean (p : Panel) : Prop :=
  error (wishState (world p)) = None /\ Forall settles_clean (inflight p).

(** The three writes of one point into a flat array. *)
Definition write3 (a : Float32Array) (i : nat) (v : Vector3) : Float32Array :=
  f32_set (f32_set (f32_set a (i * 3) (vx v)) (i * 3 + 1) (vy v)) (i * 3 + 2) (vz v).

(** After [n] iterations started after [c0] draws, the first [n] points are
    the ones the iterations computed and the arrays kept their length. *)
Definition foliage_done (rnd : nat -> number) (c0 n : nat) (a : FoliageAttributes) : Prop :=
  f32_length (f_scatterPos a) = (FOLIAGE_COUNT * 3)%nat
  /\ f32_length (f_treePos a) = (FOLIAGE_COUNT * 3)%nat
  /\ forall i, (i < n)%nat ->
       point_at (f_treePos a) i = foliage_tree_point i (rnd (c0 + 6 * i)%nat)
       /\ point_at (f_scatterPos a) i =
          foliage_scatter_point (rnd (c0 + 6 * i + 1)%nat) (rnd (c0 + 6 * i + 2)%nat)
                                (rnd (c0 + 6 * i + 3)%nat).

(** The store once [generateOrnaments(180)] has run from the empty store. *)
Definition store_after_ornaments (rnd : nat -> number) : Store :=
  {| randomCalls := 0 + 8 * 180;
     vectors := [] ++ flat_map (ornament_vectors rnd 180 0) (seq 0 180) |}.

(** The store grew and agrees with the old one below [base]. *)
Definition untouched (base : nat) (s s' : Store) : Prop :=
  (length (vectors s) <= length (vectors s'))%nat /\ agree_below base s s'.

(** A store computation that, run on a store holding at least [base]
    objects, leaves the first [base] of them alone and yields a result
    satisfying [Q]. *)
Definition safe {A} (base : nat) (m : M A) (Q : A -> Prop) : Prop :=
  forall s, (base <= length (vectors s))%nat ->
    untouched base s (snd (m s)) /\ Q (fst (m s)).

(** The dummy keeps its two vectors, both at or above [base]. *)
Definition dummy_above (base : nat) (d : Object3D) : Prop :=
  (base <= position d)%nat /\ (base <= scale3 d)%nat.

(** The number of [Vector3] objects [generateOrnaments(180)] allocates. *)
Definition ORNAMENT_OBJECTS : nat := 3 * 180.

(** What every callback keeps of the session [m0] it started from: the
    memoised data as values, the ornaments' objects in the store, and the
    dummies away from them. *)
Definition session_kept (m0 ss : Session) : Prop :=
  ornaments ss = ornaments m0
  /\ cubes ss = cubes m0
  /\ spheres ss = spheres m0
  /\ diamonds ss = diamonds m0
  /\ foliage ss = foliage m0
  /\ untouched ORNAMENT_OBJECTS (store m0) (store ss)
  /\ dummy_above ORNAMENT_OBJECTS (dummy (cubeLayer ss))
  /\ dummy_above ORNAMENT_OBJECTS (dummy (sphereLayer ss))
  /\ dummy_above ORNAMENT_OBJECTS (dummy (diamondLayer ss)).

Definition first_char (s : string) : option ascii :=
  match s with
  | EmptyString => None
  | String c _ => Some c
  end.

Fixpoint last_char (s : string) : option ascii :=
  match s with
  | EmptyString => None
  | String c EmptyString => Some c
  | String _ r => last_char r
  end.

(** Neither the first nor the last character is white space. *)
Definition clean_edges (s : string) : Prop :=
  (forall c, first_char s = Some c -> is_whitespace c = false)
  /\ (forall c, last_char s = Some c -> is_whitespace c = false).

(** The sentence a settled call leads to: the text of the response, or the
    fixed sentence of the [catch] clause. *)
Definition wish_of (r : Result GenerateContentResponse) : string :=
  match r with
  | Returned response => response_wish response
  | Thrown _ => "May elegance guide your way into the New Year."
  end.

(** The world after a submit in flight has settled with [r] in world [w]. *)
Definition settled_world (r : Result GenerateContentResponse) (w : World) : World :=
  let ws := {| isLoading := false; text := Some (wish_of r); error := None |} in
  match r with
  | Returned _ =>
      {| formed := formed w; prompt := prompt w; wishState := ws; log := log w |}
  | Thrown e =>
      {| formed := formed w; prompt := prompt w; wishState := ws;
         log := log w ++ [ConsoleError "Gemini API Error:" e] |}
  end.

Definition submit_continuation
    (k : Result GenerateContentResponse -> World -> Task unit) : Prop :=
  forall r w, k r w = Finished (Returned tt) (settled_world r w).

(** The world once [if (!isFormed) onIgnite()] has run. *)
Definition ignited (w : World) : World :=
  if formed w then w
  else {| formed := true; prompt := prompt w;
          wishState := wishState w; log := log w ++ [OnIgnite] |}.

(** The world a submit leaves behind while its call is in flight. *)
Definition loading_world (w : World) : World :=
  {| formed := true; prompt := prompt w;
     wishState := {| isLoading := true; text := text (wishState w); error := None |};
     log := log (ignited w) ++ [Outbound (wish_request (prompt w))] |}.

(** The world after a submit without credential. *)
Definition keyless_world (w : World) : World :=
  {| formed := true; prompt := prompt w;
     wishState := {| isLoading := false;
                     text := Some "Experience the magic of the holidays. (API Key missing)"%string;
                     error := None |};
     log := log (ignited w) |}.

(** Every continuation in flight is the one of a submit, and the loading
    flag is set only while some call is in flight. *)
Definition panel_wf (p : Panel) : Prop :=
  Forall submit_continuation (inflight p)
  /\ (isLoading (wishState (world p)) = true -> inflight p <> []).

(** The refs after frames of the given deltas, the flag held fixed. *)
Definition frames_after (isFormed : bool) (ds : list number) (t : TreeRefs) : TreeRefs :=
  fold_left (fun t d => Tree_useFrame isFormed d t) ds t.

(** The target of the blend, [isFormed ? 1 : 0]. *)
Definition target_of (isFormed : bool) : number := if isFormed then 1 else 0.

(** The rotation speed of the group, [isFormed ? 0.05 : 0.01]. *)
Definition rotSpeed_of (isFormed : bool) : number := if isFormed then 0.05 else 0.01.

Definition total (ds : list number) : number := fold_right Rplus 0 ds.

(** A frame short enough for the weight [delta * 1.2] to be at most 1. *)
Definition short_frame (d : number) : Prop := 0 <= d /\ d * 1.2 <= 1.

Definition frame_of (td : number * number) : Event := Frame (fst td) (snd td).

(** A run of frames, each given by its clock time and its delta. *)
Definition frames (tds : list (number * number)) : list Event := map frame_of tds.

(** The factor by which frames of the given deltas multiply the distance
    of the blend scalar to its target. *)
Definition decay (ds : list number) : number :=
  fold_right (fun d acc => (1 - d * 1.2) * acc) 1 ds.

(** The object behind a reference, as [read] returns it. *)
Definition vec (s : Store) (p : ref) : Vector3 :=
  match deref s p with Some v => v | None => zero3 end.

(** The position [OrnamentLayer] gives an item at clock [time]: the blend
    of its two positions, plus the float in [y] and half of it in [x]. *)
Definition displayed_position (time progress : number) (item : OrnamentData)
    (sp tp : Vector3) : Vector3 :=
  let floatAmp := (1 - progress) * 1.0 + 0.05 in
  mkVector3
    (vx sp + (vx tp - vx sp) * progress + cos (time * 0.5 + phase item) * floatAmp * 0.5)
    (vy sp + (vy tp - vy sp) * progress + sin (time + phase item) * floatAmp)
    (vz sp + (vz tp - vz sp) * progress).

Definition displayed_rotation (time : number) (rs : Vector3) : Vector3 :=
  mkVector3 (time * vx rs) (time * vy rs) (time * vz rs).

Definition displayed_scale (progress : number) (item : OrnamentData) : Vector3 :=
  let k := scale item * (progress * 0.3 + 0.7) in mkVector3 k k k.

(** The matrix a frame writes for [item], its vectors read from [s]. *)
Definition ornament_matrix (time progress : number) (s : Store) (item : OrnamentData)
  : Matrix4 :=
  compose (displayed_position time progress item
             (vec s (scatterPos item)) (vec s (treePos item)))
          (displayed_rotation time (vec s (rotationSpeed item)))
          (displayed_scale progress item).

(** The dummy's two vectors are allocated, distinct, and not below [base]. *)
Definition dummy_ok (base : nat) (d : Object3D) (s : Store) : Prop :=
  (base <= position d < length (vectors s))%nat
  /\ (base <= scale3 d < length (vectors s))%nat
  /\ position d <> scale3 d.

Definition item_below (base : nat) (item : OrnamentData) : Prop :=
  forall p, In p (refs_of item) -> (p < base)%nat.

(** The three ornament layers of [Tree]. *)
Inductive Layer := Cubes | Spheres | Diamonds.

Definition layer_data (ss : Session) (L : Layer) : list OrnamentData :=
  match L with
  | Cubes => cubes ss
  | Spheres => spheres ss
  | Diamonds => diamonds ss
  end.

Definition layer_refs (ss : Session) (L : Layer) : OrnamentLayerRefs :=
  match L with
  | Cubes => cubeLayer ss
  | Spheres => sphereLayer ss
  | Diamonds => diamondLayer ss
  end.

(** A layer whose mesh is attached with one slot per item and whose dummy
    is sound in the store [s]. *)
Definition layer_ready (data : list OrnamentData) (l : OrnamentLayerRefs) (s : Store) : Prop :=
  (exists mesh, meshRef l = Some mesh /\ length (instanceMatrix mesh) = length data)
  /\ dummy_ok ORNAMENT_OBJECTS (dummy l) s.

(** What holds of every session reached from the mounted session [m0]. *)
Definition session_ready (m0 ss : Session) : Prop :=
  session_kept m0 ss
  /\ forall L, layer_ready (layer_data ss L) (layer_refs ss L) (store ss).

(** After [n] iterations started after [c0] draws, the first [n] entries of
    the two scalar attributes are the ones the iterations computed. *)
Definition foliage_attrs_done (rnd : nat -> number) (c0 n : nat) (a : FoliageAttributes) : Prop :=
  f32_length (f_randoms a) = FOLIAGE_COUNT
  /\ f32_length (f_sizes a) = FOLIAGE_COUNT
  /\ forall i, (i < n)%nat ->
       f32_at (f_randoms a) i = rnd (c0 + 6 * i + 4)%nat
       /\ f32_at (f_sizes a) i = rnd (c0 + 6 * i + 5)%nat * 0.6 + 0.4.

(** ** The foliage shaders of [Tree.tsx] *)

(** GLSL built-ins the shaders call. *)
Definition clamp (x minVal maxVal : number) : number := Rmin (Rmax x minVal) maxVal.

Definition smoothstep (edge0 edge1 x : number) : number :=
  let t := clamp ((x - edge0) / (edge1 - edge0)) 0.0 1.0 in
  t * t * (3.0 - 2.0 * t).

Definition mix (x y a : number) : number := x * (1 - a) + y * a.

Definition mix3 (x y : Vector3) (a : number) : Vector3 :=
  mkVector3 (mix (vx x) (vx y) a) (mix (vy x) (vy y) a) (mix (vz x) (vz y) a).

(** The attributes of one particle, as the vertex shader receives them. *)
Record FoliageVertex := mkFoliageVertex {
  uv : number * number;
  aScatterPos : Vector3;
  aTreePos : Vector3;
  aRandom : number;
  aSize : number
}.

(** What the vertex shader sets; [v_pos] is [pos] as it stands when
    [modelViewMatrix] is applied and [v_localProgress] the local of that
    name, both kept for the statements. *)
Record VertexOut (Clip : Type) := mkVertexOut {
  vUv : number * number;
  vRandom : number;
  v_localProgress : number;
  v_pos : Vector3;
  gl_PointSize : number;
  gl_Position : Clip;
  vAlpha : number
}.
Arguments vUv {Clip} _.
Arguments vRandom {Clip} _.
Arguments v_localProgress {Clip} _.
Arguments v_pos {Clip} _.
Arguments gl_PointSize {Clip} _.
Arguments gl_Position {Clip} _.
Arguments vAlpha {Clip} _.
(** [localProgress] of the vertex shader, from [uProgress] and [aTreePos.y]. *)
Definition localProgress (uProgress treeY : number) : number :=
  let heightNorm := (treeY + 7.0) / 14.0 in
  let delay := heightNorm * 0.5 in
  let activation := uProgress * 1.5 - delay in
  let localProgress := smoothstep 0.0 1.0 activation in
  clamp localProgress 0.0 1.0.

(** [main] of [foliageVertexShader]; the two matrices of the renderer are
    taken as the maps they apply to a position. *)
Definition foliageVertexShader {Clip : Type}
    (modelViewMatrix : Vector3 -> Vector3) (projectionMatrix : Vector3 -> Clip)
    (u : FoliageUniforms) (a : FoliageVertex) : VertexOut Clip :=
  let localProgress := localProgress (uProgress u) (vy (aTreePos a)) in
  let pos := mix3 (aScatterPos a) (aTreePos a) localProgress in
  let driftIntensity := mix 2.0 0.05 localProgress in
  let pos :=
    mkVector3
      (vx pos + sin (uTime u * 0.3 + aRandom a * 15.0) * 0.15 * driftIntensity)
      (vy pos + cos (uTime u * 0.2 + aRandom a * 25.0) * 0.15 * driftIntensity)
      (vz pos + sin (uTime u * 0.4 + aRandom a * 35.0) * 0.15 * driftIntensity) in
  let mvPosition := modelViewMatrix pos in
  let sizeMultiplier := mix 0.8 1.2 (aRandom a) in
  let formScale := mix 0.8 1.2 localProgress in
  {| vUv := uv a;
     vRandom := aRandom a;
     v_localProgress := localProgress;
     v_pos := pos;
     gl_PointSize := (aSize a * sizeMultiplier * formScale * 70.0) * (1.0 / - vz mvPosition);
     gl_Position := projectionMatrix mvPosition;
     vAlpha := mix 0.4 1.0 localProgress |}.

(** [main] of [foliageFragmentShader]: [None] when the fragment is
    discarded, else the colour and the alpha of [gl_FragColor].  The
    square stands for [pow(glow, 2.0)], whose base is not negative here. *)
Definition foliageFragmentShader (uColorEmerald uColorGold : Vector3) (uTime : number)
    (vAlpha vRandom : number) (gl_PointCoord : number * number)
  : option (Vector3 * number) :=
  let cx := fst gl_PointCoord - 0.5 in
  let cy := snd gl_PointCoord - 0.5 in
  let dist := sqrt (cx * cx + cy * cy) in
  if Rlt_dec 0.5 dist then None
  else
    let glow := 1.0 - dist * 2.0 in
    let glow := glow * glow in
    let speed := 2.0 + vRandom * 3.0 in
    let sparkle := sin (uTime * speed + vRandom * 100.0) * 0.5 + 0.5 in
    let baseColor := uColorEmerald in
    let highlightColor := uColorGold in
    let finalColor := mix3 baseColor highlightColor (dist * 1.0 + sparkle * 0.6) in
    Some (finalColor, vAlpha * glow).

(** ** More notions used by the statements *)

(** Vertex [i] of the points geometry: one item of each buffer attribute. *)
Definition particle (fol : FoliageAttributes) (i : nat) (uv0 : number * number)
  : FoliageVertex :=
  {| uv := uv0;
     aScatterPos := point_at (f_scatterPos fol) i;
     aTreePos := point_at (f_treePos fol) i;
     aRandom := f32_at (f_randoms fol) i;
     aSize := f32_at (f_sizes fol) i |}.

Fixpoint count_frames (es : list Event) : nat :=
  match es with
  | [] => O
  | Frame _ _ :: r => S (count_frames r)
  | Render _ :: r => count_frames r
  end.

(** A request built from a prompt that has a character other than white
    space: the template followed by that prompt as typed. *)
Definition carries_prompt (r : GenerateContentRequest) : Prop :=
  exists p,
    all_whitespace p = false
    /\ contents r =
       ("Create a luxurious, magical holiday wish for someone who loves: " ++ p)%string
    /\ model r = "gemini-2.5-flash"%string
    /\ config r = {| systemInstruction := LUXURY_SYSTEM_INSTRUCTION;
                     temperature := 0.8; maxOutputTokens := 60 |}.

(* ================================================================== *)
(** * Properties *)

(** ** The wish service *)

Lemma truthy_false_iff (s : string) : truthy s = false <-> s = EmptyString.
Proof. destruct s; simpl; split; congruence. Qed.

Lemma trimStart_all_whitespace (s : string) :
  all_whitespace s = true -> trimStart s = EmptyString.
Proof.
  induction s as [|c r IH]; simpl; intros H; [reflexivity|].
  apply andb_true_iff in H as [Hc Hr]. rewrite Hc. auto.
Qed.

Lemma trim_all_whitespace (s : string) :
  all_whitespace s = true -> trim s = EmptyString.
Proof. intros H. unfold trim. rewrite trimStart_all_whitespace; auto. Qed.

Lemma outbound_app (l1 l2 : list Effect) :
  outbound (l1 ++ l2) = outbound l1 ++ outbound l2.
Proof.
  induction l1 as [|e l1 IH]; simpl; [reflexivity|].
  destruct e; simpl; rewrite IH; reflexivity.
Qed.

Lemma ignitions_app (l1 l2 : list Effect) :
  ignitions (l1 ++ l2) = (ignitions l1 + ignitions l2)%nat.
Proof.
  induction l1 as [|e l1 IH]; simpl; [reflexivity|].
  destruct e; simpl; rewrite IH; reflexivity.
Qed.

(** C5: without a credential the service answers at once, with the fixed
    sentence, for every input: the task is finished (never suspended on a
    call) and the world, its log of requests included, is untouched. *)
Theorem generateLuxuryWish_without_key (userInput : string) (w : World) :
  generateLuxuryWish EmptyString userInput w =
  Finished (Returned "Experience the magic of the holidays. (API Key missing)"%string) w.
Proof. reflexivity. Qed.

Lemma generateLuxuryWish_with_key (apiKey userInput : string) (w : World) :
  apiKey <> EmptyString ->
  exists k,
    generateLuxuryWish apiKey userInput w =
      Suspended (wish_request userInput)
                (log_append w [Outbound (wish_request userInput)]) k
    /\ (forall response w',
          k (Returned response) w' = Finished (Returned (response_wish response)) w')
    /\ (forall e w',
          k (Thrown e) w' =
          Finished (Returned "May elegance guide your way into the New Year."%string)
                   (log_append w' [ConsoleError "Gemini API Error:"%string e])).
Proof.
  intros Hk. unfold generateLuxuryWish.
  destruct apiKey as [|c r]; [congruence|]. simpl.
  unfold try_catch, and_then, generateContent. simpl.
  eexists. split; [reflexivity|]. split; intros; reflexivity.
Qed.

(** C6: with a credential, when the external call raises, whatever the
    exception, the service returns the fixed sentence for every input; the
    one request that was sent is not sent again. *)
Theorem generateLuxuryWish_call_raises
    (apiKey userInput : string) (service : Service) (e : Exception) (w : World) :
  apiKey <> EmptyString ->
  service (wish_request userInput) = Thrown e ->
  complete service (generateLuxuryWish apiKey userInput w) =
    (Returned "May elegance guide your way into the New Year."%string,
     log_append w [Outbound (wish_request userInput);
                   ConsoleError "Gemini API Error:"%string e]).
Proof.
  intros Hk He.
  destruct (generateLuxuryWish_with_key apiKey userInput w Hk) as (k & -> & _ & Hthrown).
  simpl. rewrite He, Hthrown. simpl. unfold log_append. simpl.
  rewrite <- app_assoc. reflexivity.
Qed.

Lemma generateLuxuryWish_call_raises_witness :
  complete (fun _ => Thrown TimeoutError)
           (generateLuxuryWish "key"%string "Snow"%string blank_world) =
    (Returned "May elegance guide your way into the New Year."%string,
     log_append blank_world [Outbound (wish_request "Snow"%string);
                             ConsoleError "Gemini API Error:"%string TimeoutError]).
Proof.
  apply (generateLuxuryWish_call_raises "key"%string "Snow"%string (fun _ => Thrown TimeoutError)
           TimeoutError blank_world).
  - discriminate.
  - reflexivity.
Defined.

(** C8: with a credential, for every input and every answer of the
    service, exactly one request leaves; its contents are the template
    followed by the input, or by [Elegance] when the input is empty, with
    the fixed system instruction, temperature 0.8 and a cap of 60 tokens. *)
Theorem generateLuxuryWish_single_request
    (apiKey userInput : string) (service : Service) (w : World) :
  apiKey <> EmptyString ->
  outbound (log (snd (complete service (generateLuxuryWish apiKey userInput w)))) =
  outbound (log w) ++
  [ {| model := "gemini-2.5-flash";
       contents :=
         ("Create a luxurious, magical holiday wish for someone who loves: " ++
          match userInput with
          | EmptyString => "Elegance"
          | String _ _ => userInput
          end)%string;
       config := {| systemInstruction := LUXURY_SYSTEM_INSTRUCTION;
                    temperature := 0.8;
                    maxOutputTokens := 60 |} |} ].
Proof.
  intros Hk.
  destruct (generateLuxuryWish_with_key apiKey userInput w Hk) as (k & -> & Hret & Hthrown).
  simpl. destruct (service (wish_request userInput)) as [response|e].
  - rewrite Hret. simpl. rewrite outbound_app. simpl.
    unfold wish_request, or_else. destruct userInput; reflexivity.
  - rewrite Hthrown. simpl. rewrite !outbound_app. simpl. rewrite app_nil_r.
    unfold wish_request, or_else. destruct userInput; reflexivity.
Qed.

Lemma generateLuxuryWish_single_request_witness :
  outbound (log (snd (complete (fun _ => Returned {| response_text := Some "Glow"%string |})
                               (generateLuxuryWish "key"%string EmptyString blank_world)))) =
  [ {| model := "gemini-2.5-flash";
       contents := "Create a luxurious, magical holiday wish for someone who loves: Elegance";
       config := {| systemInstruction := LUXURY_SYSTEM_INSTRUCTION;
                    temperature := 0.8;
                    maxOutputTokens := 60 |} |} ].
Proof.
  apply (generateLuxuryWish_single_request "key"%string EmptyString
           (fun _ => Returned {| response_text := Some "Glow"%string |}) blank_world).
  discriminate.
Defined.

(** ** The wish panel *)

(** C7: a submit with an empty or blank prompt while the tree is not formed
    calls [onIgnite] once, which makes the tree formed, and ends there: no
    request leaves and the wish state is the one from before. *)
Theorem handleGenerateWish_blank_prompt (apiKey : string) (w : World) :
  formed w = false ->
  all_whitespace (prompt w) = true ->
  handleGenerateWish apiKey w =
  Finished (Returned tt)
    {| formed := true; prompt := prompt w;
       wishState := wishState w; log := log w ++ [OnIgnite] |}.
Proof.
  intros Hf Hb. unfold handleGenerateWish.
  rewrite Hf, (trim_all_whitespace _ Hb). reflexivity.
Qed.

Lemma handleGenerateWish_blank_prompt_witness :
  handleGenerateWish "key"
    {| formed := false; prompt := "   "; wishState := initialWishState; log := [] |} =
  Finished (Returned tt)
    {| formed := true; prompt := "   ";
       wishState := initialWishState; log := [OnIgnite] |}.
Proof.
  apply (handleGenerateWish_blank_prompt "key"
           {| formed := false; prompt := "   ";
              wishState := initialWishState; log := [] |}); reflexivity.
Defined.

Lemma generateLuxuryWish_returns (apiKey userInput : string) (w : World) :
  returns (generateLuxuryWish apiKey userInput w).
Proof.
  destruct apiKey as [|c r].
  - exact (returns_now _ _).
  - destruct (generateLuxuryWish_with_key (String c r) userInput w) as (k & -> & Hret & Hthrown);
      [discriminate|].
    constructor. intros [response|e] w'.
    + rewrite Hret. constructor.
    + rewrite Hthrown. constructor.
Qed.

Lemma handleGenerateWish_clean (apiKey : string) (w : World) :
  error (wishState w) = None ->
  match handleGenerateWish apiKey w with
  | Finished r w' => r = Returned tt /\ error (wishState w') = None
  | Suspended _ w' k => error (wishState w') = None /\ settles_clean k
  end.
Proof.
  intros Herr. unfold handleGenerateWish.
  destruct (formed w); simpl;
    (destruct (truthy (trim (prompt w))); simpl; [|now split]);
    (destruct apiKey as [|c r]; simpl; [now split|]);
    (split; [reflexivity|]);
    intros [response|e] w'; simpl; eexists; split; reflexivity.
Qed.

Lemma commit_clean (t : Task unit) rest :
  match t with
  | Finished _ w' => error (wishState w') = None
  | Suspended _ w' k => error (wishState w') = None /\ settles_clean k
  end ->
  Forall settles_clean rest ->
  panel_clean (commit t rest).
Proof.
  intros Ht Hrest. destruct t as [r w'|req w' k]; simpl; split; simpl; auto.
  - tauto.
  - apply Forall_app. split; [assumption|]. constructor; [tauto|constructor].
Qed.

Lemma remove_nth_Forall {A} (P : A -> Prop) (l : list A) (i : nat) :
  Forall P l -> Forall P (remove_nth i l).
Proof.
  intros H. revert i. induction H as [|x l Hx Hl IH]; intros [|i]; simpl; auto.
Qed.

Lemma panel_step_clean (apiKey : string) (p : Panel) (e : UIEvent) :
  panel_clean p -> panel_clean (panel_step apiKey p e).
Proof.
  intros [Herr Hin]. destruct e as [s| | |i outcome]; cbn [panel_step].
  - split; simpl; assumption.
  - apply commit_clean; auto.
    pose proof (handleGenerateWish_clean apiKey (world p) Herr) as H.
    destruct (handleGenerateWish apiKey (world p)); tauto.
  - split; simpl; [reflexivity|assumption].
  - destruct (nth_error (inflight p) i) as [k|] eqn:Hk; [|split; assumption].
    assert (Hclean : settles_clean k).
    { eapply Forall_forall; [exact Hin|]. eapply nth_error_In; eassumption. }
    destruct (Hclean outcome (world p)) as (w' & -> & Hw').
    apply commit_clean; [assumption|]. apply remove_nth_Forall; assumption.
Qed.

Lemma panel_run_from_clean (apiKey : string) (es : list UIEvent) (p : Panel) :
  panel_clean p -> panel_clean (fold_left (panel_step apiKey) es p).
Proof.
  revert p. induction es as [|e es IH]; simpl; intros p Hp; [assumption|].
  apply IH, panel_step_clean, Hp.
Qed.

Lemma handleGenerateWish_completes (apiKey : string) (service : Service) (w : World) :
  exists wish,
    fst (complete service (handleGenerateWish apiKey w)) = Returned tt
    /\ wishState (snd (complete service (handleGenerateWish apiKey w))) =
       if truthy (trim (prompt w))
       then {| isLoading := false; text := Some wish; error := None |}
       else wishState w.
Proof.
  unfold handleGenerateWish.
  destruct (formed w); simpl;
    (destruct (truthy (trim (prompt w))); simpl;
       [|exists EmptyString; split; reflexivity]);
    (destruct apiKey as [|c r]; simpl; [eexists; split; reflexivity|]);
    destruct (service (wish_request (prompt w))) as [response|e]; simpl;
    eexists; split; reflexivity.
Qed.

(** C10: the service is total, on every path it ends with a returned
    string and never with an exception; so a submit that goes through ends
    in the success state, never in the state of the handler's [catch], and
    in the panel, whatever the sequence of typing, submits, resets and
    settling calls, and in whatever order the calls in flight settle, the
    wish state carries no error. *)
Theorem generateLuxuryWish_total_and_no_error (apiKey : string) :
  (forall userInput w, returns (generateLuxuryWish apiKey userInput w))
  /\ (forall userInput service w,
        exists wish, fst (complete service (generateLuxuryWish apiKey userInput w))
                     = Returned wish)
  /\ (forall service w,
        exists wish,
          fst (complete service (handleGenerateWish apiKey w)) = Returned tt
          /\ wishState (snd (complete service (handleGenerateWish apiKey w))) =
             if truthy (trim (prompt w))
             then {| isLoading := false; text := Some wish; error := None |}
             else wishState w)
  /\ (forall es, error (wishState (world (panel_run apiKey es))) = None).
Proof.
  split; [|split; [|split]].
  - intros. apply generateLuxuryWish_returns.
  - intros userInput service w. destruct apiKey as [|c r].
    + eexists. reflexivity.
    + destruct (generateLuxuryWish_with_key (String c r) userInput w)
        as (k & -> & Hret & Hthrown); [discriminate|].
      simpl. destruct (service (wish_request userInput)) as [response|e].
      * rewrite Hret. eexists. reflexivity.
      * rewrite Hthrown. eexists. reflexivity.
  - intros. apply handleGenerateWish_completes.
  - intros es. unfold panel_run.
    apply (panel_run_from_clean apiKey es initialPanel).
    split; [reflexivity|constructor].
Qed.

(** ** The blend driver *)

Lemma progress_after_frame (isFormed : bool) (delta : number) (t : TreeRefs) :
  progressRef (Tree_useFrame isFormed delta t) =
  lerp (progressRef t) (if isFormed then 1 else 0) (delta * 1.2).
Proof. reflexivity. Qed.

(** C2, as the code has it: a frame whose delta is at most 5/6 of a second
    (so that the weight [delta * 1.2] is at most 1) keeps the scalar in
    [0,1] and between its old value and the target. *)
Theorem blend_step_bounded (isFormed : bool) (delta : number) (t : TreeRefs) :
  0 <= delta -> delta * 1.2 <= 1 ->
  0 <= progressRef t <= 1 ->
  0 <= progressRef (Tree_useFrame isFormed delta t) <= 1
  /\ (if isFormed
      then progressRef t <= progressRef (Tree_useFrame isFormed delta t) <= 1
      else 0 <= progressRef (Tree_useFrame isFormed delta t) <= progressRef t).
Proof.
  intros Hd Hw Hp. rewrite progress_after_frame. unfold lerp.
  destruct isFormed; nra.
Qed.

Lemma blend_step_bounded_witness :
  let t := {| progressRef := 0.5; groupRef := Some 0 |} in
  0 <= progressRef (Tree_useFrame true (1 / 60) t) <= 1
  /\ progressRef t <= progressRef (Tree_useFrame true (1 / 60) t) <= 1.
Proof.
  apply (blend_step_bounded true (1 / 60) {| progressRef := 0.5; groupRef := Some 0 |});
    simpl; lra.
Defined.

(** C2 as stated fails: from 0, with target 1, a frame that took one second
    puts the scalar at 1.2. *)
Lemma blend_step_overshoots :
  let t := {| progressRef := 0; groupRef := None |} in
  0 <= progressRef t <= 1
  /\ 0 <= 1
  /\ progressRef (Tree_useFrame true 1 t) = 1.2
  /\ ~ (0 <= progressRef (Tree_useFrame true 1 t) <= 1).
Proof.
  simpl. unfold lerp. repeat split; lra.
Qed.

Lemma blend_closed_form (dt : number) (n : nat) (t : TreeRefs) :
  progressRef (blend_after true dt n t) =
  1 - (1 - progressRef t) * (1 - dt * 1.2) ^ n.
Proof.
  induction n as [|n IH]; simpl blend_after.
  - simpl. ring.
  - rewrite progress_after_frame, IH. unfold lerp. simpl pow. ring.
Qed.

Lemma pow_decay_bound (a : R) (n : nat) :
  0 <= a <= 1 -> (1 - a) ^ n * (1 + INR n * a) <= 1.
Proof.
  intros Ha. induction n as [|n IH].
  - simpl. lra.
  - rewrite S_INR. simpl pow.
    assert (Hp : 0 <= (1 - a) ^ n) by (apply pow_le; lra).
    assert (Hn : 0 <= INR n) by apply pos_INR.
    assert (H2 : 0 <= (1 - a) ^ n * ((INR n + 1) * (a * a))) by
      (apply Rmult_le_pos; [assumption|]; apply Rmult_le_pos; nra).
    nra.
Qed.

(** C3, as the code has it: from 0 with target 1, ticking at a fixed size
    [dt] of at most 5/6 of a second (so that the weight [dt * 1.2] is at
    most 1), the scalar never decreases, never exceeds 1, and is within
    0.001 of 1 from some tick on: from any tick [n] with
    [n * (dt * 1.2) >= 999]. *)
Theorem blend_converges_monotonically (dt : number) (g : option number) :
  0 < dt -> dt * 1.2 <= 1 ->
  let p := fun n => progressRef (blend_after true dt n {| progressRef := 0; groupRef := g |}) in
  p O = 0
  /\ (forall n, p n <= p (S n))
  /\ (forall n, p n <= 1)
  /\ (forall n, 999 <= INR n * (dt * 1.2) -> 1 - p n <= 0.001)
  /\ (exists N, forall n, (N <= n)%nat -> 1 - 0.001 <= p n <= 1).
Proof.
  intros Hdt Hw p.
  assert (Hp : forall n, p n = 1 - (1 - dt * 1.2) ^ n).
  { intros n. unfold p. rewrite blend_closed_form. simpl. ring. }
  assert (Hpow : forall n, 0 <= (1 - dt * 1.2) ^ n) by (intros; apply pow_le; lra).
  assert (Hnear : forall n, 999 <= INR n * (dt * 1.2) -> 1 - p n <= 0.001).
  { intros n Hn. rewrite Hp.
    pose proof (pow_decay_bound (dt * 1.2) n ltac:(lra)) as Hb.
    specialize (Hpow n). nra. }
  split; [reflexivity|]. split; [|split; [|split]].
  - intros n. rewrite !Hp. simpl pow. specialize (Hpow n). nra.
  - intros n. rewrite Hp. specialize (Hpow n). lra.
  - exact Hnear.
  - destruct (archimed (999 / (dt * 1.2))) as [Hup _].
    exists (Z.to_nat (up (999 / (dt * 1.2)))). intros n Hn. split.
    + assert (H999 : 999 <= INR n * (dt * 1.2)).
      { assert (Hpos : 0 < 999 / (dt * 1.2)) by (apply Rdiv_lt_0_compat; lra).
        assert (Hz : (0 <= up (999 / (dt * 1.2)))%Z).
        { apply le_IZR. lra. }
        assert (Hle : IZR (up (999 / (dt * 1.2))) <= INR n).
        { rewrite <- (Z2Nat.id _ Hz), <- INR_IZR_INZ. apply le_INR. exact Hn. }
        assert (Hq : 999 / (dt * 1.2) * (dt * 1.2) = 999) by (field; lra).
        nra. }
      specialize (Hnear n H999). lra.
    + rewrite Hp. specialize (Hpow n). lra.
Qed.

Lemma blend_converges_monotonically_witness :
  let p := fun n => progressRef (blend_after true (1 / 60) n
                                   {| progressRef := 0; groupRef := Some 0 |}) in
  p O = 0
  /\ (forall n, p n <= p (S n))
  /\ (forall n, p n <= 1)
  /\ (forall n, 999 <= INR n * (1 / 60 * 1.2) -> 1 - p n <= 0.001)
  /\ (exists N, forall n, (N <= n)%nat -> 1 - 0.001 <= p n <= 1).
Proof.
  apply (blend_converges_monotonically (1 / 60) (Some 0)); lra.
Defined.

(** C3 as stated fails for a long tick.  At a fixed tick size of one second
    the sequence from 0 is 0, 1.2, 0.96: it passes 1 and then decreases.
    At a fixed tick size of two seconds the distance of the scalar to 1 is
    [1.4 ^ n] after [n] ticks, so it is never within 0.001 of 1. *)
Lemma blend_long_tick_not_monotone :
  let p := fun dt n => progressRef (blend_after true dt n
                                      {| progressRef := 0; groupRef := None |}) in
  p 1 0%nat = 0 /\ p 1 1%nat = 1.2 /\ p 1 2%nat = 0.96
  /\ ~ (p 1 1%nat <= p 1 2%nat)
  /\ (forall n, Rabs (1 - p 2 n) = 1.4 ^ n)
  /\ (forall n, ~ (1 - 0.001 <= p 2 n <= 1)).
Proof.
  intros p.
  assert (Hd : forall n, Rabs (1 - p 2 n) = 1.4 ^ n).
  { intros n. unfold p. rewrite blend_closed_form. simpl progressRef.
    replace (1 - (1 - (1 - 0) * (1 - 2 * 1.2) ^ n)) with ((1 - 2 * 1.2) ^ n) by ring.
    rewrite <- RPow_abs. f_equal.
    unfold Rabs. destruct (Rcase_abs (1 - 2 * 1.2)); lra. }
  unfold p at 1 2 3 4 5. simpl blend_after. simpl progressRef. unfold lerp.
  repeat split; try lra.
  - exact Hd.
  - intros n [Hlo Hhi].
    assert (H1 : 1 <= 1.4 ^ n) by (apply pow_R1_Rle; lra).
    rewrite <- Hd in H1. unfold Rabs in H1.
    destruct (Rcase_abs (1 - p 2 n)); lra.
Qed.

Lemma pow_ratio (a b : Z) (n : nat) :
  (0 < b)%Z -> (IZR a / IZR b) ^ n = IZR (a ^ Z.of_nat n) / IZR (b ^ Z.of_nat n).
Proof.
  intros Hb. rewrite <- !pow_IZR. unfold Rdiv.
  rewrite Rpow_mult_distr, pow_inv. reflexivity.
Qed.

(** At sixty ticks a second the scalar is within 0.001 of 1 after 342
    ticks (5.7 seconds), and not yet after 341. *)
Example blend_sixty_per_second :
  let p := fun n => progressRef (blend_after true (1 / 60) n
                                   {| progressRef := 0; groupRef := None |}) in
  1 - p 342%nat <= 0.001 /\ 0.001 < 1 - p 341%nat.
Proof.
  intros p. unfold p. rewrite !blend_closed_form. simpl progressRef.
  replace (1 - 1 / 60 * 1.2) with (IZR 49 / IZR 50) by lra.
  rewrite !pow_ratio by lia.
  remember (49 ^ Z.of_nat 342)%Z as a eqn:Ea.
  remember (50 ^ Z.of_nat 342)%Z as b eqn:Eb.
  remember (49 ^ Z.of_nat 341)%Z as c eqn:Ec.
  remember (50 ^ Z.of_nat 341)%Z as d eqn:Ed.
  assert (Hb : 0 < IZR b) by (apply IZR_lt; subst b; vm_compute; reflexivity).
  assert (Hd : 0 < IZR d) by (apply IZR_lt; subst d; vm_compute; reflexivity).
  assert (H1 : IZR (1000 * a) <= IZR b) by (apply IZR_le; subst a b; vm_compute; discriminate).
  assert (H2 : IZR d < IZR (1000 * c)) by (apply IZR_lt; subst c d; vm_compute; reflexivity).
  rewrite mult_IZR in H1, H2. clear Ea Eb Ec Ed.
  generalize dependent (IZR a). generalize dependent (IZR b).
  generalize dependent (IZR c). generalize dependent (IZR d).
  intros rd Hd rc H2 rb Hb ra H1.
  split.
  - apply Rmult_le_reg_r with rb; [assumption|].
    replace ((1 - (1 - (1 - 0) * (ra / rb))) * rb) with ra by (field; lra).
    lra.
  - apply Rmult_lt_reg_r with rd; [assumption|].
    replace ((1 - (1 - (1 - 0) * (rc / rd))) * rd) with rc by (field; lra).
    lra.
Qed.

(** ** The geometry generators *)

(** *** Bounds on what one iteration produces *)

Lemma INR_FOLIAGE_COUNT : INR FOLIAGE_COUNT = 6000.
Proof. rewrite INR_IZR_INZ. reflexivity. Qed.

Lemma sqrt_sq_nonneg (r : R) : 0 <= r -> sqrt (r * r) = r.
Proof. intros H. apply sqrt_square. exact H. Qed.

Lemma sin_cos_sq (x : R) : sin x * sin x + cos x * cos x = 1.
Proof. pose proof (sin2_cos2 x) as H. unfold Rsqr in H. exact H. Qed.

Lemma on_circle (a r : R) :
  0 <= r -> sqrt (cos a * r * (cos a * r) + sin a * r * (sin a * r)) = r.
Proof.
  intros Hr.
  replace (cos a * r * (cos a * r) + sin a * r * (sin a * r))
    with ((sin a * sin a + cos a * cos a) * (r * r)) by ring.
  rewrite sin_cos_sq, Rmult_1_l. apply sqrt_sq_nonneg, Hr.
Qed.

Lemma on_sphere (sr phi theta : R) :
  0 <= sr ->
  sqrt (sr * sin phi * cos theta * (sr * sin phi * cos theta)
        + sr * sin phi * sin theta * (sr * sin phi * sin theta)
        + sr * cos phi * (sr * cos phi)) = sr.
Proof.
  intros Hr.
  replace (sr * sin phi * cos theta * (sr * sin phi * cos theta)
           + sr * sin phi * sin theta * (sr * sin phi * sin theta)
           + sr * cos phi * (sr * cos phi))
    with ((sin phi * sin phi * (sin theta * sin theta + cos theta * cos theta)
           + cos phi * cos phi) * (sr * sr)) by ring.
  rewrite sin_cos_sq, Rmult_1_r, sin_cos_sq, Rmult_1_l.
  apply sqrt_sq_nonneg, Hr.
Qed.

Lemma ratio_below_one (i n : nat) : (i < n)%nat -> 0 <= INR i / INR n < 1.
Proof.
  intros Hlt.
  assert (Hi : 0 <= INR i) by apply pos_INR.
  assert (Hn : 0 < INR n) by (apply lt_0_INR; lia).
  assert (Hin : INR i < INR n) by (apply lt_INR; exact Hlt).
  split.
  - apply Rmult_le_pos; [assumption|]. left. apply Rinv_0_lt_compat, Hn.
  - apply Rmult_lt_reg_r with (INR n); [assumption|].
    unfold Rdiv. rewrite Rmult_assoc, Rinv_l by lra. lra.
Qed.

Lemma foliage_scatter_point_norm (u2 u3 u4 : R) :
  0 <= u2 -> norm3 (foliage_scatter_point u2 u3 u4) = 25 + u2 * 20.
Proof.
  intros Hu. unfold norm3, foliage_scatter_point. cbn [vx vy vz].
  apply on_sphere. lra.
Qed.

Lemma foliage_tree_point_bounds (i : nat) (u1 : R) :
  (i < FOLIAGE_COUNT)%nat -> 0 <= u1 < 1 ->
  - (TREE_HEIGHT / 2) <= vy (foliage_tree_point i u1) < TREE_HEIGHT / 2
  /\ 0 <= radial (foliage_tree_point i u1) < TREE_RADIUS + JITTER_BOUND.
Proof.
  intros Hi Hu. pose proof (ratio_below_one i FOLIAGE_COUNT Hi) as Ht.
  unfold foliage_tree_point, radial, TREE_HEIGHT, TREE_RADIUS, JITTER_BOUND in *.
  cbn [vx vy vz].
  set (t := INR i / INR FOLIAGE_COUNT) in *.
  split; [lra|].
  destruct (Rlt_dec _ 0) as [Hneg|Hpos]; rewrite on_circle; lra.
Qed.


Lemma ornament_tree_point_bounds (count i : nat) (u1 : R) :
  (i < count)%nat ->
  - (TREE_HEIGHT / 2) <= vy (ornament_tree_point count i u1) < TREE_HEIGHT / 2
  /\ radial (ornament_tree_point count i u1) =
     (1 - INR i / INR count) * (TREE_RADIUS + ORNAMENT_OFFSET).
Proof.
  intros Hi. pose proof (ratio_below_one i count Hi) as Ht.
  unfold ornament_tree_point, radial, TREE_HEIGHT, TREE_RADIUS, ORNAMENT_OFFSET in *.
  cbn [vx vy vz].
  set (t := INR i / INR count) in *.
  split; [lra|].
  rewrite on_circle; [lra|]. nra.
Qed.

Lemma sqrt_675 : sqrt 675 = 15 * sqrt 3.
Proof.
  replace 675 with (15 * 15 * 3) by lra.
  rewrite sqrt_mult by lra. rewrite sqrt_sq_nonneg by lra. reflexivity.
Qed.

Lemma ornament_scatter_point_bounds (u2 u3 u4 : R) :
  0 <= u2 < 1 -> 0 <= u3 < 1 -> 0 <= u4 < 1 ->
  in_cube (ornament_scatter_point u2 u3 u4)
  /\ norm3 (ornament_scatter_point u2 u3 u4) <= ORNAMENT_HALF_SPREAD * sqrt 3.
Proof.
  intros H2 H3 H4.
  unfold in_cube, norm3, ornament_scatter_point, ORNAMENT_HALF_SPREAD.
  cbn [vx vy vz].
  split; [lra|].
  rewrite <- sqrt_675. apply sqrt_le_1_alt. nra.
Qed.

(** *** The foliage loop *)

Lemma f32_set_length a k v : f32_length (f32_set a k v) = f32_length a.
Proof. unfold f32_set. destruct (k <? f32_length a)%nat; reflexivity. Qed.

Lemma f32_set_same a k v :
  (k < f32_length a)%nat -> f32_at (f32_set a k v) k = v.
Proof.
  intros H. unfold f32_set. apply Nat.ltb_lt in H. rewrite H. simpl.
  rewrite Nat.eqb_refl. reflexivity.
Qed.

Lemma f32_set_other a k v j :
  j <> k -> f32_at (f32_set a k v) j = f32_at a j.
Proof.
  intros H. unfold f32_set. destruct (k <? f32_length a)%nat; [|reflexivity].
  simpl. apply Nat.eqb_neq in H. rewrite H. reflexivity.
Qed.

Lemma write3_length a i v : f32_length (write3 a i v) = f32_length a.
Proof. unfold write3. rewrite !f32_set_length. reflexivity. Qed.

Lemma point_at_write3_same a i v :
  (i * 3 + 2 < f32_length a)%nat -> point_at (write3 a i v) i = v.
Proof.
  intros H. unfold point_at, write3. destruct v as [x y z]. cbn [vx vy vz].
  f_equal.
  - rewrite !f32_set_other by lia. apply f32_set_same. lia.
  - rewrite f32_set_other by lia. apply f32_set_same. rewrite f32_set_length. lia.
  - apply f32_set_same. rewrite !f32_set_length. lia.
Qed.

Lemma point_at_write3_other a i v j :
  j <> i -> point_at (write3 a i v) j = point_at a j.
Proof.
  intros H. unfold point_at, write3. f_equal; rewrite !f32_set_other by lia; reflexivity.
Qed.

Lemma foliage_body_eq (rnd : nat -> number) (i : nat) (a : FoliageAttributes) (s : Store) :
  foliage_body rnd i a s =
  ({| f_scatterPos :=
        write3 (f_scatterPos a) i
          (foliage_scatter_point (rnd (1 + randomCalls s)%nat) (rnd (2 + randomCalls s)%nat)
                                 (rnd (3 + randomCalls s)%nat));
      f_treePos := write3 (f_treePos a) i (foliage_tree_point i (rnd (randomCalls s)));
      f_randoms := f32_set (f_randoms a) i (rnd (4 + randomCalls s)%nat);
      f_sizes := f32_set (f_sizes a) i (rnd (5 + randomCalls s)%nat * 0.6 + 0.4) |},
   {| randomCalls := 6 + randomCalls s; vectors := vectors s |}).
Proof. reflexivity. Qed.

Lemma foliage_loop (rnd : nat -> number) (a0 : FoliageAttributes) (s0 : Store) (n : nat) :
  f32_length (f_scatterPos a0) = (FOLIAGE_COUNT * 3)%nat ->
  f32_length (f_treePos a0) = (FOLIAGE_COUNT * 3)%nat ->
  (n <= FOLIAGE_COUNT)%nat ->
  foliage_done rnd (randomCalls s0) n (fst (for_upto n (foliage_body rnd) a0 s0))
  /\ randomCalls (snd (for_upto n (foliage_body rnd) a0 s0)) = (randomCalls s0 + 6 * n)%nat
  /\ vectors (snd (for_upto n (foliage_body rnd) a0 s0)) = vectors s0.
Proof.
  intros Hs Ht. induction n as [|n IH]; intros Hn.
  - simpl. repeat split; auto; try lia. 
  - destruct IH as ((Hls & Hlt & Hpts) & Hc & Hv); [lia|].
    cbn [for_upto]. unfold bind.
    destruct (for_upto n (foliage_body rnd) a0 s0) as [a s] eqn:E.
    cbn [fst snd] in *. rewrite foliage_body_eq. cbn [fst snd randomCalls vectors].
    split; [|split; [lia|assumption]].
    unfold foliage_done. cbn [f_scatterPos f_treePos].
    rewrite !write3_length. split; [assumption|]. split; [assumption|].
    intros i Hi. destruct (Nat.eq_dec i n) as [->|Hne].
    + rewrite !point_at_write3_same by lia. rewrite Hc.
      split; [reflexivity|]. f_equal; f_equal; lia.
    + rewrite !point_at_write3_other by assumption. apply Hpts. lia.
Qed.

Lemma foliage_generated (rnd : nat -> number) (s0 : Store) :
  foliage_done rnd (randomCalls s0) FOLIAGE_COUNT (fst (generateFoliageAttributes rnd s0))
  /\ randomCalls (snd (generateFoliageAttributes rnd s0)) =
     (randomCalls s0 + 6 * FOLIAGE_COUNT)%nat
  /\ vectors (snd (generateFoliageAttributes rnd s0)) = vectors s0.
Proof.
  unfold generateFoliageAttributes. apply foliage_loop.
  - reflexivity.
  - reflexivity.
  - apply Nat.le_refl.
Qed.

(** *** The ornament loop *)

Lemma nth_error_snoc {A} (l : list A) (v : A) : nth_error (l ++ [v]) (length l) = Some v.
Proof. rewrite nth_error_app2, Nat.sub_diag by apply Nat.le_refl. reflexivity. Qed.

Lemma list_set_snoc {A} (l : list A) (v w : A) : list_set (l ++ [v]) (length l) w = l ++ [w].
Proof. induction l as [|h t IH]; simpl; [reflexivity|]. rewrite IH. reflexivity. Qed.

Lemma ornament_body_eq (rnd : nat -> number) (count i c0 h0 : nat)
    (l : list OrnamentData) (s : Store) :
  randomCalls s = (c0 + 8 * i)%nat ->
  length (vectors s) = (h0 + 3 * i)%nat ->
  ornament_body rnd count i l s =
  (l ++ [ornament_at rnd c0 h0 i],
   {| randomCalls := 8 + (c0 + 8 * i);
      vectors := vectors s ++ ornament_vectors rnd count c0 i |}).
Proof.
  destruct s as [c vs]. cbn [randomCalls vectors]. intros -> Hh.
  cbv beta iota zeta delta [ornament_body bind ret Math_random new_Vector3
    multiplyScalar update_vector deref randomCalls vectors].
  rewrite nth_error_snoc.
  cbv beta iota zeta delta [randomCalls vectors vx vy vz].
  rewrite list_set_snoc, !last_length, Hh, <- !app_assoc.
  reflexivity.
Qed.

Lemma ornament_vectors_length (rnd : nat -> number) (count c0 : nat) (l : list nat) :
  length (flat_map (ornament_vectors rnd count c0) l) = (3 * length l)%nat.
Proof.
  induction l as [|i l IH]; [reflexivity|].
  cbn [flat_map]. rewrite length_app, IH. cbn [ornament_vectors length]. lia.
Qed.

Lemma ornament_loop (rnd : nat -> number) (count : nat) (s0 : Store) (n : nat) :
  for_upto n (ornament_body rnd count) [] s0 =
  (map (ornament_at rnd (randomCalls s0) (length (vectors s0))) (seq 0 n),
   {| randomCalls := randomCalls s0 + 8 * n;
      vectors := vectors s0 ++
                 flat_map (ornament_vectors rnd count (randomCalls s0)) (seq 0 n) |}).
Proof.
  induction n as [|n IH].
  - cbn [for_upto seq map flat_map]. unfold ret. rewrite app_nil_r.
    destruct s0 as [c vs]. cbn [randomCalls vectors]. do 2 f_equal. lia.
  - cbn [for_upto]. unfold bind. rewrite IH.
    rewrite (ornament_body_eq rnd count n (randomCalls s0) (length (vectors s0))).
    + rewrite seq_S, map_app, flat_map_app. cbn [map flat_map Nat.add randomCalls vectors].
      rewrite app_nil_r, <- app_assoc. do 2 f_equal. lia.
    + reflexivity.
    + cbn [vectors]. rewrite length_app, ornament_vectors_length, length_seq. reflexivity.
Qed.

Lemma generateOrnaments_eq (rnd : nat -> number) (count : nat) (s0 : Store) :
  generateOrnaments rnd count s0 =
  (map (ornament_at rnd (randomCalls s0) (length (vectors s0))) (seq 0 count),
   {| randomCalls := randomCalls s0 + 8 * count;
      vectors := vectors s0 ++
                 flat_map (ornament_vectors rnd count (randomCalls s0)) (seq 0 count) |}).
Proof. apply ornament_loop. Qed.

Lemma ornament_vectors_lookup (rnd : nat -> number) (count c0 n i j : nat) :
  (i < n)%nat -> (j < 3)%nat ->
  nth_error (flat_map (ornament_vectors rnd count c0) (seq 0 n)) (j + 3 * i) =
  nth_error (ornament_vectors rnd count c0 i) j.
Proof.
  intros Hi Hj. induction n as [|n IH]; [lia|].
  rewrite seq_S, flat_map_app. cbn [Nat.add flat_map]. rewrite app_nil_r.
  destruct (Nat.eq_dec i n) as [->|Hne].
  - rewrite nth_error_app2; rewrite ornament_vectors_length, length_seq; [|lia].
    f_equal. lia.
  - rewrite nth_error_app1; [apply IH; lia|].
    rewrite ornament_vectors_length, length_seq. lia.
Qed.

(** *** The mounted session *)

Lemma mount_ornaments (rnd : nat -> number) (b : bool) :
  ornaments (mount rnd b) = map (ornament_at rnd 0 0) (seq 0 180).
Proof.
  unfold mount, mount_resources, bind. rewrite generateOrnaments_eq.
  destruct (generateFoliageAttributes rnd _) as [fol s2].
  reflexivity.
Qed.

Lemma mount_shape (rnd : nat -> number) (b : bool) :
  let m := mount rnd b in
  foliage m = fst (generateFoliageAttributes rnd (store_after_ornaments rnd))
  /\ vectors (store m) =
     flat_map (ornament_vectors rnd 180 0) (seq 0 180)
     ++ [zero3; one3; zero3; one3; zero3; one3]
  /\ cubes m = of_type CUBE (ornaments m)
  /\ spheres m = of_type SPHERE (ornaments m)
  /\ diamonds m = of_type DIAMOND (ornaments m)
  /\ (position (dummy (cubeLayer m)) = 540 /\ scale3 (dummy (cubeLayer m)) = 541)%nat
  /\ (position (dummy (sphereLayer m)) = 542 /\ scale3 (dummy (sphereLayer m)) = 543)%nat
  /\ (position (dummy (diamondLayer m)) = 544 /\ scale3 (dummy (diamondLayer m)) = 545)%nat.
Proof.
  unfold mount, mount_resources, bind. rewrite generateOrnaments_eq.
  change (randomCalls empty_store) with 0%nat.
  change (vectors empty_store) with (@nil Vector3).
  fold (store_after_ornaments rnd).
  pose proof (foliage_generated rnd (store_after_ornaments rnd)) as (_ & _ & Hv).
  destruct (generateFoliageAttributes rnd (store_after_ornaments rnd)) as [fol [c2 v2]].
  cbn [fst snd vectors] in Hv. subst v2.
  cbv beta iota zeta delta [new_layer new_Object3D bind ret fst snd store foliage
    cubes spheres diamonds ornaments cubeLayer sphereLayer diamondLayer dummy
    position scale3 randomCalls vectors store_after_ornaments].
  rewrite !length_app, ornament_vectors_length, length_seq. cbn [length app].
  rewrite <- !app_assoc. cbn [app].
  repeat split; reflexivity.
Qed.

Lemma mount_deref_ornament (rnd : nat -> number) (b : bool) (i j : nat) :
  (i < 180)%nat -> (j < 3)%nat ->
  deref (store (mount rnd b)) (j + 3 * i)%nat = nth_error (ornament_vectors rnd 180 0 i) j.
Proof.
  intros Hi Hj. destruct (mount_shape rnd b) as (_ & Hv & _).
  unfold deref. rewrite Hv, nth_error_app1.
  - apply ornament_vectors_lookup; assumption.
  - rewrite ornament_vectors_length, length_seq. lia.
Qed.

Lemma mount_ornament_inv (rnd : nat -> number) (b : bool) (o : OrnamentData) :
  In o (ornaments (mount rnd b)) ->
  exists i, (i < 180)%nat /\ o = ornament_at rnd 0 0 i.
Proof.
  rewrite mount_ornaments. intros H. apply in_map_iff in H as (i & <- & Hi).
  apply in_seq in Hi. exists i. split; [lia|reflexivity].
Qed.

Lemma mount_foliage_done (rnd : nat -> number) (b : bool) :
  foliage_done rnd (8 * 180) FOLIAGE_COUNT (foliage (mount rnd b)).
Proof.
  destruct (mount_shape rnd b) as (-> & _).
  exact (proj1 (foliage_generated rnd (store_after_ornaments rnd))).
Qed.

(** C1, as the code has it: with every random draw in [0,1), each of the
    6000 foliage particles is scattered inside the shell [25,45], and each
    of the 180 ornaments is scattered inside the cube of half side 15
    around the origin, so at most 15 * sqrt 3 from it. *)
Theorem scatter_positions_bounded (rnd : nat -> number) (b : bool) :
  unit_interval rnd ->
  let m := mount rnd b in
  f32_length (f_scatterPos (foliage m)) = (FOLIAGE_COUNT * 3)%nat
  /\ (forall i, (i < FOLIAGE_COUNT)%nat ->
        in_shell (point_at (f_scatterPos (foliage m)) i))
  /\ length (ornaments m) = 180%nat
  /\ (forall o, In o (ornaments m) ->
        exists v, deref (store m) (scatterPos o) = Some v
                  /\ in_cube v
                  /\ norm3 v <= ORNAMENT_HALF_SPREAD * sqrt 3).
Proof.
  intros Hrnd m. subst m.
  destruct (mount_foliage_done rnd b) as (Hlen & _ & Hpts).
  split; [exact Hlen|]. split; [|split].
  - intros i Hi. destruct (Hpts i Hi) as (_ & ->).
    unfold in_shell, SCATTER_MIN, SCATTER_MAX.
    rewrite foliage_scatter_point_norm by apply Hrnd.
    pose proof (Hrnd (8 * 180 + 6 * i + 1)%nat). lra.
  - rewrite mount_ornaments, length_map, length_seq. reflexivity.
  - intros o Ho. apply mount_ornament_inv in Ho as (i & Hi & ->).
    eexists. split.
    + exact (mount_deref_ornament rnd b i 1 Hi ltac:(lia)).
    + apply ornament_scatter_point_bounds; apply Hrnd.
Qed.

Lemma unit_interval_always_half : unit_interval (always 0.5).
Proof. intros k. unfold always. lra. Qed.

Lemma scatter_positions_bounded_witness :
  let m := mount (always 0.5) false in
  f32_length (f_scatterPos (foliage m)) = (FOLIAGE_COUNT * 3)%nat
  /\ (forall i, (i < FOLIAGE_COUNT)%nat ->
        in_shell (point_at (f_scatterPos (foliage m)) i))
  /\ length (ornaments m) = 180%nat
  /\ (forall o, In o (ornaments m) ->
        exists v, deref (store m) (scatterPos o) = Some v
                  /\ in_cube v
                  /\ norm3 v <= ORNAMENT_HALF_SPREAD * sqrt 3).
Proof.
  apply (scatter_positions_bounded (always 0.5) false).
  intros k. unfold always. lra.
Defined.

(** C1 as stated fails for the ornaments: when every draw is 0.5 the first
    ornament is scattered at the origin, at distance 0, below the shell. *)
Lemma ornament_scatter_outside_shell :
  let m := mount (always 0.5) false in
  unit_interval (always 0.5)
  /\ exists o v,
       In o (ornaments m)
       /\ deref (store m) (scatterPos o) = Some v
       /\ norm3 v = 0
       /\ ~ in_shell v.
Proof.
  intros m. split; [exact unit_interval_always_half|].
  exists (ornament_at (always 0.5) 0 0 0), (ornament_scatter_point 0.5 0.5 0.5).
  assert (Hn : norm3 (ornament_scatter_point 0.5 0.5 0.5) = 0).
  { unfold norm3, ornament_scatter_point. cbn [vx vy vz].
    replace ((0.5 - 0.5) * 30 * ((0.5 - 0.5) * 30) + (0.5 - 0.5) * 30 * ((0.5 - 0.5) * 30)
             + (0.5 - 0.5) * 30 * ((0.5 - 0.5) * 30)) with 0 by lra.
    apply sqrt_0. }
  split; [|split; [|split]].
  - unfold m. rewrite mount_ornaments.
    apply (in_map (ornament_at (always 0.5) 0 0) (seq 0 180) 0%nat).
    apply in_seq. lia.
  - exact (mount_deref_ornament (always 0.5) false 0 1 ltac:(lia) ltac:(lia)).
  - exact Hn.
  - unfold in_shell, SCATTER_MIN. rewrite Hn. lra.
Qed.

(** C4, as the code has it: with every random draw in [0,1), each formed
    position has its height within [-H/2, H/2]; the foliage particles are
    within [TREE_RADIUS] plus the jitter bound 0.15 of the axis, the
    ornaments within [TREE_RADIUS] plus their offset 0.2. *)
Theorem formed_positions_bounded (rnd : nat -> number) (b : bool) :
  unit_interval rnd ->
  let m := mount rnd b in
  f32_length (f_treePos (foliage m)) = (FOLIAGE_COUNT * 3)%nat
  /\ (forall i, (i < FOLIAGE_COUNT)%nat ->
        let v := point_at (f_treePos (foliage m)) i in
        - (TREE_HEIGHT / 2) <= vy v <= TREE_HEIGHT / 2
        /\ radial v <= TREE_RADIUS + JITTER_BOUND)
  /\ length (ornaments m) = 180%nat
  /\ (forall o, In o (ornaments m) ->
        exists v, deref (store m) (treePos o) = Some v
                  /\ - (TREE_HEIGHT / 2) <= vy v <= TREE_HEIGHT / 2
                  /\ radial v <= TREE_RADIUS + ORNAMENT_OFFSET).
Proof.
  intros Hrnd m. subst m.
  destruct (mount_foliage_done rnd b) as (_ & Hlen & Hpts).
  split; [exact Hlen|]. split; [|split].
  - intros i Hi v. subst v. destruct (Hpts i Hi) as (-> & _).
    pose proof (foliage_tree_point_bounds i (rnd (8 * 180 + 6 * i)%nat) Hi (Hrnd _)) as [Hy Hr].
    split; lra.
  - rewrite mount_ornaments, length_map, length_seq. reflexivity.
  - intros o Ho. apply mount_ornament_inv in Ho as (i & Hi & ->).
    eexists. split.
    + exact (mount_deref_ornament rnd b i 0 Hi ltac:(lia)).
    + pose proof (ornament_tree_point_bounds 180 i (rnd (0 + 8 * i)%nat) Hi) as [Hy Hr].
      split; [lra|]. rewrite Hr.
      pose proof (ratio_below_one i 180 Hi) as Ht.
      unfold TREE_RADIUS, ORNAMENT_OFFSET. nra.
Qed.

Lemma formed_positions_bounded_witness :
  let m := mount (always 0.5) true in
  f32_length (f_treePos (foliage m)) = (FOLIAGE_COUNT * 3)%nat
  /\ (forall i, (i < FOLIAGE_COUNT)%nat ->
        let v := point_at (f_treePos (foliage m)) i in
        - (TREE_HEIGHT / 2) <= vy v <= TREE_HEIGHT / 2
        /\ radial v <= TREE_RADIUS + JITTER_BOUND)
  /\ length (ornaments m) = 180%nat
  /\ (forall o, In o (ornaments m) ->
        exists v, deref (store m) (treePos o) = Some v
                  /\ - (TREE_HEIGHT / 2) <= vy v <= TREE_HEIGHT / 2
                  /\ radial v <= TREE_RADIUS + ORNAMENT_OFFSET).
Proof.
  apply (formed_positions_bounded (always 0.5) true).
  intros k. unfold always. lra.
Defined.

(** C4 as stated fails for the ornaments: whatever is drawn, the first
    ornament sits at the foot of the tree at distance 5.7 from the axis,
    beyond [TREE_RADIUS] plus the jitter bound, 5.65. *)
Lemma ornament_formed_beyond_jitter :
  let m := mount (always 0.5) false in
  unit_interval (always 0.5)
  /\ exists o v,
       In o (ornaments m)
       /\ deref (store m) (treePos o) = Some v
       /\ radial v = 5.7
       /\ ~ (radial v <= TREE_RADIUS + JITTER_BOUND).
Proof.
  intros m. split; [exact unit_interval_always_half|].
  exists (ornament_at (always 0.5) 0 0 0), (ornament_tree_point 180 0 0.5).
  assert (Hr : radial (ornament_tree_point 180 0 0.5) = 5.7).
  { rewrite (proj2 (ornament_tree_point_bounds 180 0 0.5 ltac:(lia))).
    unfold TREE_RADIUS, ORNAMENT_OFFSET. cbn [INR]. lra. }
  split; [|split; [|split]].
  - unfold m. rewrite mount_ornaments.
    apply (in_map (ornament_at (always 0.5) 0 0) (seq 0 180) 0%nat).
    apply in_seq. lia.
  - exact (mount_deref_ornament (always 0.5) false 0 0 ltac:(lia) ltac:(lia)).
  - exact Hr.
  - rewrite Hr. unfold TREE_RADIUS, JITTER_BOUND. lra.
Qed.

(** ** Frame effects on the generated data *)

Lemma untouched_refl base s : untouched base s s.
Proof. split; [apply Nat.le_refl|]. intros q _. reflexivity. Qed.

Lemma untouched_trans base s1 s2 s3 :
  untouched base s1 s2 -> untouched base s2 s3 -> untouched base s1 s3.
Proof.
  intros [L1 A1] [L2 A2]. split; [lia|].
  intros q Hq. rewrite A2, A1 by assumption. reflexivity.
Qed.

Lemma list_set_length {A} (l : list A) (k : nat) (v : A) :
  length (list_set l k v) = length l.
Proof.
  revert k. induction l as [|h t IH]; intros [|k]; simpl; auto.
Qed.

Lemma list_set_other {A} (l : list A) (k q : nat) (v : A) :
  q <> k -> nth_error (list_set l k v) q = nth_error l q.
Proof.
  revert k q. induction l as [|h t IH]; intros [|k] [|q] H; simpl; auto;
    congruence.
Qed.

Lemma safe_ret {A} base (a : A) (Q : A -> Prop) : Q a -> safe base (ret a) Q.
Proof. intros H s _. split; [apply untouched_refl|exact H]. Qed.

Lemma safe_bind {A B} base (m : M A) (f : A -> M B) (Q : A -> Prop) (R : B -> Prop) :
  safe base m Q -> (forall a, Q a -> safe base (f a) R) -> safe base (bind m f) R.
Proof.
  intros Hm Hf s Hs. unfold bind.
  destruct (Hm s Hs) as [Hu Hq]. destruct (m s) as [a s1]. cbn [fst snd] in *.
  destruct (Hf a Hq s1) as [Hu' Hr]; [destruct Hu; lia|].
  split; [eapply untouched_trans; eassumption|exact Hr].
Qed.

Lemma safe_weaken {A} base (m : M A) (Q R : A -> Prop) :
  safe base m Q -> (forall a, Q a -> R a) -> safe base m R.
Proof. intros Hm H s Hs. destruct (Hm s Hs). split; auto. Qed.

Lemma safe_new_Vector3 base x y z :
  safe base (new_Vector3 x y z) (fun p => (base <= p)%nat).
Proof.
  intros s Hs. unfold new_Vector3. cbn [fst snd]. split; [|exact Hs].
  split; cbn [vectors].
  - rewrite length_app. lia.
  - intros q Hq. unfold deref. cbn [vectors]. apply nth_error_app1. lia.
Qed.

Lemma safe_update_vector base p f :
  (base <= p)%nat -> safe base (update_vector p f) (fun _ => True).
Proof.
  intros Hp s Hs. unfold update_vector. cbn [fst snd]. split; [|exact I].
  destruct (deref s p) as [v|]; [|apply untouched_refl].
  split; cbn [vectors].
  - rewrite list_set_length. apply Nat.le_refl.
  - intros q Hq. unfold deref. cbn [vectors]. apply list_set_other. lia.
Qed.

Lemma safe_read base p : safe base (read p) (fun _ => True).
Proof. intros s _. split; [apply untouched_refl|exact I]. Qed.

Lemma safe_lerpVectors base out v1 v2 alpha :
  (base <= out)%nat -> safe base (lerpVectors out v1 v2 alpha) (fun p => p = out).
Proof.
  intros Ho. unfold lerpVectors.
  eapply safe_bind; [apply safe_read|]. intros a _.
  eapply safe_bind; [apply safe_read|]. intros c _.
  eapply safe_bind; [apply safe_update_vector, Ho|]. intros _ _.
  apply safe_ret. reflexivity.
Qed.

Lemma safe_copy base out v : (base <= out)%nat -> safe base (copy out v) (fun _ => True).
Proof.
  intros Ho. unfold copy.
  eapply safe_bind; [apply safe_read|]. intros a _.
  apply safe_update_vector, Ho.
Qed.

Lemma safe_setScalar base out k :
  (base <= out)%nat -> safe base (setScalar out k) (fun _ => True).
Proof. intros Ho. apply safe_update_vector, Ho. Qed.

Lemma safe_ornament_item base time progress item i d mesh :
  dummy_above base d ->
  safe base (ornament_item time progress item i (d, mesh))
       (fun st => dummy_above base (fst st)).
Proof.
  intros [Hp Hs]. unfold ornament_item.
  eapply safe_bind; [apply safe_new_Vector3|]. intros fresh Hfresh.
  eapply safe_bind; [apply safe_lerpVectors, Hfresh|]. intros currentPos ->.
  eapply safe_bind; [apply safe_update_vector, Hfresh|]. intros _ _.
  eapply safe_bind; [apply safe_update_vector, Hfresh|]. intros _ _.
  eapply safe_bind; [apply safe_copy, Hp|]. intros _ _.
  eapply safe_bind; [apply safe_setScalar, Hs|]. intros _ _.
  eapply safe_bind; [apply safe_read|]. intros speed _.
  eapply safe_bind; [apply safe_read|]. intros pos _.
  eapply safe_bind; [apply safe_read|]. intros sc _.
  apply safe_ret. split; assumption.
Qed.

Lemma safe_forEach_from base time progress data i st :
  dummy_above base (fst st) ->
  safe base (forEach_from time progress data i st)
       (fun st' => dummy_above base (fst st')).
Proof.
  revert i st. induction data as [|item rest IH]; intros i [d mesh] Hd; cbn [forEach_from].
  - apply safe_ret. exact Hd.
  - eapply safe_bind; [apply safe_ornament_item, Hd|].
    intros st' Hst'. apply IH, Hst'.
Qed.

Lemma safe_OrnamentLayer_useFrame base progress data time l :
  dummy_above base (dummy l) ->
  safe base (OrnamentLayer_useFrame progress data time l)
       (fun l' => dummy_above base (dummy l')).
Proof.
  intros Hd. unfold OrnamentLayer_useFrame.
  destruct (meshRef l) as [mesh|].
  - eapply safe_bind; [apply (safe_forEach_from base time progress data 0 (dummy l, mesh)), Hd|].
    intros st Hst. apply safe_ret. exact Hst.
  - apply safe_ret. exact Hd.
Qed.

Lemma run_frame_kept (m0 ss : Session) (time delta : number) :
  (ORNAMENT_OBJECTS <= length (vectors (store m0)))%nat ->
  session_kept m0 ss -> session_kept m0 (run_frame time delta ss).
Proof.
  intros Hlen (Ho & Hc & Hs & Hd & Hf & Hu & Dc & Ds & Dd).
  assert (H0 : (ORNAMENT_OBJECTS <= length (vectors (store ss)))%nat)
    by (destruct Hu; lia).
  unfold run_frame.
  destruct (safe_OrnamentLayer_useFrame ORNAMENT_OBJECTS (progressProp ss) (cubes ss)
              time (cubeLayer ss) Dc (store ss) H0) as [U1 D1].
  destruct (OrnamentLayer_useFrame (progressProp ss) (cubes ss) time (cubeLayer ss) (store ss))
    as [lc s1]. cbn [fst snd] in U1, D1.
  assert (H1 : (ORNAMENT_OBJECTS <= length (vectors s1))%nat) by (destruct U1; lia).
  destruct (safe_OrnamentLayer_useFrame ORNAMENT_OBJECTS (progressProp ss) (spheres ss)
              time (sphereLayer ss) Ds s1 H1) as [U2 D2].
  destruct (OrnamentLayer_useFrame (progressProp ss) (spheres ss) time (sphereLayer ss) s1)
    as [ls s2]. cbn [fst snd] in U2, D2.
  assert (H2 : (ORNAMENT_OBJECTS <= length (vectors s2))%nat) by (destruct U2; lia).
  destruct (safe_OrnamentLayer_useFrame ORNAMENT_OBJECTS (progressProp ss) (diamonds ss)
              time (diamondLayer ss) Dd s2 H2) as [U3 D3].
  destruct (OrnamentLayer_useFrame (progressProp ss) (diamonds ss) time (diamondLayer ss) s2)
    as [ld s3]. cbn [fst snd] in U3, D3.
  unfold session_kept. cbn [ornaments cubes spheres diamonds foliage store
    cubeLayer sphereLayer diamondLayer].
  repeat (split; [assumption|]). split; [|tauto].
  eapply untouched_trans; [exact Hu|].
  eapply untouched_trans; [exact U1|].
  eapply untouched_trans; [exact U2|exact U3].
Qed.

Lemma step_kept (m0 ss : Session) (e : Event) :
  (ORNAMENT_OBJECTS <= length (vectors (store m0)))%nat ->
  session_kept m0 ss -> session_kept m0 (step ss e).
Proof.
  intros Hlen Hk. destruct e as [time delta|formed0]; cbn [step].
  - apply run_frame_kept; assumption.
  - exact Hk.
Qed.

Lemma run_kept (m0 ss : Session) (es : list Event) :
  (ORNAMENT_OBJECTS <= length (vectors (store m0)))%nat ->
  session_kept m0 ss -> session_kept m0 (run ss es).
Proof.
  intros Hlen. revert ss. unfold run.
  induction es as [|e es IH]; intros ss Hk; cbn [fold_left]; [exact Hk|].
  apply IH, step_kept; assumption.
Qed.

Lemma mount_kept (rnd : nat -> number) (b : bool) :
  (ORNAMENT_OBJECTS <= length (vectors (store (mount rnd b))))%nat
  /\ session_kept (mount rnd b) (mount rnd b).
Proof.
  destruct (mount_shape rnd b) as (_ & Hv & _ & _ & _ & (Pc & Sc) & (Ps & Ss) & (Pd & Sd)).
  split.
  - rewrite Hv, length_app, ornament_vectors_length, length_seq.
    unfold ORNAMENT_OBJECTS. lia.
  - unfold session_kept, dummy_above, ORNAMENT_OBJECTS.
    rewrite Pc, Sc, Ps, Ss, Pd, Sd.
    repeat (split; [reflexivity|]). split; [apply untouched_refl|].
    cbn [Nat.mul Nat.add]. lia.
Qed.

Lemma refs_of_ornaments (rnd : nat -> number) (c0 h0 n : nat) :
  flat_map refs_of (map (ornament_at rnd c0 h0) (seq 0 n)) = seq h0 (3 * n).
Proof.
  induction n as [|n IH]; [reflexivity|].
  rewrite seq_S, map_app, flat_map_app, IH.
  replace (3 * S n)%nat with (3 * n + 3)%nat by lia.
  rewrite seq_app. f_equal.
Qed.

(** C9: each ornament holds its own scattered and formed position (and
    rotation speed), objects allocated when the component mounts, and each
    particle one triple of each array; whatever frames and re-renders
    follow, the lists of ornaments with their scale, shape tag and phase,
    the foliage arrays, and the objects the ornaments refer to are the ones
    of the mount. *)
Theorem generated_data_never_mutated (rnd : nat -> number) (b : bool) (es : list Event) :
  let m0 := mount rnd b in
  let m := run m0 es in
  (length (ornaments m0) = 180%nat
   /\ NoDup (flat_map refs_of (ornaments m0))
   /\ (forall o p, In o (ornaments m0) -> In p (refs_of o) ->
         exists v, deref (store m0) p = Some v)
   /\ f32_length (f_scatterPos (foliage m0)) = (FOLIAGE_COUNT * 3)%nat
   /\ f32_length (f_treePos (foliage m0)) = (FOLIAGE_COUNT * 3)%nat)
  /\ (ornaments m = ornaments m0
      /\ cubes m = cubes m0 /\ spheres m = spheres m0 /\ diamonds m = diamonds m0
      /\ foliage m = foliage m0
      /\ (forall o p, In o (ornaments m0) -> In p (refs_of o) ->
            deref (store m) p = deref (store m0) p)).
Proof.
  intros m0 m. subst m m0.
  assert (Hrefs : forall o p, In o (ornaments (mount rnd b)) -> In p (refs_of o) ->
                    (p < ORNAMENT_OBJECTS)%nat).
  { intros o p Ho Hp.
    assert (Hin : In p (flat_map refs_of (ornaments (mount rnd b))))
      by (apply (proj2 (in_flat_map refs_of (ornaments (mount rnd b)) p));
          exists o; split; assumption).
    rewrite mount_ornaments, refs_of_ornaments in Hin. apply in_seq in Hin.
    unfold ORNAMENT_OBJECTS. lia. }
  destruct (mount_kept rnd b) as [Hlen Hk0].
  split.
  - split; [|split; [|split]].
    + rewrite mount_ornaments, length_map, length_seq. reflexivity.
    + rewrite mount_ornaments, refs_of_ornaments. apply seq_NoDup.
    + intros o p Ho Hp. specialize (Hrefs o p Ho Hp).
      destruct (deref (store (mount rnd b)) p) as [v|] eqn:E; [exists v; reflexivity|].
      unfold deref in E. apply nth_error_None in E. lia.
    + destruct (mount_foliage_done rnd b) as (Hs & Ht & _). split; assumption.
  - destruct (run_kept (mount rnd b) (mount rnd b) es Hlen Hk0)
      as (Ho & Hc & Hs & Hd & Hf & [_ Hu] & _).
    repeat (split; [assumption|]).
    intros o p Hin Hp. apply Hu. exact (Hrefs o p Hin Hp).
Qed.

(** ** More on the wish service *)

Lemma trimStart_first (s : string) (c : ascii) :
  first_char (trimStart s) = Some c -> is_whitespace c = false.
Proof.
  induction s as [|a r IH]; simpl; [discriminate|].
  destruct (is_whitespace a) eqn:Ea; [exact IH|].
  simpl. intros H. injection H as <-. exact Ea.
Qed.

Lemma trimEnd_first (s : string) (c : ascii) :
  first_char (trimEnd s) = Some c -> first_char s = Some c.
Proof.
  destruct s as [|a r]; simpl; [discriminate|].
  destruct (trimEnd r); [destruct (is_whitespace a)|]; simpl; congruence.
Qed.

Lemma trimEnd_last (s : string) (c : ascii) :
  last_char (trimEnd s) = Some c -> is_whitespace c = false.
Proof.
  induction s as [|a r IH]; simpl; [discriminate|].
  destruct (trimEnd r) as [|b r'] eqn:Er.
  - destruct (is_whitespace a) eqn:Ea; simpl; [discriminate|].
    intros H. injection H as <-. exact Ea.
  - simpl. exact IH.
Qed.

Lemma trim_clean_edges (s : string) : clean_edges (trim s).
Proof.
  unfold trim. split; intros c H.
  - apply trimEnd_first in H. eapply trimStart_first; eassumption.
  - eapply trimEnd_last; eassumption.
Qed.

Lemma all_whitespace_trimStart (s : string) :
  all_whitespace (trimStart s) = all_whitespace s.
Proof.
  induction s as [|a r IH]; simpl; [reflexivity|].
  destruct (is_whitespace a) eqn:Ea; simpl; [exact IH|].
  rewrite Ea. reflexivity.
Qed.

Lemma truthy_trimEnd (s : string) : truthy (trimEnd s) = negb (all_whitespace s).
Proof.
  induction s as [|a r IH]; simpl; [reflexivity|].
  destruct (trimEnd r) as [|b r'] eqn:Er; simpl in *.
  - destruct (all_whitespace r); [|discriminate].
    destruct (is_whitespace a); reflexivity.
  - destruct (all_whitespace r); [discriminate|].
    rewrite andb_false_r. reflexivity.
Qed.

Lemma truthy_trim (s : string) : truthy (trim s) = negb (all_whitespace s).
Proof. unfold trim. rewrite truthy_trimEnd, all_whitespace_trimStart. reflexivity. Qed.

Lemma response_wish_shape (response : GenerateContentResponse) :
  truthy (response_wish response) = true /\ clean_edges (response_wish response).
Proof.
  unfold response_wish, or_else.
  destruct (response_text response) as [t|].
  - destruct (truthy (trim t)) eqn:Et.
    + split; [exact Et|apply trim_clean_edges].
    + split; [reflexivity|]. split; intros c H; vm_compute in H; injection H as <-; reflexivity.
  - simpl. split; [reflexivity|].
    split; intros c H; vm_compute in H; injection H as <-; reflexivity.
Qed.

(** Whatever the credential, the input and the answer of the service, the
    wish returned is not empty and neither begins nor ends with white
    space. *)
Theorem generateLuxuryWish_wish_shape
    (apiKey userInput : string) (service : Service) (w : World) :
  exists wish,
    fst (complete service (generateLuxuryWish apiKey userInput w)) = Returned wish
    /\ wish <> EmptyString
    /\ clean_edges wish.
Proof.
  assert (Hlit : forall s : string, truthy s = true -> s <> EmptyString)
    by (intros s H ->; discriminate).
  destruct apiKey as [|c r].
  - eexists. split; [reflexivity|]. split; [discriminate|].
    split; intros a H; vm_compute in H; injection H as <-; reflexivity.
  - destruct (generateLuxuryWish_with_key (String c r) userInput w)
      as (k & -> & Hret & Hthrown); [discriminate|].
    simpl. destruct (service (wish_request userInput)) as [response|e].
    + rewrite Hret. eexists. split; [reflexivity|].
      destruct (response_wish_shape response) as [Ht Hc]. split; [apply Hlit, Ht|exact Hc].
    + rewrite Hthrown. eexists. split; [reflexivity|]. split; [discriminate|].
      split; intros a H; vm_compute in H; injection H as <-; reflexivity.
Qed.

(** With a credential, when the call answers, the wish is the trimmed text
    of the response, or the fixed sentence when the response has no text or
    only white space; one request has left and nothing is logged as an
    error. *)
Theorem generateLuxuryWish_call_answers
    (apiKey userInput : string) (service : Service)
    (response : GenerateContentResponse) (w : World) :
  apiKey <> EmptyString ->
  service (wish_request userInput) = Returned response ->
  complete service (generateLuxuryWish apiKey userInput w) =
    (Returned match response_text response with
              | Some t => if all_whitespace t
                          then "May your holidays be filled with golden moments."%string
                          else trim t
              | None => "May your holidays be filled with golden moments."%string
              end,
     log_append w [Outbound (wish_request userInput)]).
Proof.
  intros Hk Hs.
  destruct (generateLuxuryWish_with_key apiKey userInput w Hk) as (k & -> & Hret & _).
  simpl. rewrite Hs, Hret. simpl. f_equal. f_equal.
  unfold response_wish, or_else. destruct (response_text response) as [t|]; [|reflexivity].
  rewrite truthy_trim. destruct (all_whitespace t); reflexivity.
Qed.

Lemma generateLuxuryWish_call_answers_witness :
  complete (fun _ => Returned {| response_text := Some "  Glow  "%string |})
           (generateLuxuryWish "key"%string "Snow"%string blank_world) =
    (Returned "Glow"%string,
     log_append blank_world [Outbound (wish_request "Snow"%string)]).
Proof.
  apply (generateLuxuryWish_call_answers "key"%string "Snow"%string
           (fun _ => Returned {| response_text := Some "  Glow  "%string |})
           {| response_text := Some "  Glow  "%string |} blank_world).
  - discriminate.
  - reflexivity.
Defined.

(** ** More on the wish panel *)

Lemma formed_ignited (w : World) : formed (ignited w) = true.
Proof. unfold ignited. destruct (formed w) eqn:E; [exact E|reflexivity]. Qed.

Lemma handleGenerateWish_shape (apiKey : string) (w : World) :
  match handleGenerateWish apiKey w with
  | Finished r w' =>
      r = Returned tt
      /\ ((all_whitespace (prompt w) = true /\ w' = ignited w)
          \/ (all_whitespace (prompt w) = false /\ apiKey = EmptyString
              /\ w' = keyless_world w))
  | Suspended req w' k =>
      all_whitespace (prompt w) = false /\ apiKey <> EmptyString
      /\ req = wish_request (prompt w) /\ w' = loading_world w
      /\ submit_continuation k
  end.
Proof.
  unfold handleGenerateWish, loading_world, keyless_world, ignited.
  rewrite truthy_trim.
  destruct w as [f p ws l]. cbn [formed prompt wishState log].
  destruct f; simpl;
    (destruct (all_whitespace p); simpl; [split; [reflexivity|left; split; reflexivity]|]);
    (destruct apiKey as [|c r]; simpl;
       [split; [reflexivity|right; repeat split; reflexivity]|]);
    (split; [reflexivity|]; split; [discriminate|]; split; [reflexivity|];
     split; [reflexivity|]);
    intros [response|e] w'; reflexivity.
Qed.

Lemma complete_handleGenerateWish (apiKey : string) (service : Service) (w : World) :
  complete service (handleGenerateWish apiKey w) =
  (Returned tt,
   if all_whitespace (prompt w) then ignited w
   else if truthy apiKey
        then settled_world (service (wish_request (prompt w))) (loading_world w)
        else keyless_world w).
Proof.
  pose proof (handleGenerateWish_shape apiKey w) as H.
  destruct (handleGenerateWish apiKey w) as [r w'|req w' k]; simpl.
  - destruct H as [-> [[-> ->]|(-> & -> & ->)]]; reflexivity.
  - destruct H as (-> & Hk & -> & -> & Hcont). rewrite Hcont. simpl.
    destruct apiKey; [congruence|reflexivity].
Qed.

(** A submit sends a request exactly when there is a credential and the
    prompt has a character that is not white space; the request is built
    from the prompt as typed, not trimmed. *)
Theorem handleGenerateWish_requests (apiKey : string) (service : Service) (w : World) :
  outbound (log (snd (complete service (handleGenerateWish apiKey w)))) =
  outbound (log w) ++
  if truthy apiKey && negb (all_whitespace (prompt w))
  then [wish_request (prompt w)]
  else [].
Proof.
  rewrite complete_handleGenerateWish. cbn [snd].
  assert (Hig : outbound (log (ignited w)) = outbound (log w)).
  { unfold ignited. destruct (formed w); [reflexivity|]. cbn [log].
    rewrite outbound_app, app_nil_r. reflexivity. }
  destruct (all_whitespace (prompt w)); cbn [negb].
  - rewrite andb_false_r, app_nil_r. exact Hig.
  - rewrite andb_true_r. destruct (truthy apiKey).
    + unfold settled_world, loading_world.
      destruct (service _); cbn [log]; rewrite !outbound_app, Hig; simpl;
        rewrite ?app_nil_r; reflexivity.
    + unfold keyless_world. cbn [log]. rewrite app_nil_r. exact Hig.
Qed.

(** Every submit leaves the tree formed, and calls [onIgnite] only when the
    tree was not formed yet. *)
Theorem submit_forms_tree (apiKey : string) (p : Panel) :
  formed (world (panel_step apiKey p Submit)) = true
  /\ ignitions (log (world (panel_step apiKey p Submit))) =
     (ignitions (log (world p)) + if formed (world p) then 0 else 1)%nat.
Proof.
  cbn [panel_step].
  pose proof (handleGenerateWish_shape apiKey (world p)) as H.
  assert (Hig : ignitions (log (ignited (world p))) =
                (ignitions (log (world p)) + if formed (world p) then 0 else 1)%nat).
  { unfold ignited. destruct (formed (world p)); cbn [log].
    - lia.
    - rewrite ignitions_app. reflexivity. }
  destruct (handleGenerateWish apiKey (world p)) as [r w'|req w' k]; cbn [commit world].
  - destruct H as [_ [[_ ->]|(_ & _ & ->)]].
    + split; [apply formed_ignited|exact Hig].
    + split; [reflexivity|exact Hig].
  - destruct H as (_ & _ & _ & -> & _). split; [reflexivity|].
    unfold loading_world. cbn [log]. rewrite ignitions_app, Hig. simpl. lia.
Qed.

Lemma panel_step_wf (apiKey : string) (p : Panel) (e : UIEvent) :
  panel_wf p -> panel_wf (panel_step apiKey p e).
Proof.
  intros [Hin Hload]. destruct e as [s| | |i outcome]; cbn [panel_step].
  - split; simpl; assumption.
  - pose proof (handleGenerateWish_shape apiKey (world p)) as H.
    destruct (handleGenerateWish apiKey (world p)) as [r w'|req w' k]; cbn [commit].
    + split; cbn [world inflight]; [assumption|].
      destruct H as [_ [[_ ->]|(_ & _ & ->)]].
      * unfold ignited. destruct (formed (world p)); exact Hload.
      * simpl. discriminate.
    + destruct H as (_ & _ & _ & _ & Hk). split; cbn [world inflight].
      * apply Forall_app. split; [assumption|]. constructor; [exact Hk|constructor].
      * intros _ Hnil. apply app_eq_nil in Hnil as [_ Hnil]. discriminate.
  - split; simpl; [assumption|discriminate].
  - destruct (nth_error (inflight p) i) as [k|] eqn:Hk; [|split; assumption].
    assert (Hcont : submit_continuation k).
    { eapply Forall_forall; [exact Hin|]. eapply nth_error_In; eassumption. }
    rewrite Hcont. cbn [commit]. split; cbn [world inflight].
    + apply remove_nth_Forall. assumption.
    + unfold settled_world. destruct outcome; simpl; discriminate.
Qed.

Lemma panel_run_wf (apiKey : string) (es : list UIEvent) (p : Panel) :
  panel_wf p -> panel_wf (fold_left (panel_step apiKey) es p).
Proof.
  revert p. induction es as [|e es IH]; simpl; intros p Hp; [assumption|].
  apply IH, panel_step_wf, Hp.
Qed.

Lemma initialPanel_wf : panel_wf initialPanel.
Proof. split; simpl; [constructor|discriminate]. Qed.

(** Whatever happened before, the button can be disabled ([isLoading])
    only while some call is still in flight. *)
Theorem loading_only_while_in_flight (apiKey : string) (es : list UIEvent) :
  isLoading (wishState (world (panel_run apiKey es))) = true ->
  inflight (panel_run apiKey es) <> [].
Proof.
  exact (proj2 (panel_run_wf apiKey es initialPanel initialPanel_wf)).
Qed.

Lemma loading_only_while_in_flight_witness :
  inflight (panel_run "key" [Typed "Snow"; Submit]) <> [].
Proof.
  apply (loading_only_while_in_flight "key" [Typed "Snow"; Submit]).
  reflexivity.
Defined.

(** A call in flight that settles, at any later moment and whatever was
    typed, submitted or reset in between, shows its wish: the wish state
    becomes not loading, the sentence of that outcome, no error; the form
    flag and the prompt of that moment are kept, and the call leaves the
    list of calls in flight. *)
Theorem settled_call_shows_its_wish
    (apiKey : string) (es : list UIEvent) (i : nat)
    (outcome : Result GenerateContentResponse) :
  (i < length (inflight (panel_run apiKey es)))%nat ->
  panel_step apiKey (panel_run apiKey es) (Settled i outcome) =
  {| world := settled_world outcome (world (panel_run apiKey es));
     inflight := remove_nth i (inflight (panel_run apiKey es)) |}.
Proof.
  intros Hi. cbn [panel_step].
  destruct (panel_run_wf apiKey es initialPanel initialPanel_wf) as [Hin _].
  fold (panel_run apiKey es) in Hin.
  destruct (nth_error (inflight (panel_run apiKey es)) i) as [k|] eqn:Hk.
  - assert (Hcont : submit_continuation k).
    { eapply Forall_forall; [exact Hin|]. eapply nth_error_In; eassumption. }
    rewrite Hcont. reflexivity.
  - apply nth_error_None in Hk. lia.
Qed.

Lemma settled_call_shows_its_wish_witness :
  panel_step "key" (panel_run "key" [Typed "Snow"; Submit; Reset])
             (Settled 0 (Thrown TimeoutError)) =
  {| world := settled_world (Thrown TimeoutError)
                (world (panel_run "key" [Typed "Snow"; Submit; Reset]));
     inflight := remove_nth 0 (inflight (panel_run "key" [Typed "Snow"; Submit; Reset])) |}.
Proof.
  apply (settled_call_shows_its_wish "key" [Typed "Snow"; Submit; Reset] 0
           (Thrown TimeoutError)).
  simpl. lia.
Defined.

(** A reset puts the panel back to its first state and scatters the tree,
    but cancels nothing: the calls in flight stay, and one that settles
    afterwards shows its wish over the scattered tree and the empty
    prompt. *)
Theorem reset_cancels_nothing
    (apiKey : string) (es : list UIEvent) (i : nat)
    (outcome : Result GenerateContentResponse) :
  (i < length (inflight (panel_run apiKey es)))%nat ->
  let p1 := panel_step apiKey (panel_run apiKey es) Reset in
  let p2 := panel_step apiKey p1 (Settled i outcome) in
  (wishState (world p1) = initialWishState
   /\ prompt (world p1) = EmptyString
   /\ formed (world p1) = false
   /\ inflight p1 = inflight (panel_run apiKey es))
  /\ (wishState (world p2) =
        {| isLoading := false; text := Some (wish_of outcome); error := None |}
      /\ prompt (world p2) = EmptyString
      /\ formed (world p2) = false).
Proof.
  intros Hi p1 p2. subst p2 p1.
  destruct (panel_run_wf apiKey es initialPanel initialPanel_wf) as [Hin _].
  fold (panel_run apiKey es) in Hin.
  set (p := panel_run apiKey es) in *.
  split; [repeat split|].
  cbn [panel_step handleReset]. 
  change (inflight (commit (handleReset (world p)) (inflight p))) with (inflight p).
  destruct (nth_error (inflight p) i) as [k|] eqn:Hk.
  - assert (Hcont : submit_continuation k).
    { eapply Forall_forall; [exact Hin|]. eapply nth_error_In; eassumption. }
    rewrite Hcont. cbn [commit world]. unfold settled_world.
    destruct outcome; repeat split.
  - apply nth_error_None in Hk. lia.
Qed.

Lemma reset_cancels_nothing_witness :
  let p := panel_run "key" [Typed "Snow"; Submit] in
  let p1 := panel_step "key" p Reset in
  let p2 := panel_step "key" p1 (Settled 0 (Returned {| response_text := Some "Glow"%string |})) in
  (wishState (world p1) = initialWishState
   /\ prompt (world p1) = EmptyString
   /\ formed (world p1) = false
   /\ inflight p1 = inflight p)
  /\ (wishState (world p2) =
        {| isLoading := false; text := Some "Glow"%string; error := None |}
      /\ prompt (world p2) = EmptyString
      /\ formed (world p2) = false).
Proof.
  apply (reset_cancels_nothing "key" [Typed "Snow"; Submit] 0
           (Returned {| response_text := Some "Glow"%string |})).
  simpl. lia.
Defined.

(** Without a credential nothing ever leaves: whatever the events, no
    request is logged, no call is in flight, the panel is not loading, and
    the only sentence it can show is the one about the missing key. *)
Theorem keyless_panel_never_calls (es : list UIEvent) :
  let p := panel_run EmptyString es in
  outbound (log (world p)) = []
  /\ inflight p = []
  /\ isLoading (wishState (world p)) = false
  /\ (text (wishState (world p)) = None
      \/ text (wishState (world p)) =
         Some "Experience the magic of the holidays. (API Key missing)"%string).
Proof.
  unfold panel_run.
  assert (Hinit : let p := initialPanel in
            outbound (log (world p)) = [] /\ inflight p = []
            /\ isLoading (wishState (world p)) = false
            /\ (text (wishState (world p)) = None
                \/ text (wishState (world p)) =
                   Some "Experience the magic of the holidays. (API Key missing)"%string))
    by (simpl; auto).
  revert Hinit. generalize initialPanel.
  induction es as [|e es IH]; intros p Hp; [exact Hp|].
  cbn [fold_left]. apply IH. clear IH. cbv zeta in *.
  destruct Hp as (Ho & Hin & Hl & Ht).
  destruct e as [s| | |i outcome]; cbn [panel_step].
  - simpl. auto.
  - pose proof (handleGenerateWish_shape EmptyString (world p)) as H.
    destruct (handleGenerateWish EmptyString (world p)) as [r w'|req w' k]; cbn [commit world inflight].
    + assert (Hig : outbound (log (ignited (world p))) = []).
      { unfold ignited. destruct (formed (world p)); [exact Ho|]. cbn [log].
        rewrite outbound_app, Ho. reflexivity. }
      destruct H as [_ [[_ ->]|(_ & _ & ->)]].
      * split; [exact Hig|]. split; [exact Hin|].
        unfold ignited. destruct (formed (world p)); simpl; auto.
      * unfold keyless_world. cbn [log wishState isLoading text]. auto.
    + destruct H as (_ & Hk & _). congruence.
  - simpl. rewrite outbound_app, Ho. simpl. auto.
  - rewrite Hin. destruct i; simpl; auto.
Qed.

(** ** More on the blend driver *)

Lemma lerp_between (x y w : R) :
  0 <= w <= 1 ->
  (x <= y -> x <= lerp x y w <= y) /\ (y <= x -> y <= lerp x y w <= x).
Proof. intros Hw. unfold lerp. split; intros H; nra. Qed.

Lemma frame_error (isFormed : bool) (delta : number) (t : TreeRefs) :
  target_of isFormed - progressRef (Tree_useFrame isFormed delta t) =
  (1 - delta * 1.2) * (target_of isFormed - progressRef t).
Proof. rewrite progress_after_frame. unfold lerp, target_of. destruct isFormed; ring. Qed.

(** Over any sequence of frames, of whatever varying lengths up to 5/6 of a
    second each, the scalar stays in [0,1] and ends between where it
    started and the target. *)
Theorem blend_frames_bounded (isFormed : bool) (ds : list number) (t : TreeRefs) :
  Forall short_frame ds ->
  0 <= progressRef t <= 1 ->
  0 <= progressRef (frames_after isFormed ds t) <= 1
  /\ (if isFormed
      then progressRef t <= progressRef (frames_after isFormed ds t)
      else progressRef (frames_after isFormed ds t) <= progressRef t).
Proof.
  intros Hds. revert t. unfold frames_after.
  induction Hds as [|d ds [Hd0 Hd1] Hds IH]; intros t Ht; cbn [fold_left].
  - destruct isFormed; lra.
  - assert (Hw : 0 <= d * 1.2 <= 1) by lra.
    pose proof (lerp_between (progressRef t) (target_of isFormed) (d * 1.2) Hw) as [Hup Hdown].
    assert (Hstep : 0 <= progressRef (Tree_useFrame isFormed d t) <= 1
                    /\ (if isFormed
                        then progressRef t <= progressRef (Tree_useFrame isFormed d t)
                        else progressRef (Tree_useFrame isFormed d t) <= progressRef t)).
    { rewrite progress_after_frame. unfold target_of in *.
      destruct isFormed; [specialize (Hup ltac:(lra))|specialize (Hdown ltac:(lra))]; lra. }
    destruct Hstep as [Hin Hdir]. specialize (IH _ Hin).
    destruct isFormed; lra.
Qed.

Lemma blend_frames_bounded_witness :
  let t := {| progressRef := 0.25; groupRef := Some 0 |} in
  0 <= progressRef (frames_after true [1 / 60; 1 / 30; 1 / 2] t) <= 1
  /\ progressRef t <= progressRef (frames_after true [1 / 60; 1 / 30; 1 / 2] t).
Proof.
  apply (blend_frames_bounded true [1 / 60; 1 / 30; 1 / 2]
           {| progressRef := 0.25; groupRef := Some 0 |}).
  - repeat constructor; lra.
  - simpl. lra.
Defined.

(** The group's rotation depends only on the time elapsed: after any
    frames it is the old angle plus the speed of the current flag (0.05
    formed, 0.01 scattered) times the sum of the deltas; a group that is
    not attached stays so. *)
Theorem group_rotation_total (isFormed : bool) (ds : list number) (t : TreeRefs) :
  groupRef (frames_after isFormed ds t) =
  match groupRef t with
  | Some rotation_y => Some (rotation_y + rotSpeed_of isFormed * total ds)
  | None => None
  end.
Proof.
  revert t. unfold frames_after. induction ds as [|d ds IH]; intros t; cbn [fold_left total fold_right].
  - destruct (groupRef t); [f_equal; ring|reflexivity].
  - rewrite IH. cbn [Tree_useFrame groupRef]. fold (total ds).
    destruct (groupRef t); [|reflexivity].
    f_equal. unfold rotSpeed_of. destruct isFormed; ring.
Qed.

Lemma blend_error_after (isFormed : bool) (dt : number) (n : nat) (t : TreeRefs) :
  target_of isFormed - progressRef (blend_after isFormed dt n t) =
  (1 - dt * 1.2) ^ n * (target_of isFormed - progressRef t).
Proof.
  induction n as [|n IH]; cbn [blend_after pow].
  - ring.
  - rewrite frame_error, IH. ring.
Qed.

(** Toward either target and from any start in [0,1], ticking at a fixed
    size [dt] of at most 5/6 of a second: the distance to the target after
    [n] ticks is the initial distance times [(1 - 1.2 dt)^n], it never
    grows from one tick to the next, and it is at most 0.001 from any tick
    [n] with [n * (dt * 1.2) >= 999] on.  Scattering is the mirror image
    of forming. *)
Theorem blend_decay_either_target (isFormed : bool) (dt : number) (t : TreeRefs) :
  0 < dt -> dt * 1.2 <= 1 ->
  0 <= progressRef t <= 1 ->
  let err := fun n => Rabs (target_of isFormed - progressRef (blend_after isFormed dt n t)) in
  (forall n, err n = (1 - dt * 1.2) ^ n * Rabs (target_of isFormed - progressRef t))
  /\ (forall n, err (S n) <= err n)
  /\ (forall n, 999 <= INR n * (dt * 1.2) -> err n <= 0.001).
Proof.
  intros Hdt Hw Hp err.
  assert (Hpow : forall n, 0 <= (1 - dt * 1.2) ^ n) by (intros; apply pow_le; lra).
  assert (Herr : forall n, err n = (1 - dt * 1.2) ^ n * Rabs (target_of isFormed - progressRef t)).
  { intros n. unfold err. rewrite blend_error_after, Rabs_mult.
    rewrite (Rabs_right ((1 - dt * 1.2) ^ n)); [reflexivity|]. apply Rle_ge, Hpow. }
  assert (He0 : 0 <= Rabs (target_of isFormed - progressRef t) <= 1).
  { split; [apply Rabs_pos|]. unfold target_of.
    destruct isFormed; apply Rabs_le; lra. }
  split; [exact Herr|]. split.
  - intros n. rewrite !Herr. cbn [pow]. specialize (Hpow n).
    assert (Hq : 0 <= (1 - dt * 1.2) ^ n * Rabs (target_of isFormed - progressRef t))
      by (apply Rmult_le_pos; lra).
    rewrite Rmult_assoc. nra.
  - intros n Hn. rewrite Herr.
    pose proof (pow_decay_bound (dt * 1.2) n ltac:(lra)) as Hb.
    specialize (Hpow n).
    assert (Hq : (1 - dt * 1.2) ^ n * 1000 <= 1) by nra.
    assert (Hle : (1 - dt * 1.2) ^ n * Rabs (target_of isFormed - progressRef t)
                  <= (1 - dt * 1.2) ^ n * 1)
      by (apply Rmult_le_compat_l; lra).
    lra.
Qed.

Lemma blend_decay_either_target_witness :
  let t := {| progressRef := 1; groupRef := None |} in
  let err := fun n => Rabs (target_of false - progressRef (blend_after false (1 / 60) n t)) in
  (forall n, err n = (1 - 1 / 60 * 1.2) ^ n * Rabs (target_of false - progressRef t))
  /\ (forall n, err (S n) <= err n)
  /\ (forall n, 999 <= INR n * (1 / 60 * 1.2) -> err n <= 0.001).
Proof.
  apply (blend_decay_either_target false (1 / 60) {| progressRef := 1; groupRef := None |});
    simpl; lra.
Defined.

(** What a long frame does.  Each frame multiplies the signed distance to
    the target by [1 - 1.2 delta], so: at the target the scalar stays
    there whatever the delta; a frame of exactly 5/6 s lands on the target;
    a frame between 5/6 s and 5/3 s passes the target but ends strictly
    closer to it; a frame longer than 5/3 s ends farther from the target
    than it started. *)
Theorem blend_long_frame (isFormed : bool) (delta : number) (t : TreeRefs) :
  let target := target_of isFormed in
  let p := progressRef t in
  let p' := progressRef (Tree_useFrame isFormed delta t) in
  (p = target -> p' = target)
  /\ (delta = 5 / 6 -> p' = target)
  /\ (5 / 6 < delta < 5 / 3 -> p <> target ->
        (target - p') * (target - p) < 0 /\ Rabs (target - p') < Rabs (target - p))
  /\ (5 / 3 < delta -> p <> target -> Rabs (target - p) < Rabs (target - p')).
Proof.
  intros target p p'.
  assert (He : target - p' = (1 - delta * 1.2) * (target - p))
    by (unfold target, p, p'; apply frame_error).
  assert (Hsq : forall x, x <> 0 -> 0 < x * x) by (intros x Hx; nra).
  split; [|split; [|split]].
  - intros Hp. rewrite Hp in He. lra.
  - intros Hd. rewrite Hd in He. lra.
  - intros Hd Hne. assert (Hx : target - p <> 0) by lra.
    pose proof (Hsq _ Hx) as Hpos. split.
    + rewrite He. nra.
    + rewrite He, Rabs_mult. pose proof (Rabs_pos_lt _ Hx) as Ha.
      assert (Hf : Rabs (1 - delta * 1.2) < 1) by (apply Rabs_def1; lra).
      pose proof (Rabs_pos (1 - delta * 1.2)). nra.
  - intros Hd Hne. assert (Hx : target - p <> 0) by lra.
    rewrite He, Rabs_mult. pose proof (Rabs_pos_lt _ Hx) as Ha.
    assert (Hf : 1 < Rabs (1 - delta * 1.2)).
    { rewrite Rabs_left by lra. lra. }
    nra.
Qed.

Lemma blend_long_frame_witness :
  let t := {| progressRef := 0; groupRef := None |} in
  (target_of true - progressRef (Tree_useFrame true 1 t)) * (target_of true - progressRef t) < 0
  /\ Rabs (target_of true - progressRef (Tree_useFrame true 1 t))
     < Rabs (target_of true - progressRef t).
Proof.
  apply (blend_long_frame true 1 {| progressRef := 0; groupRef := None |});
    unfold target_of; simpl; lra.
Defined.

(** ** The progress the layers are rendered with *)

Lemma run_app (ss : Session) (es1 es2 : list Event) :
  run ss (es1 ++ es2) = run (run ss es1) es2.
Proof. unfold run. apply fold_left_app. Qed.

Lemma run_frame_fields (time delta : number) (ss : Session) :
  progressProp (run_frame time delta ss) = progressProp ss
  /\ isFormed (run_frame time delta ss) = isFormed ss
  /\ treeRefs (run_frame time delta ss) = Tree_useFrame (isFormed ss) delta (treeRefs ss)
  /\ shaderRef (run_frame time delta ss) =
     FoliageLayer_useFrame (progressProp ss) time (shaderRef ss).
Proof.
  unfold run_frame.
  destruct (OrnamentLayer_useFrame _ (cubes ss) _ _ _) as [lc s1].
  destruct (OrnamentLayer_useFrame _ (spheres ss) _ _ _) as [ls s2].
  destruct (OrnamentLayer_useFrame _ (diamonds ss) _ _ _) as [ld s3].
  repeat split.
Qed.

Lemma frames_after_error (isFormed : bool) (ds : list number) (t : TreeRefs) :
  target_of isFormed - progressRef (frames_after isFormed ds t) =
  decay ds * (target_of isFormed - progressRef t).
Proof.
  revert t. unfold frames_after. induction ds as [|d ds IH]; intros t; cbn [fold_left decay fold_right].
  - ring.
  - rewrite IH, frame_error. fold (decay ds). ring.
Qed.

Lemma run_frames_fields (tds : list (number * number)) (ss : Session) :
  progressProp (run ss (frames tds)) = progressProp ss
  /\ isFormed (run ss (frames tds)) = isFormed ss
  /\ treeRefs (run ss (frames tds)) =
     frames_after (isFormed ss) (map snd tds) (treeRefs ss)
  /\ (shaderRef ss = None -> shaderRef (run ss (frames tds)) = None)
  /\ (shaderRef ss <> None -> shaderRef (run ss (frames tds)) <> None).
Proof.
  revert ss. unfold run, frames, frames_after.
  induction tds as [|[time delta] tds IH]; intros ss; cbn [map fold_left].
  - repeat split; auto.
  - destruct (run_frame_fields time delta ss) as (Hp & Hf & Ht & Hs).
    destruct (IH (run_frame time delta ss)) as (Hp' & Hf' & Ht' & Hn' & Hs').
    cbn [step frame_of fst snd]. rewrite Hp', Hf', Ht', Hp, Hf, Ht.
    repeat split.
    + intros Hnone. apply Hn'. rewrite Hs, Hnone. reflexivity.
    + intros Hsome. apply Hs'. rewrite Hs.
      destruct (shaderRef ss); [discriminate|congruence].
Qed.

Lemma run_snoc (ss : Session) (es : list Event) (e : Event) :
  run ss (es ++ [e]) = step (run ss es) e.
Proof. rewrite run_app. reflexivity. Qed.

Lemma decay_snoc (ds : list number) (delta : number) :
  decay (ds ++ [delta]) = decay ds * (1 - delta * 1.2).
Proof.
  induction ds as [|d ds IH]; cbn [app decay fold_right].
  - ring.
  - fold (decay (ds ++ [delta])). fold (decay ds). rewrite IH. ring.
Qed.

Lemma rendered_progress_kept
    (ss : Session) (tds : list (number * number)) (time delta : number) :
  let m := run ss (frames tds ++ [Frame time delta]) in
  progressProp m = progressProp ss
  /\ shaderRef m =
     match shaderRef ss with
     | Some _ => Some {| uTime := time; uProgress := progressProp ss |}
     | None => None
     end
  /\ target_of (isFormed ss) - progressRef (treeRefs m) =
     decay (map snd tds ++ [delta]) * (target_of (isFormed ss) - progressRef (treeRefs ss)).
Proof.
  intros m. subst m. rewrite run_snoc. cbn [step].
  destruct (run_frames_fields tds ss) as (Hp & Hf & Ht & Hn & Hs).
  destruct (run_frame_fields time delta (run ss (frames tds))) as (Hp' & _ & Ht' & Hs').
  rewrite Hp', Hs', Ht', Hp, Hf, Ht. split; [reflexivity|]. split.
  - destruct (shaderRef ss) as [u|].
    + destruct (shaderRef (run ss (frames tds))) as [u'|] eqn:E; [reflexivity|].
      exfalso. apply Hs; [discriminate|reflexivity].
    + rewrite Hn; reflexivity.
  - rewrite frame_error, frames_after_error, decay_snoc. ring.
Qed.

(** Frames never change the progress the layers were rendered with: after
    any run of frames the prop is the one of the last render, each frame
    writes that value (not the current [progressRef.current]) to the
    [uProgress] uniform, while the blend scalar itself has moved on. *)
Theorem frames_keep_rendered_progress
    (ss : Session) (tds : list (number * number)) (time delta : number) :
  let m := run ss (frames tds ++ [Frame time delta]) in
  progressProp m = progressProp ss
  /\ shaderRef m =
     match shaderRef ss with
     | Some _ => Some {| uTime := time; uProgress := progressProp ss |}
     | None => None
     end
  /\ target_of (isFormed ss) - progressRef (treeRefs m) =
     decay (map snd tds ++ [delta]) * (target_of (isFormed ss) - progressRef (treeRefs ss)).
Proof. exact (rendered_progress_kept ss tds time delta). Qed.

Lemma mount_refs (rnd : nat -> number) (b : bool) :
  let m := mount rnd b in
  isFormed m = b
  /\ treeRefs m = {| progressRef := 0; groupRef := Some 0 |}
  /\ progressProp m = 0
  /\ shaderRef m = Some {| uTime := 0; uProgress := 0 |}.
Proof.
  unfold mount, mount_resources, bind.
  destruct (generateOrnaments rnd 180 empty_store) as [orn s1].
  destruct (generateFoliageAttributes rnd s1) as [fol s2].
  destruct (new_layer (of_type CUBE orn) s2) as [lc s3].
  destruct (new_layer (of_type SPHERE orn) s3) as [ls s4].
  destruct (new_layer (of_type DIAMOND orn) s4) as [ld s5].
  repeat split.
Qed.

(** After the mount with the tree scattered, frames, the re-render that
    forms the tree, and more frames: [progressRef.current] runs toward 1,
    its distance to 1 being the product of the factors [1 - 1.2 delta] of
    the frames since that render, but the layers were rendered while it was
    still 0, so every frame keeps writing 0 to [uProgress]. *)
Theorem formed_tree_rendered_at_zero
    (rnd : nat -> number) (tds1 tds2 : list (number * number)) (time delta : number) :
  let m := run (mount rnd false)
               (frames tds1 ++ [Render true] ++ frames tds2 ++ [Frame time delta]) in
  isFormed m = true
  /\ progressProp m = 0
  /\ shaderRef m = Some {| uTime := time; uProgress := 0 |}
  /\ 1 - progressRef (treeRefs m) = decay (map snd tds2 ++ [delta]).
Proof.
  intros m. subst m. rewrite run_app, run_app.
  destruct (mount_refs rnd false) as (Hf0 & Ht0 & Hp0 & Hs0).
  destruct (run_frames_fields tds1 (mount rnd false)) as (Hp1 & Hf1 & Ht1 & _ & Hs1).
  set (m1 := run (mount rnd false) (frames tds1)) in *.
  assert (Hprog1 : progressRef (treeRefs m1) = 0).
  { pose proof (frames_after_error false (map snd tds1) (treeRefs (mount rnd false))) as He.
    rewrite Ht1, Hf0. rewrite Ht0 in *. unfold target_of in He. cbn [progressRef] in He.
    lra. }
  set (m2 := run m1 [Render true]).
  assert (Hm2 : isFormed m2 = true /\ progressProp m2 = 0
                /\ progressRef (treeRefs m2) = 0 /\ shaderRef m2 <> None).
  { unfold m2, run. cbn [fold_left step rerender isFormed progressProp treeRefs shaderRef].
    repeat split; try assumption. apply Hs1. rewrite Hs0. discriminate. }
  destruct Hm2 as (Hf2 & Hp2 & Hr2 & Hs2).
  destruct (rendered_progress_kept m2 tds2 time delta) as (Hp3 & Hs3 & He3).
  destruct (run_frames_fields (tds2 ++ [(time, delta)]) m2) as (_ & Hf3 & _).
  split; [|split; [|split]].
  - change [Frame time delta] with (frames [(time, delta)]).
    unfold frames in *. rewrite <- map_app. rewrite Hf3. exact Hf2.
  - rewrite Hp3. exact Hp2.
  - rewrite Hs3, Hp2. destruct (shaderRef m2); [reflexivity|congruence].
  - rewrite Hf2, Hr2 in He3. unfold target_of in He3. lra.
Qed.

(** ** What a frame draws for an ornament *)

Lemma list_set_same {A} (l : list A) (k : nat) (v : A) :
  (k < length l)%nat -> nth_error (list_set l k v) k = Some v.
Proof.
  revert k. induction l as [|h t IH]; intros [|k] H; simpl in *; try lia; auto.
  apply IH. lia.
Qed.

Lemma nth_error_some_lt {A} (l : list A) (k : nat) :
  (k < length l)%nat -> exists v, nth_error l k = Some v.
Proof.
  intros H. destruct (nth_error l k) as [v|] eqn:E; [exists v; reflexivity|].
  apply nth_error_None in E. lia.
Qed.

Lemma read_run (c : nat) (vs : list Vector3) (p : ref) :
  read p (mkStore c vs) = (vec (mkStore c vs) p, mkStore c vs).
Proof. reflexivity. Qed.

Lemma update_run (c : nat) (vs : list Vector3) (p : ref) (f : Vector3 -> Vector3) (v : Vector3) :
  nth_error vs p = Some v ->
  update_vector p f (mkStore c vs) = (tt, mkStore c (list_set vs p (f v))).
Proof. intros H. unfold update_vector, deref. cbn [vectors randomCalls]. rewrite H. reflexivity. Qed.

Lemma bind_eq {A B} (m : M A) (f : A -> M B) (s s' : Store) (a : A) :
  m s = (a, s') -> bind m f s = f a s'.
Proof. intros H. unfold bind. rewrite H. reflexivity. Qed.

Lemma new_run (c : nat) (vs : list Vector3) (x y z : number) :
  new_Vector3 x y z (mkStore c vs) = (length vs, mkStore c (vs ++ [mkVector3 x y z])).
Proof. reflexivity. Qed.

Lemma lerpVectors_run (c : nat) (vs : list Vector3) (out v1 v2 : ref)
    (alpha : number) (o : Vector3) :
  nth_error vs out = Some o ->
  lerpVectors out v1 v2 alpha (mkStore c vs) =
  (out,
   mkStore c (list_set vs out
     (let a := vec (mkStore c vs) v1 in
      let b := vec (mkStore c vs) v2 in
      mkVector3 (vx a + (vx b - vx a) * alpha) (vy a + (vy b - vy a) * alpha)
                (vz a + (vz b - vz a) * alpha)))).
Proof.
  intros H. unfold lerpVectors.
  erewrite bind_eq by apply read_run.
  erewrite bind_eq by apply read_run.
  erewrite bind_eq by (apply update_run; exact H).
  reflexivity.
Qed.

Lemma copy_run (c : nat) (vs : list Vector3) (out v : ref) (o : Vector3) :
  nth_error vs out = Some o ->
  copy out v (mkStore c vs) = (tt, mkStore c (list_set vs out (vec (mkStore c vs) v))).
Proof.
  intros H. unfold copy. erewrite bind_eq by apply read_run.
  exact (update_run c vs out _ o H).
Qed.

Lemma setScalar_run (c : nat) (vs : list Vector3) (out : ref) (k : number) (o : Vector3) :
  nth_error vs out = Some o ->
  setScalar out k (mkStore c vs) = (tt, mkStore c (list_set vs out (mkVector3 k k k))).
Proof. intros H. unfold setScalar. apply (update_run c vs out _ o H). Qed.

Lemma vec_app_below (c : nat) (vs extra : list Vector3) (p : ref) :
  (p < length vs)%nat -> vec (mkStore c (vs ++ extra)) p = vec (mkStore c vs) p.
Proof.
  intros H. unfold vec, deref. cbn [vectors]. rewrite nth_error_app1 by exact H. reflexivity.
Qed.

Lemma ornament_item_run (base c : nat) (vs : list Vector3) (d : Object3D)
    (mesh : InstancedMesh) (item : OrnamentData) (i : nat) (time progress : number) :
  dummy_ok base d (mkStore c vs) ->
  item_below base item ->
  let s := mkStore c vs in
  let cur := displayed_position time progress item
               (vec s (scatterPos item)) (vec s (treePos item)) in
  let m := ornament_matrix time progress s item in
  ornament_item time progress item i (d, mesh) s =
  (({| position := position d;
       rotation := displayed_rotation time (vec s (rotationSpeed item));
       scale3 := scale3 d; matrix := m |},
    setMatrixAt mesh i m),
   mkStore c (list_set (list_set (vs ++ [cur]) (position d) cur) (scale3 d)
                       (displayed_scale progress item))).
Proof.
  intros (Hp & Hs & Hne) Hitem s cur m. cbn [vectors] in Hp, Hs.
  assert (Hsp : (scatterPos item < length vs)%nat)
    by (specialize (Hitem (scatterPos item)); cbn in Hitem; lia).
  assert (Htp : (treePos item < length vs)%nat)
    by (specialize (Hitem (treePos item)); cbn in Hitem; lia).
  assert (Hrs : (rotationSpeed item < base)%nat)
    by (specialize (Hitem (rotationSpeed item)); cbn in Hitem; lia).
  unfold ornament_item, s.
  erewrite bind_eq by apply new_run.
  erewrite bind_eq by (eapply lerpVectors_run; apply nth_error_snoc).
  rewrite list_set_snoc, !vec_app_below by assumption. cbv zeta.
  erewrite bind_eq by (eapply update_run; apply nth_error_snoc).
  rewrite list_set_snoc. cbn [vx vy vz].
  erewrite bind_eq by (eapply update_run; apply nth_error_snoc).
  rewrite list_set_snoc. cbn [vx vy vz].
  fold s.
  match goal with |- context [vs ++ [?v]] => change v with cur end.
  assert (Hlen : length (vs ++ [cur]) = S (length vs))
    by (rewrite length_app; simpl; lia).
  destruct (nth_error_some_lt (vs ++ [cur]) (position d) ltac:(lia)) as [pold Hpold].
  erewrite bind_eq by (eapply copy_run; exact Hpold).
  assert (Hcur : vec (mkStore c (vs ++ [cur])) (length vs) = cur).
  { unfold vec, deref. cbn [vectors]. rewrite nth_error_snoc. reflexivity. }
  rewrite Hcur.
  set (L5 := list_set (vs ++ [cur]) (position d) cur).
  assert (Hlen5 : length L5 = S (length vs)) by (unfold L5; rewrite list_set_length; exact Hlen).
  destruct (nth_error_some_lt L5 (scale3 d) ltac:(lia)) as [sold Hsold].
  erewrite bind_eq by (eapply setScalar_run; exact Hsold).
  fold (displayed_scale progress item).
  set (L6 := list_set L5 (scale3 d) (displayed_scale progress item)).
  erewrite bind_eq by apply read_run.
  erewrite bind_eq by apply read_run.
  erewrite bind_eq by apply read_run.
  unfold ret.
  assert (Hvrs : vec (mkStore c L6) (rotationSpeed item) = vec s (rotationSpeed item)).
  { unfold vec, deref, s. cbn [vectors]. unfold L6, L5.
    rewrite !list_set_other by lia. rewrite nth_error_app1 by lia. reflexivity. }
  assert (Hvpos : vec (mkStore c L6) (position d) = cur).
  { unfold vec, deref. cbn [vectors]. unfold L6.
    rewrite list_set_other by exact Hne. unfold L5.
    rewrite list_set_same by lia. reflexivity. }
  assert (Hvsc : vec (mkStore c L6) (scale3 d) = displayed_scale progress item).
  { unfold vec, deref. cbn [vectors]. unfold L6.
    rewrite list_set_same by lia. reflexivity. }
  rewrite Hvrs, Hvpos, Hvsc. reflexivity.
Qed.

Lemma vec_agree (base : nat) (s s' : Store) (p : ref) :
  agree_below base s s' -> (p < base)%nat -> vec s' p = vec s p.
Proof. intros H Hp. unfold vec. rewrite (H p Hp). reflexivity. Qed.

Lemma ornament_matrix_agree (base : nat) (s s' : Store) (time progress : number)
    (item : OrnamentData) :
  agree_below base s s' -> item_below base item ->
  ornament_matrix time progress s' item = ornament_matrix time progress s item.
Proof.
  intros H Hitem. unfold ornament_matrix.
  rewrite !(vec_agree base s s') by (try exact H; apply Hitem; simpl; auto).
  reflexivity.
Qed.

Lemma forEach_from_run (base : nat) (time progress : number) (data : list OrnamentData) :
  forall (i0 : nat) (d : Object3D) (mesh : InstancedMesh) (c : nat) (vs : list Vector3),
  dummy_ok base d (mkStore c vs) ->
  Forall (item_below base) data ->
  (i0 + length data <= length (instanceMatrix mesh))%nat ->
  exists d' mesh' vs',
    forEach_from time progress data i0 (d, mesh) (mkStore c vs) = ((d', mesh'), mkStore c vs')
    /\ dummy_ok base d' (mkStore c vs')
    /\ untouched base (mkStore c vs) (mkStore c vs')
    /\ length (instanceMatrix mesh') = length (instanceMatrix mesh)
    /\ (forall q, (q < i0)%nat ->
          nth_error (instanceMatrix mesh') q = nth_error (instanceMatrix mesh) q)
    /\ (forall j item, nth_error data j = Some item ->
          nth_error (instanceMatrix mesh') (i0 + j) =
          Some (ornament_matrix time progress (mkStore c vs) item)).
Proof.
  induction data as [|item rest IH]; intros i0 d mesh c vs Hd Hbelow Hlen.
  - exists d, mesh, vs. cbn [forEach_from]. unfold ret.
    split; [reflexivity|]. split; [exact Hd|]. split; [apply untouched_refl|].
    split; [reflexivity|]. split; [reflexivity|].
    intros j it Hj. destruct j; discriminate.
  - inversion Hbelow as [|? ? Hitem Hrest]; subst.
    cbn [forEach_from length] in *.
    erewrite bind_eq by (apply (ornament_item_run base); assumption).
    set (cur := displayed_position time progress item
                  (vec (mkStore c vs) (scatterPos item)) (vec (mkStore c vs) (treePos item))).
    set (m := ornament_matrix time progress (mkStore c vs) item).
    set (vs1 := list_set (list_set (vs ++ [cur]) (position d) cur) (scale3 d)
                         (displayed_scale progress item)).
    set (d1 := {| position := position d;
                  rotation := displayed_rotation time (vec (mkStore c vs) (rotationSpeed item));
                  scale3 := scale3 d; matrix := m |}).
    destruct Hd as (Hp & Hs & Hne). cbn [vectors] in Hp, Hs.
    assert (Hlen1 : length vs1 = S (length vs)).
    { unfold vs1. rewrite !list_set_length, length_app. simpl. lia. }
    assert (Hd1 : dummy_ok base d1 (mkStore c vs1)).
    { unfold dummy_ok, d1. cbn [position scale3 vectors]. rewrite Hlen1. lia. }
    assert (Hu1 : untouched base (mkStore c vs) (mkStore c vs1)).
    { split; cbn [vectors]; [lia|]. intros q Hq. unfold deref. cbn [vectors].
      unfold vs1. rewrite !list_set_other by lia. apply nth_error_app1. lia. }
    assert (Hlenm : length (instanceMatrix (setMatrixAt mesh i0 m)) = length (instanceMatrix mesh)).
    { unfold setMatrixAt. cbn [instanceMatrix]. apply list_set_length. }
    destruct (IH (S i0) d1 (setMatrixAt mesh i0 m) c vs1 Hd1 Hrest ltac:(rewrite Hlenm; lia))
      as (d' & mesh' & vs' & Heq & Hd' & Hu' & Hl' & Hold & Hnew).
    exists d', mesh', vs'. split; [exact Heq|]. split; [exact Hd'|].
    split; [eapply untouched_trans; eassumption|].
    split; [rewrite Hl'; exact Hlenm|]. split.
    + intros q Hq. rewrite Hold by lia. unfold setMatrixAt. cbn [instanceMatrix].
      apply list_set_other. lia.
    + intros j it Hj. destruct j as [|j]; cbn [nth_error] in Hj.
      * injection Hj as <-. rewrite Nat.add_0_r, Hold by lia.
        unfold setMatrixAt. cbn [instanceMatrix]. apply list_set_same. lia.
      * replace (i0 + S j)%nat with (S i0 + j)%nat by lia.
        rewrite (Hnew j it Hj). f_equal.
        apply (ornament_matrix_agree base); [exact (proj2 Hu1)|].
        eapply Forall_forall; [exact Hrest|]. eapply nth_error_In; eassumption.
Qed.

(** One frame of a layer whose mesh is attached and has a slot for every
    item, whose dummy is sound, and whose items live below [base]: slot
    [j] of the mesh receives the matrix of item [j], composed from the
    blend of its two positions plus the float, the clock time times its
    rotation speed, and its scale times [0.3 progress + 0.7]; the mesh is
    flagged for upload. *)
Lemma OrnamentLayer_useFrame_run (base : nat) (progress time : number)
    (data : list OrnamentData) (l : OrnamentLayerRefs) (mesh : InstancedMesh) (s : Store) :
  meshRef l = Some mesh ->
  length (instanceMatrix mesh) = length data ->
  dummy_ok base (dummy l) s ->
  Forall (item_below base) data ->
  let r := OrnamentLayer_useFrame progress data time l s in
  exists mesh',
    meshRef (fst r) = Some mesh'
    /\ needsUpdate mesh' = true
    /\ length (instanceMatrix mesh') = length data
    /\ (forall j item, nth_error data j = Some item ->
          nth_error (instanceMatrix mesh') j = Some (ornament_matrix time progress s item))
    /\ dummy_ok base (dummy (fst r)) (snd r)
    /\ untouched base s (snd r).
Proof.
  intros Hm Hlen Hd Hbelow r. subst r. destruct s as [c vs].
  unfold OrnamentLayer_useFrame. rewrite Hm.
  destruct (forEach_from_run base time progress data 0 (dummy l) mesh c vs Hd Hbelow
              ltac:(rewrite Hlen; apply Nat.le_refl))
    as (d' & mesh' & vs' & Heq & Hd' & Hu' & Hl' & _ & Hnew).
  erewrite bind_eq by exact Heq. unfold ret. cbn [fst snd meshRef dummy].
  eexists. split; [reflexivity|]. cbn [needsUpdate instanceMatrix].
  split; [reflexivity|]. split; [rewrite Hl'; exact Hlen|].
  split; [exact Hnew|]. split; assumption.
Qed.

Lemma dummy_ok_mono (base : nat) (d : Object3D) (s s' : Store) :
  untouched base s s' -> dummy_ok base d s -> dummy_ok base d s'.
Proof. intros [Hl _] (Hp & Hs & Hne). unfold dummy_ok in *. lia. Qed.

Lemma layer_ready_mono (data : list OrnamentData) (l : OrnamentLayerRefs) (s s' : Store) :
  untouched ORNAMENT_OBJECTS s s' -> layer_ready data l s -> layer_ready data l s'.
Proof.
  intros Hu [Hm Hd]. split; [exact Hm|]. eapply dummy_ok_mono; eassumption.
Qed.

Lemma run_frame_layers (time delta : number) (ss : Session) :
  let r1 := OrnamentLayer_useFrame (progressProp ss) (cubes ss) time (cubeLayer ss) (store ss) in
  let r2 := OrnamentLayer_useFrame (progressProp ss) (spheres ss) time (sphereLayer ss) (snd r1) in
  let r3 := OrnamentLayer_useFrame (progressProp ss) (diamonds ss) time (diamondLayer ss) (snd r2) in
  cubeLayer (run_frame time delta ss) = fst r1
  /\ sphereLayer (run_frame time delta ss) = fst r2
  /\ diamondLayer (run_frame time delta ss) = fst r3
  /\ store (run_frame time delta ss) = snd r3
  /\ cubes (run_frame time delta ss) = cubes ss
  /\ spheres (run_frame time delta ss) = spheres ss
  /\ diamonds (run_frame time delta ss) = diamonds ss.
Proof.
  unfold run_frame.
  destruct (OrnamentLayer_useFrame _ (cubes ss) _ _ _) as [lc s1]. cbn [fst snd].
  destruct (OrnamentLayer_useFrame _ (spheres ss) _ _ _) as [ls s2]. cbn [fst snd].
  destruct (OrnamentLayer_useFrame _ (diamonds ss) _ _ _) as [ld s3].
  repeat split.
Qed.

Lemma of_type_below (base : nat) (ty : OrnamentType) (l : list OrnamentData) :
  Forall (item_below base) l -> Forall (item_below base) (of_type ty l).
Proof.
  intros H. apply Forall_forall. intros o Ho. unfold of_type in Ho.
  apply filter_In in Ho as [Ho _]. eapply Forall_forall in H; eassumption.
Qed.

Lemma mount_items_below (rnd : nat -> number) (b : bool) :
  Forall (item_below ORNAMENT_OBJECTS) (ornaments (mount rnd b)).
Proof.
  apply Forall_forall. intros o Ho p Hp.
  assert (Hin : In p (flat_map refs_of (ornaments (mount rnd b))))
    by (apply (proj2 (in_flat_map refs_of (ornaments (mount rnd b)) p));
        exists o; split; assumption).
  rewrite mount_ornaments, refs_of_ornaments in Hin. apply in_seq in Hin.
  unfold ORNAMENT_OBJECTS. lia.
Qed.

Lemma layer_data_below (rnd : nat -> number) (b : bool) (ss : Session) (L : Layer) :
  session_kept (mount rnd b) ss ->
  Forall (item_below ORNAMENT_OBJECTS) (layer_data ss L).
Proof.
  intros (_ & Hc & Hs & Hd & _).
  destruct (mount_shape rnd b) as (_ & _ & Ec & Es & Ed & _).
  pose proof (mount_items_below rnd b) as Hb.
  destruct L; cbn [layer_data]; [rewrite Hc, Ec|rewrite Hs, Es|rewrite Hd, Ed];
    apply of_type_below; exact Hb.
Qed.

Lemma run_frame_ready (rnd : nat -> number) (b : bool) (ss : Session) (time delta : number) :
  session_ready (mount rnd b) ss ->
  session_ready (mount rnd b) (run_frame time delta ss)
  /\ forall L j item,
       nth_error (layer_data ss L) j = Some item ->
       exists mesh',
         meshRef (layer_refs (run_frame time delta ss) L) = Some mesh'
         /\ needsUpdate mesh' = true
         /\ length (instanceMatrix mesh') = length (layer_data ss L)
         /\ nth_error (instanceMatrix mesh') j =
            Some (ornament_matrix time (progressProp ss) (store (mount rnd b)) item).
Proof.
  intros [Hk Hready].
  destruct (mount_kept rnd b) as [Hlen _].
  pose proof (run_frame_kept (mount rnd b) ss time delta Hlen Hk) as Hk'.
  pose proof (fun L => layer_data_below rnd b ss L Hk) as Hbelow.
  destruct Hk as (_ & _ & _ & _ & _ & Hu0 & _).
  destruct (run_frame_layers time delta ss) as (Lc & Ls & Ld & Hst & Qc & Qs & Qd).
  cbv zeta in *.
  destruct (Hready Cubes) as [(mc & Hmc & Hlc) Hdc].
  destruct (Hready Spheres) as [(ms & Hms & Hls) Hds].
  destruct (Hready Diamonds) as [(md & Hmd & Hld) Hdd].
  cbn [layer_data layer_refs] in *.
  destruct (OrnamentLayer_useFrame_run ORNAMENT_OBJECTS (progressProp ss) time (cubes ss)
              (cubeLayer ss) mc (store ss) Hmc Hlc Hdc (Hbelow Cubes))
    as (mc' & Rc1 & Rc2 & Rc3 & Rc4 & Rc5 & U1).
  set (r1 := OrnamentLayer_useFrame (progressProp ss) (cubes ss) time (cubeLayer ss) (store ss)) in *.
  destruct (OrnamentLayer_useFrame_run ORNAMENT_OBJECTS (progressProp ss) time (spheres ss)
              (sphereLayer ss) ms (snd r1) Hms Hls
              (dummy_ok_mono _ _ _ _ U1 Hds) (Hbelow Spheres))
    as (ms' & Rs1 & Rs2 & Rs3 & Rs4 & Rs5 & U2).
  set (r2 := OrnamentLayer_useFrame (progressProp ss) (spheres ss) time (sphereLayer ss) (snd r1)) in *.
  assert (U12 : untouched ORNAMENT_OBJECTS (store ss) (snd r2))
    by (eapply untouched_trans; eassumption).
  destruct (OrnamentLayer_useFrame_run ORNAMENT_OBJECTS (progressProp ss) time (diamonds ss)
              (diamondLayer ss) md (snd r2) Hmd Hld
              (dummy_ok_mono _ _ _ _ U12 Hdd) (Hbelow Diamonds))
    as (md' & Rd1 & Rd2 & Rd3 & Rd4 & Rd5 & U3).
  set (r3 := OrnamentLayer_useFrame (progressProp ss) (diamonds ss) time (diamondLayer ss) (snd r2)) in *.
  assert (U23 : untouched ORNAMENT_OBJECTS (snd r1) (snd r3))
    by (eapply untouched_trans; eassumption).
  split.
  - split; [exact Hk'|]. intros L. rewrite Hst.
    destruct L; cbn [layer_data layer_refs].
    + rewrite Lc, Qc. split; [exists mc'; split; assumption|].
      exact (dummy_ok_mono _ _ _ _ U23 Rc5).
    + rewrite Ls, Qs. split; [exists ms'; split; assumption|].
      exact (dummy_ok_mono _ _ _ _ U3 Rs5).
    + rewrite Ld, Qd. split; [exists md'; split; assumption|]. exact Rd5.
  - intros L j item Hj.
    assert (Hitem : item_below ORNAMENT_OBJECTS item).
    { eapply Forall_forall; [exact (Hbelow L)|]. eapply nth_error_In; eassumption. }
    destruct L; cbn [layer_data layer_refs] in *.
    + rewrite Lc. exists mc'. repeat (split; [assumption|]).
      rewrite (Rc4 j item Hj). f_equal.
      apply (ornament_matrix_agree ORNAMENT_OBJECTS); [exact (proj2 Hu0)|exact Hitem].
    + rewrite Ls. exists ms'. repeat (split; [assumption|]).
      rewrite (Rs4 j item Hj). f_equal.
      apply (ornament_matrix_agree ORNAMENT_OBJECTS); [|exact Hitem].
      exact (proj2 (untouched_trans _ _ _ _ Hu0 U1)).
    + rewrite Ld. exists md'. repeat (split; [assumption|]).
      rewrite (Rd4 j item Hj). f_equal.
      apply (ornament_matrix_agree ORNAMENT_OBJECTS); [|exact Hitem].
      exact (proj2 (untouched_trans _ _ _ _ Hu0 U12)).
Qed.

Lemma mount_meshes (rnd : nat -> number) (b : bool) (L : Layer) :
  exists mesh,
    meshRef (layer_refs (mount rnd b) L) = Some mesh
    /\ length (instanceMatrix mesh) = length (layer_data (mount rnd b) L).
Proof.
  unfold mount, mount_resources, bind.
  destruct (generateOrnaments rnd 180 empty_store) as [orn s1].
  destruct (generateFoliageAttributes rnd s1) as [fol s2].
  cbv beta iota zeta delta [new_layer new_Object3D bind ret fst snd].
  destruct L; cbn [layer_refs layer_data cubeLayer sphereLayer diamondLayer
                   cubes spheres diamonds meshRef];
    eexists; (split; [reflexivity|]); cbn [instanceMatrix]; apply repeat_length.
Qed.

Lemma mount_ready (rnd : nat -> number) (b : bool) :
  session_ready (mount rnd b) (mount rnd b).
Proof.
  destruct (mount_kept rnd b) as [_ Hk]. split; [exact Hk|].
  intros L. split; [apply mount_meshes|].
  destruct (mount_shape rnd b) as (_ & Hv & _ & _ & _ & (Pc & Sc) & (Ps & Ss) & (Pd & Sd)).
  unfold dummy_ok, ORNAMENT_OBJECTS.
  rewrite Hv, length_app, ornament_vectors_length, length_seq. cbn [length].
  destruct L; cbn [layer_refs]; [rewrite Pc, Sc|rewrite Ps, Ss|rewrite Pd, Sd]; lia.
Qed.

Lemma run_ready (rnd : nat -> number) (b : bool) (es : list Event) :
  session_ready (mount rnd b) (run (mount rnd b) es).
Proof.
  unfold run. generalize (mount_ready rnd b). generalize (mount rnd b) at 2 4.
  induction es as [|e es IH]; intros ss Hss; cbn [fold_left]; [exact Hss|].
  apply IH. destruct e as [time delta|formed0]; cbn [step].
  - apply run_frame_ready, Hss.
  - destruct Hss as [Hk Hl]. split; [exact Hk|].
    intros L. specialize (Hl L). destruct L; exact Hl.
Qed.

Lemma map_from_nth_error {A B} (f : A -> B) (l : list A) (l' : list B) :
  length l' = length l ->
  (forall j a, nth_error l j = Some a -> nth_error l' j = Some (f a)) ->
  l' = map f l.
Proof.
  revert l'. induction l as [|a l IH]; intros [|b l'] Hlen H; try discriminate.
  - reflexivity.
  - cbn [map]. f_equal.
    + specialize (H 0%nat a eq_refl). cbn in H. congruence.
    + apply IH; [simpl in Hlen; lia|]. intros j x Hj. exact (H (S j) x Hj).
Qed.

Lemma frame_matrices (rnd : nat -> number) (b : bool) (es : list Event)
    (time delta : number) (L : Layer) :
  let m := run (mount rnd b) es in
  exists mesh',
    meshRef (layer_refs (run_frame time delta m) L) = Some mesh'
    /\ needsUpdate mesh' = true
    /\ instanceMatrix mesh' =
       map (ornament_matrix time (progressProp m) (store (mount rnd b))) (layer_data m L).
Proof.
  intros m.
  destruct (run_frame_ready rnd b m time delta (run_ready rnd b es)) as [Hready Hdraw].
  destruct Hready as [_ Hl]. destruct (Hl L) as [(mesh' & Hm & Hlen) _].
  exists mesh'. split; [exact Hm|].
  assert (Hd : layer_data (run_frame time delta m) L = layer_data m L).
  { destruct (run_frame_layers time delta m) as (_ & _ & _ & _ & Qc & Qs & Qd).
    destruct L; assumption. }
  rewrite Hd in Hlen.
  assert (Hall : forall j item, nth_error (layer_data m L) j = Some item ->
                   needsUpdate mesh' = true
                   /\ nth_error (instanceMatrix mesh') j =
                      Some (ornament_matrix time (progressProp m) (store (mount rnd b)) item)).
  { intros j item Hj. destruct (Hdraw L j item Hj) as (mesh2 & Hm2 & Hn2 & _ & Hnth).
    rewrite Hm in Hm2. injection Hm2 as <-. split; assumption. }
  split.
  - destruct (layer_data m L) as [|item rest] eqn:E.
    + destruct (run_frame_layers time delta m) as (Lc & Ls & Ld & _).
      cbv zeta in *. unfold OrnamentLayer_useFrame in *.
      destruct (run_ready rnd b es) as [_ Hl0].
      destruct (Hl0 L) as [(mesh0 & Hm0 & _) _]. fold m in Hm0.
      destruct L; cbn [layer_data layer_refs] in *.
      * rewrite Lc, Hm0, E in Hm. cbn in Hm. injection Hm as <-. reflexivity.
      * rewrite Ls, Hm0, E in Hm. cbn in Hm. injection Hm as <-. reflexivity.
      * rewrite Ld, Hm0, E in Hm. cbn in Hm. injection Hm as <-. reflexivity.
    + exact (proj1 (Hall 0%nat item eq_refl)).
  - apply map_from_nth_error; [exact Hlen|]. intros j item Hj. exact (proj2 (Hall j item Hj)).
Qed.

(** After the mount and any frames and re-renders, one more frame leaves
    each layer's mesh flagged for upload with, slot by slot, the matrix of
    the layer's items in order: position the blend of the item's scattered
    and formed positions at the rendered progress plus the float, rotation
    the clock time times its rotation speed, scale its scale times
    [0.3 progress + 0.7]; the vectors are those generated at the mount. *)
Theorem frame_draws_ornaments (rnd : nat -> number) (b : bool) (es : list Event)
    (time delta : number) (L : Layer) :
  let m := run (mount rnd b) es in
  exists mesh',
    meshRef (layer_refs (run_frame time delta m) L) = Some mesh'
    /\ needsUpdate mesh' = true
    /\ instanceMatrix mesh' =
       map (ornament_matrix time (progressProp m) (store (mount rnd b))) (layer_data m L).
Proof. exact (frame_matrices rnd b es time delta L). Qed.

Lemma Forall2_map_r {A B} (R : A -> B -> Prop) (f : A -> B) (l : list A) :
  (forall a, R a (f a)) -> Forall2 R l (map f l).
Proof. intros H. induction l; constructor; auto. Qed.

Lemma Rabs_sin_scaled (x k : R) : Rabs (sin x * k) <= Rabs k.
Proof.
  rewrite Rabs_mult. pose proof (SIN_bound x) as Hs.
  assert (Rabs (sin x) <= 1) by (apply Rabs_le; lra).
  pose proof (Rabs_pos k). nra.
Qed.

Lemma Rabs_cos_scaled (x k : R) : Rabs (cos x * k) <= Rabs k.
Proof.
  rewrite Rabs_mult. pose proof (COS_bound x) as Hs.
  assert (Rabs (cos x) <= 1) by (apply Rabs_le; lra).
  pose proof (Rabs_pos k). nra.
Qed.

(** How far a frame draws an ornament from the blend of its two positions:
    with float amplitude [amp = |1.05 - progress|], at most [amp] in [y],
    [amp / 2] in [x] and nothing in [z]; so a layer rendered at progress 1
    keeps every ornament within 0.05 of its formed position, at its full
    scale. *)
Theorem ornament_float_bounded (rnd : nat -> number) (b : bool) (es : list Event)
    (time delta : number) (L : Layer) :
  let m := run (mount rnd b) es in
  let p := progressProp m in
  let s0 := store (mount rnd b) in
  exists mesh',
    meshRef (layer_refs (run_frame time delta m) L) = Some mesh'
    /\ Forall2
         (fun item M =>
            let sp := vec s0 (scatterPos item) in
            let tp := vec s0 (treePos item) in
            let amp := Rabs (1.05 - p) in
            Rabs (vx (m_position M) - (vx sp + (vx tp - vx sp) * p)) <= amp / 2
            /\ Rabs (vy (m_position M) - (vy sp + (vy tp - vy sp) * p)) <= amp
            /\ vz (m_position M) = vz sp + (vz tp - vz sp) * p
            /\ (p = 1 ->
                Rabs (vx (m_position M) - vx tp) <= 0.025
                /\ Rabs (vy (m_position M) - vy tp) <= 0.05
                /\ vz (m_position M) = vz tp
                /\ m_scale M = mkVector3 (scale item) (scale item) (scale item)))
         (layer_data m L) (instanceMatrix mesh').
Proof.
  intros m p s0.
  destruct (frame_matrices rnd b es time delta L) as (mesh' & Hm & _ & Hmat).
  exists mesh'. split; [exact Hm|]. fold m in Hmat. rewrite Hmat.
  apply Forall2_map_r. intros item. fold p. fold s0.
  unfold ornament_matrix, displayed_position, displayed_scale.
  cbn [m_position m_scale vx vy vz].
  set (sp := vec s0 (scatterPos item)). set (tp := vec s0 (treePos item)).
  assert (Hx : Rabs (vx sp + (vx tp - vx sp) * p
                     + cos (time * 0.5 + phase item) * ((1 - p) * 1.0 + 0.05) * 0.5
                     - (vx sp + (vx tp - vx sp) * p)) <= Rabs (1.05 - p) / 2).
  { replace (vx sp + (vx tp - vx sp) * p
             + cos (time * 0.5 + phase item) * ((1 - p) * 1.0 + 0.05) * 0.5
             - (vx sp + (vx tp - vx sp) * p))
      with (cos (time * 0.5 + phase item) * ((1.05 - p) * 0.5)) by nra.
    eapply Rle_trans; [apply Rabs_cos_scaled|].
    rewrite Rabs_mult, (Rabs_right 0.5) by lra. lra. }
  assert (Hy : Rabs (vy sp + (vy tp - vy sp) * p
                     + sin (time + phase item) * ((1 - p) * 1.0 + 0.05)
                     - (vy sp + (vy tp - vy sp) * p)) <= Rabs (1.05 - p)).
  { replace (vy sp + (vy tp - vy sp) * p
             + sin (time + phase item) * ((1 - p) * 1.0 + 0.05)
             - (vy sp + (vy tp - vy sp) * p))
      with (sin (time + phase item) * (1.05 - p)) by nra.
    apply Rabs_sin_scaled. }
  split; [exact Hx|]. split; [exact Hy|]. split; [reflexivity|].
  intros Hp1. rewrite Hp1 in *.
  assert (Ha : Rabs (1.05 - 1) = 0.05) by (rewrite Rabs_right; lra).
  rewrite Ha in Hx, Hy.
  split; [|split; [|split]].
  - replace (vx sp + (vx tp - vx sp) * 1
             + cos (time * 0.5 + phase item) * ((1 - 1) * 1.0 + 0.05) * 0.5 - vx tp)
      with (vx sp + (vx tp - vx sp) * 1
            + cos (time * 0.5 + phase item) * ((1 - 1) * 1.0 + 0.05) * 0.5
            - (vx sp + (vx tp - vx sp) * 1)) by nra.
    lra.
  - replace (vy sp + (vy tp - vy sp) * 1
             + sin (time + phase item) * ((1 - 1) * 1.0 + 0.05) - vy tp)
      with (vy sp + (vy tp - vy sp) * 1
            + sin (time + phase item) * ((1 - 1) * 1.0 + 0.05)
            - (vy sp + (vy tp - vy sp) * 1)) by nra.
    exact Hy.
  - nra.
  - f_equal; nra.
Qed.

(** ** More on the generated data *)

Lemma filter_map_swap {A B} (p : B -> bool) (f : A -> B) (l : list A) :
  filter p (map f l) = map f (filter (fun a => p (f a)) l).
Proof.
  induction l as [|a l IH]; cbn [map filter]; [reflexivity|].
  destruct (p (f a)); cbn [map]; rewrite IH; reflexivity.
Qed.

Lemma of_type_mount (rnd : nat -> number) (b : bool) (ty : OrnamentType) :
  of_type ty (ornaments (mount rnd b)) =
  map (ornament_at rnd 0 0)
      (filter (fun i => OrnamentType_eqb (ornament_type i) ty) (seq 0 180)).
Proof. rewrite mount_ornaments. unfold of_type. apply filter_map_swap. Qed.

Lemma layer_data_run (rnd : nat -> number) (b : bool) (es : list Event) (L : Layer) :
  layer_data (run (mount rnd b) es) L =
  map (ornament_at rnd 0 0)
      (filter (fun i => OrnamentType_eqb (ornament_type i)
                          match L with Cubes => CUBE | Spheres => SPHERE | Diamonds => DIAMOND end)
              (seq 0 180)).
Proof.
  destruct (run_ready rnd b es) as [(_ & Hc & Hs & Hd & _) _].
  destruct (mount_shape rnd b) as (_ & _ & Ec & Es & Ed & _).
  destruct L; cbn [layer_data];
    [rewrite Hc, Ec|rewrite Hs, Es|rewrite Hd, Ed]; apply of_type_mount.
Qed.

(** At every moment of the session the three instanced meshes stand for
    30 cubes, 120 spheres and 30 diamonds, 180 in all; the cubes are the
    ornaments whose index is a multiple of 6, the diamonds those of the
    others whose index is a multiple of 4, and each item carries the scale
    of its shape: 0.7, 0.5 and 0.4. *)
Theorem layer_sizes (rnd : nat -> number) (b : bool) (es : list Event) :
  let m := run (mount rnd b) es in
  (length (cubes m) = 30 /\ length (spheres m) = 120 /\ length (diamonds m) = 30)%nat
  /\ Forall (fun o => type o = CUBE /\ scale o = 0.7 /\ (id o mod 6 = 0)%nat) (cubes m)
  /\ Forall (fun o => type o = SPHERE /\ scale o = 0.5
                      /\ (id o mod 6 <> 0 /\ id o mod 4 <> 0)%nat) (spheres m)
  /\ Forall (fun o => type o = DIAMOND /\ scale o = 0.4
                      /\ (id o mod 6 <> 0 /\ id o mod 4 = 0)%nat) (diamonds m).
Proof.
  intros m. subst m.
  pose proof (layer_data_run rnd b es Cubes) as Hc.
  pose proof (layer_data_run rnd b es Spheres) as Hs.
  pose proof (layer_data_run rnd b es Diamonds) as Hd.
  cbn [layer_data] in Hc, Hs, Hd. rewrite Hc, Hs, Hd. rewrite !length_map.
  split; [repeat split; vm_compute; reflexivity|].
  assert (Hty : forall ty i,
            In i (filter (fun i => OrnamentType_eqb (ornament_type i) ty) (seq 0 180)) ->
            ornament_type i = ty).
  { intros ty i Hi. apply filter_In in Hi as [_ Hi].
    destruct (ornament_type i), ty; try discriminate; reflexivity. }
  repeat split; apply Forall_forall; intros o Ho;
    apply in_map_iff in Ho as (i & <- & Hi); apply Hty in Hi;
    cbn [type scale id ornament_at]; rewrite Hi; cbn [ornament_scale];
    (split; [reflexivity|]); (split; [reflexivity|]);
    unfold ornament_type in Hi;
    destruct (i mod 6 =? 0)%nat eqn:E6; try discriminate;
    destruct (i mod 4 =? 0)%nat eqn:E4; try discriminate;
    rewrite ?Nat.eqb_eq, ?Nat.eqb_neq in *; auto.
Qed.

(** [generateOrnaments(count)] returns [count] ornaments whose ids are
    0, 1, ... in order, draws eight random numbers and allocates three
    vectors for each, and leaves the objects already in the store alone;
    for [count = 0] it returns the empty list and changes nothing. *)
Theorem generateOrnaments_shape (rnd : nat -> number) (count : nat) (s : Store) :
  let r := generateOrnaments rnd count s in
  map id (fst r) = seq 0 count
  /\ randomCalls (snd r) = (randomCalls s + 8 * count)%nat
  /\ length (vectors (snd r)) = (length (vectors s) + 3 * count)%nat
  /\ (forall q, (q < length (vectors s))%nat -> deref (snd r) q = deref s q)
  /\ (count = 0%nat -> r = ([], s)).
Proof.
  intros r. subst r. rewrite generateOrnaments_eq. cbn [fst snd randomCalls vectors].
  split; [|split; [reflexivity|split; [|split]]].
  - rewrite map_map. cbn [id ornament_at]. apply map_id.
  - rewrite length_app, ornament_vectors_length, length_seq. reflexivity.
  - intros q Hq. unfold deref. cbn [vectors]. apply nth_error_app1. exact Hq.
  - intros ->. cbn [seq map flat_map]. rewrite app_nil_r, Nat.mul_0_r, Nat.add_0_r.
    destruct s; reflexivity.
Qed.

Lemma foliage_attrs_loop (rnd : nat -> number) (a0 : FoliageAttributes) (s0 : Store) (n : nat) :
  f32_length (f_randoms a0) = FOLIAGE_COUNT ->
  f32_length (f_sizes a0) = FOLIAGE_COUNT ->
  (n <= FOLIAGE_COUNT)%nat ->
  foliage_attrs_done rnd (randomCalls s0) n (fst (for_upto n (foliage_body rnd) a0 s0))
  /\ randomCalls (snd (for_upto n (foliage_body rnd) a0 s0)) = (randomCalls s0 + 6 * n)%nat.
Proof.
  intros Hr Hz. induction n as [|n IH]; intros Hn.
  - simpl. repeat split; auto; lia.
  - destruct IH as ((Hlr & Hlz & Hpts) & Hc); [lia|].
    cbn [for_upto]. unfold bind.
    destruct (for_upto n (foliage_body rnd) a0 s0) as [a s] eqn:E.
    cbn [fst snd] in *. rewrite foliage_body_eq. cbn [fst snd randomCalls vectors].
    split; [|lia].
    unfold foliage_attrs_done. cbn [f_randoms f_sizes].
    rewrite !f32_set_length. split; [assumption|]. split; [assumption|].
    intros i Hi. destruct (Nat.eq_dec i n) as [->|Hne].
    + rewrite !f32_set_same by lia. rewrite Hc.
      split; [f_equal; lia|]. f_equal. f_equal. f_equal. lia.
    + rewrite !f32_set_other by assumption. apply Hpts. lia.
Qed.

Lemma mount_foliage_attrs (rnd : nat -> number) (b : bool) :
  foliage_attrs_done rnd (8 * 180) FOLIAGE_COUNT (foliage (mount rnd b)).
Proof.
  destruct (mount_shape rnd b) as (-> & _).
  unfold generateFoliageAttributes.
  refine (proj1 (foliage_attrs_loop rnd _ (store_after_ornaments rnd) FOLIAGE_COUNT _ _ _)).
  - reflexivity.
  - reflexivity.
  - apply Nat.le_refl.
Qed.

(** With every random draw in [0,1): each of the 6000 particles gets a
    seed [aRandom] in [0,1) and a size factor [aSize] in [0.4, 1); each of
    the 180 ornaments gets a phase in [0, 2 pi) and a rotation speed whose
    three components lie in [0, 0.05). *)
Theorem generated_attributes_in_range (rnd : nat -> number) (b : bool) :
  unit_interval rnd ->
  let m := mount rnd b in
  (f32_length (f_randoms (foliage m)) = FOLIAGE_COUNT
   /\ f32_length (f_sizes (foliage m)) = FOLIAGE_COUNT
   /\ forall i, (i < FOLIAGE_COUNT)%nat ->
        0 <= f32_at (f_randoms (foliage m)) i < 1
        /\ 0.4 <= f32_at (f_sizes (foliage m)) i < 1)
  /\ (forall o, In o (ornaments m) ->
        0 <= phase o < 2 * PI
        /\ exists v, deref (store m) (rotationSpeed o) = Some v
                     /\ 0 <= vx v < 0.05 /\ 0 <= vy v < 0.05 /\ 0 <= vz v < 0.05).
Proof.
  intros Hrnd m. subst m. split.
  - destruct (mount_foliage_attrs rnd b) as (Hlr & Hlz & Hpts).
    split; [exact Hlr|]. split; [exact Hlz|].
    intros i Hi. destruct (Hpts i Hi) as [-> ->].
    pose proof (Hrnd (8 * 180 + 6 * i + 4)%nat). pose proof (Hrnd (8 * 180 + 6 * i + 5)%nat).
    lra.
  - intros o Ho. apply mount_ornament_inv in Ho as (i & Hi & ->).
    cbn [phase rotationSpeed ornament_at]. split.
    + pose proof (Hrnd (7 + (0 + 8 * i))%nat) as Hu. pose proof PI_RGT_0 as Hpi. nra.
    + eexists. split.
      * exact (mount_deref_ornament rnd b i 2 Hi ltac:(lia)).
      * cbn [vx vy vz].
        pose proof (Hrnd (4 + (0 + 8 * i))%nat). pose proof (Hrnd (5 + (0 + 8 * i))%nat).
        pose proof (Hrnd (6 + (0 + 8 * i))%nat). lra.
Qed.

Lemma generated_attributes_in_range_witness :
  let m := mount (always 0.5) false in
  (f32_length (f_randoms (foliage m)) = FOLIAGE_COUNT
   /\ f32_length (f_sizes (foliage m)) = FOLIAGE_COUNT
   /\ forall i, (i < FOLIAGE_COUNT)%nat ->
        0 <= f32_at (f_randoms (foliage m)) i < 1
        /\ 0.4 <= f32_at (f_sizes (foliage m)) i < 1)
  /\ (forall o, In o (ornaments m) ->
        0 <= phase o < 2 * PI
        /\ exists v, deref (store m) (rotationSpeed o) = Some v
                     /\ 0 <= vx v < 0.05 /\ 0 <= vy v < 0.05 /\ 0 <= vz v < 0.05).
Proof.
  apply (generated_attributes_in_range (always 0.5) false).
  intros k. unfold always. lra.
Defined.

(** With every random draw in [0,1), the formed positions lie on the cone:
    particle [i] is at height [14 i / 6000 - 7] and within 0.15 of the
    radius [5.5 (7 - y) / 14] the cone has at that height; ornament [i] is
    at height [14 i / 180 - 7] and exactly at radius [5.7 (7 - y) / 14], so
    never inside the ideal foliage cone. *)
Theorem formed_positions_on_cone (rnd : nat -> number) (b : bool) :
  unit_interval rnd ->
  let m := mount rnd b in
  (forall i, (i < FOLIAGE_COUNT)%nat ->
     let v := point_at (f_treePos (foliage m)) i in
     vy v = 14 * INR i / 6000 - 7
     /\ Rabs (radial v - 5.5 * (7 - vy v) / 14) <= 0.15)
  /\ (forall i, (i < 180)%nat ->
        exists o v,
          nth_error (ornaments m) i = Some o
          /\ deref (store m) (treePos o) = Some v
          /\ vy v = 14 * INR i / 180 - 7
          /\ radial v = 5.7 * (7 - vy v) / 14
          /\ 5.5 * (7 - vy v) / 14 <= radial v).
Proof.
  intros Hrnd m. subst m. split.
  - intros i Hi v. subst v.
    destruct (mount_foliage_done rnd b) as (_ & _ & Hpts).
    destruct (Hpts i Hi) as (-> & _).
    pose proof (Hrnd (8 * 180 + 6 * i)%nat) as Hu.
    pose proof (ratio_below_one i FOLIAGE_COUNT Hi) as Ht.
    unfold foliage_tree_point, radial, TREE_HEIGHT, TREE_RADIUS. cbn [vx vy vz].
    assert (Et : INR i / INR FOLIAGE_COUNT = INR i / 6000) by (rewrite INR_FOLIAGE_COUNT; reflexivity).
    rewrite Et in *. set (t := INR i / 6000) in *.
    split; [unfold t; lra|].
    destruct (Rlt_dec _ 0) as [Hneg|Hpos]; rewrite on_circle by lra;
      apply Rabs_le; lra.
  - intros i Hi.
    exists (ornament_at rnd 0 0 i), (ornament_tree_point 180 i (rnd (0 + 8 * i)%nat)).
    split; [|split; [|split]].
    + rewrite mount_ornaments.
      rewrite nth_error_map, nth_error_seq.
      destruct (Nat.ltb_spec i 180) as [_|Hge]; [reflexivity|lia].
    + exact (mount_deref_ornament rnd b i 0 Hi ltac:(lia)).
    + unfold ornament_tree_point, TREE_HEIGHT. cbn [vy].
      replace (INR 180) with 180 by (rewrite INR_IZR_INZ; reflexivity). lra.
    + destruct (ornament_tree_point_bounds 180 i (rnd (0 + 8 * i)%nat) Hi) as [Hy ->].
      pose proof (ratio_below_one i 180 Hi) as Ht.
      unfold ornament_tree_point, TREE_HEIGHT, TREE_RADIUS, ORNAMENT_OFFSET in *. cbn [vy] in *.
      set (t := INR i / INR 180) in *. split; lra.
Qed.

Lemma formed_positions_on_cone_witness :
  let m := mount (always 0.5) true in
  (forall i, (i < FOLIAGE_COUNT)%nat ->
     let v := point_at (f_treePos (foliage m)) i in
     vy v = 14 * INR i / 6000 - 7
     /\ Rabs (radial v - 5.5 * (7 - vy v) / 14) <= 0.15)
  /\ (forall i, (i < 180)%nat ->
        exists o v,
          nth_error (ornaments m) i = Some o
          /\ deref (store m) (treePos o) = Some v
          /\ vy v = 14 * INR i / 180 - 7
          /\ radial v = 5.7 * (7 - vy v) / 14
          /\ 5.5 * (7 - vy v) / 14 <= radial v).
Proof.
  apply (formed_positions_on_cone (always 0.5) true).
  intros k. unfold always. lra.
Defined.

(** ** The foliage shaders *)

Lemma clamp_range (x lo hi : R) : lo <= hi -> lo <= clamp x lo hi <= hi.
Proof.
  intros H. unfold clamp, Rmin, Rmax.
  destruct (Rle_dec x lo); destruct (Rle_dec _ hi); lra.
Qed.

Lemma clamp_mono (x y lo hi : R) : x <= y -> clamp x lo hi <= clamp y lo hi.
Proof.
  intros H. unfold clamp, Rmin, Rmax.
  destruct (Rle_dec x lo); destruct (Rle_dec y lo);
    repeat match goal with |- context [Rle_dec ?a ?b] => destruct (Rle_dec a b) end; lra.
Qed.

Lemma clamp_low (x lo hi : R) : lo <= hi -> x <= lo -> clamp x lo hi = lo.
Proof.
  intros H Hx. unfold clamp, Rmin, Rmax.
  destruct (Rle_dec x lo); destruct (Rle_dec _ hi); lra.
Qed.

Lemma clamp_high (x lo hi : R) : lo <= hi -> hi <= x -> clamp x lo hi = hi.
Proof.
  intros H Hx. unfold clamp, Rmin, Rmax.
  destruct (Rle_dec x lo); destruct (Rle_dec _ hi); lra.
Qed.

Lemma clamp_inside (x lo hi : R) : lo <= x <= hi -> clamp x lo hi = x.
Proof.
  intros H. unfold clamp, Rmin, Rmax.
  destruct (Rle_dec x lo); destruct (Rle_dec _ hi); lra.
Qed.

Lemma hermite_range (t : R) : 0 <= t <= 1 -> 0 <= t * t * (3.0 - 2.0 * t) <= 1.
Proof.
  intros H. split.
  - apply Rmult_le_pos; nra.
  - assert (E : 1 - t * t * (3.0 - 2.0 * t) = (1 - t) * (1 - t) * (1 + 2 * t)) by nra.
    assert (P : 0 <= (1 - t) * (1 - t) * (1 + 2 * t)) by (apply Rmult_le_pos; nra).
    lra.
Qed.

Lemma hermite_mono (s t : R) :
  0 <= s -> s <= t -> t <= 1 -> s * s * (3.0 - 2.0 * s) <= t * t * (3.0 - 2.0 * t).
Proof.
  intros Hs Hst Ht.
  assert (H : t * t * (3.0 - 2.0 * t) - s * s * (3.0 - 2.0 * s)
              = (t - s) * (3 * (t + s) - 2 * (t * t + t * s + s * s))) by nra.
  assert (H2 : 0 <= 3 * (t + s) - 2 * (t * t + t * s + s * s)) by nra.
  assert (H3 : 0 <= (t - s) * (3 * (t + s) - 2 * (t * t + t * s + s * s)))
    by (apply Rmult_le_pos; lra).
  lra.
Qed.

Lemma smoothstep01 (x : R) :
  smoothstep 0.0 1.0 x = clamp x 0 1 * clamp x 0 1 * (3 - 2 * clamp x 0 1).
Proof.
  unfold smoothstep.
  replace ((x - 0.0) / (1.0 - 0.0)) with x by lra.
  replace 0.0 with 0 by lra. replace 1.0 with 1 by lra.
  replace 3.0 with 3 by lra. replace 2.0 with 2 by lra. reflexivity.
Qed.

Lemma localProgress_eq (uProgress treeY : R) :
  localProgress uProgress treeY =
  let t := clamp (uProgress * 1.5 - (treeY + 7) / 28) 0 1 in t * t * (3 - 2 * t).
Proof.
  unfold localProgress. rewrite smoothstep01.
  replace (uProgress * 1.5 - (treeY + 7.0) / 14.0 * 0.5)
    with (uProgress * 1.5 - (treeY + 7) / 28) by lra.
  cbv zeta. set (t := clamp _ 0 1).
  pose proof (clamp_range (uProgress * 1.5 - (treeY + 7) / 28) 0 1 ltac:(lra)) as Ht.
  fold t in Ht.
  replace 0.0 with 0 by lra. replace 1.0 with 1 by lra.
  apply clamp_inside.
  pose proof (hermite_range t Ht) as Hh.
  replace 3.0 with 3 in Hh by lra. replace 2.0 with 2 in Hh by lra. exact Hh.
Qed.

Lemma localProgress_range_aux (uProgress y : R) :
  0 <= localProgress uProgress y <= 1
  /\ (-7 <= y -> uProgress <= 0 -> localProgress uProgress y = 0)
  /\ (y <= 7 -> 1 <= uProgress -> localProgress uProgress y = 1).
Proof.
  rewrite !localProgress_eq. cbv zeta. split; [|split].
  - pose proof (clamp_range (uProgress * 1.5 - (y + 7) / 28) 0 1 ltac:(lra)) as Ht.
    pose proof (hermite_range _ Ht) as Hh.
    replace 3.0 with 3 in Hh by lra. replace 2.0 with 2 in Hh by lra. exact Hh.
  - intros Hy Hu. rewrite clamp_low by lra. lra.
  - intros Hy Hu. rewrite clamp_high by lra. lra.
Qed.

(** The local progress of the vertex shader is always in [0,1].  It is 0
    as long as [1.5 uProgress] has not passed the delay [(y + 7) / 28] of
    the particle, and 1 once it has passed it by 1: so, for a particle of
    height within [-7, 7], it is 0 at [uProgress <= 0] and 1 at
    [uProgress >= 1]; the foot of the tree ([y = -7]) is fully formed from
    [uProgress = 2/3] on and the top ([y = 7]) starts only after 1/3. *)
Theorem localProgress_endpoints (uProgress y : number) :
  0 <= localProgress uProgress y <= 1
  /\ (uProgress * 1.5 <= (y + 7) / 28 -> localProgress uProgress y = 0)
  /\ ((y + 7) / 28 + 1 <= uProgress * 1.5 -> localProgress uProgress y = 1)
  /\ (-7 <= y -> uProgress <= 0 -> localProgress uProgress y = 0)
  /\ (y <= 7 -> 1 <= uProgress -> localProgress uProgress y = 1)
  /\ (2 / 3 <= uProgress -> localProgress uProgress (-7) = 1)
  /\ (uProgress <= 1 / 3 -> localProgress uProgress 7 = 0).
Proof.
  rewrite !localProgress_eq. cbv zeta.
  assert (Hlo : forall u z, u * 1.5 <= (z + 7) / 28 ->
            clamp (u * 1.5 - (z + 7) / 28) 0 1 * clamp (u * 1.5 - (z + 7) / 28) 0 1
            * (3 - 2 * clamp (u * 1.5 - (z + 7) / 28) 0 1) = 0).
  { intros u z H. rewrite clamp_low by lra. lra. }
  assert (Hhi : forall u z, (z + 7) / 28 + 1 <= u * 1.5 ->
            clamp (u * 1.5 - (z + 7) / 28) 0 1 * clamp (u * 1.5 - (z + 7) / 28) 0 1
            * (3 - 2 * clamp (u * 1.5 - (z + 7) / 28) 0 1) = 1).
  { intros u z H. rewrite clamp_high by lra. lra. }
  split; [|repeat split].
  - pose proof (clamp_range (uProgress * 1.5 - (y + 7) / 28) 0 1 ltac:(lra)) as Ht.
    pose proof (hermite_range _ Ht) as Hh.
    replace 3.0 with 3 in Hh by lra. replace 2.0 with 2 in Hh by lra. exact Hh.
  - apply Hlo.
  - apply Hhi.
  - intros Hy Hu. apply Hlo. lra.
  - intros Hy Hu. apply Hhi. lra.
  - intros Hu. apply Hhi. lra.
  - intros Hu. apply Hlo. lra.
Qed.

Lemma localProgress_endpoints_witness :
  localProgress 1 0 = 1.
Proof.
  apply (localProgress_endpoints 1 0); lra.
Defined.

(** The zipper: at a given [uProgress] a lower particle is never less
    formed than a higher one, and a particle's local progress never goes
    down when [uProgress] goes up. *)
Theorem localProgress_zipper (u1 u2 y1 y2 : number) :
  (y1 <= y2 -> localProgress u1 y2 <= localProgress u1 y1)
  /\ (u1 <= u2 -> localProgress u1 y1 <= localProgress u2 y1).
Proof.
  rewrite !localProgress_eq. cbv zeta.
  assert (Hmono : forall a c, a <= c ->
            clamp a 0 1 * clamp a 0 1 * (3 - 2 * clamp a 0 1)
            <= clamp c 0 1 * clamp c 0 1 * (3 - 2 * clamp c 0 1)).
  { intros a c Hac.
    pose proof (clamp_range a 0 1 ltac:(lra)) as Ha.
    pose proof (clamp_range c 0 1 ltac:(lra)) as Hc.
    pose proof (clamp_mono a c 0 1 Hac) as Hm.
    pose proof (hermite_mono (clamp a 0 1) (clamp c 0 1) ltac:(lra) Hm ltac:(lra)) as Hh.
    replace 3.0 with 3 in Hh by lra. replace 2.0 with 2 in Hh by lra. exact Hh. }
  split; intros H; apply Hmono; lra.
Qed.

Lemma localProgress_zipper_witness :
  localProgress 0.5 7 <= localProgress 0.5 (-7).
Proof.
  apply (localProgress_zipper 0.5 0.5 (-7) 7). lra.
Defined.

Lemma drift_bound (x k d : R) : 0 <= d -> Rabs x <= 1 -> Rabs (x * 0.15 * d) <= 0.15 * d.
Proof.
  intros Hd Hx. replace (x * 0.15 * d) with (x * (0.15 * d)) by lra.
  rewrite Rabs_mult, (Rabs_right (0.15 * d)) by nra.
  pose proof (Rabs_pos x). nra.
Qed.

Lemma vertex_position {Clip : Type}
    (modelViewMatrix : Vector3 -> Vector3) (projectionMatrix : Vector3 -> Clip)
    (u : FoliageUniforms) (a : FoliageVertex) :
  let out := foliageVertexShader modelViewMatrix projectionMatrix u a in
  let lp := v_localProgress out in
  let blend := mix3 (aScatterPos a) (aTreePos a) lp in
  let drift := 0.15 * (2 - 1.95 * lp) in
  lp = localProgress (uProgress u) (vy (aTreePos a))
  /\ 0.0075 <= drift <= 0.3
  /\ Rabs (vx (v_pos out) - vx blend) <= drift
  /\ Rabs (vy (v_pos out) - vy blend) <= drift
  /\ Rabs (vz (v_pos out) - vz blend) <= drift
  /\ vAlpha out = 0.4 + 0.6 * lp
  /\ 0.4 <= vAlpha out <= 1
  /\ (-7 <= vy (aTreePos a) <= 7 -> 1 <= uProgress u ->
      vAlpha out = 1
      /\ Rabs (vx (v_pos out) - vx (aTreePos a)) <= 0.0075
      /\ Rabs (vy (v_pos out) - vy (aTreePos a)) <= 0.0075
      /\ Rabs (vz (v_pos out) - vz (aTreePos a)) <= 0.0075)
  /\ (-7 <= vy (aTreePos a) <= 7 -> uProgress u <= 0 ->
      vAlpha out = 0.4
      /\ Rabs (vx (v_pos out) - vx (aScatterPos a)) <= 0.3
      /\ Rabs (vy (v_pos out) - vy (aScatterPos a)) <= 0.3
      /\ Rabs (vz (v_pos out) - vz (aScatterPos a)) <= 0.3).
Proof.
  intros out lp blend drift. subst out lp blend drift.
  cbn [foliageVertexShader v_localProgress v_pos vAlpha vx vy vz mix3].
  set (lp := localProgress (uProgress u) (vy (aTreePos a))).
  pose proof (proj1 (localProgress_range_aux (uProgress u) (vy (aTreePos a)))) as Hr.
  fold lp in Hr.
  assert (Hdrift : mix 2.0 0.05 lp = 2 - 1.95 * lp) by (unfold mix; lra).
  assert (Hd0 : 0 <= mix 2.0 0.05 lp) by (rewrite Hdrift; lra).
  assert (Hsin : forall x, Rabs (sin x) <= 1) by (intros x; pose proof (SIN_bound x); apply Rabs_le; lra).
  assert (Hcos : forall x, Rabs (cos x) <= 1) by (intros x; pose proof (COS_bound x); apply Rabs_le; lra).
  assert (Hb : forall b x, Rabs x <= 1 ->
            Rabs (b + x * 0.15 * mix 2.0 0.05 lp - b) <= 0.15 * (2 - 1.95 * lp)).
  { intros b x Hx. replace (b + x * 0.15 * mix 2.0 0.05 lp - b)
      with (x * 0.15 * mix 2.0 0.05 lp) by lra.
    rewrite <- Hdrift. apply drift_bound; [exact 0|exact Hd0|exact Hx]. }
  pose proof (Hb (mix (vx (aScatterPos a)) (vx (aTreePos a)) lp) _
                (Hsin (uTime u * 0.3 + aRandom a * 15.0))) as Hx.
  pose proof (Hb (mix (vy (aScatterPos a)) (vy (aTreePos a)) lp) _
                (Hcos (uTime u * 0.2 + aRandom a * 25.0))) as Hy.
  pose proof (Hb (mix (vz (aScatterPos a)) (vz (aTreePos a)) lp) _
                (Hsin (uTime u * 0.4 + aRandom a * 35.0))) as Hz.
  assert (Ha : mix 0.4 1.0 lp = 0.4 + 0.6 * lp) by (unfold mix; lra).
  split; [reflexivity|]. split; [lra|].
  split; [exact Hx|]. split; [exact Hy|]. split; [exact Hz|].
  split; [exact Ha|]. split; [lra|]. split.
  - intros Hh Hu.
    assert (H1 : lp = 1)
      by (apply (localProgress_range_aux (uProgress u) (vy (aTreePos a))); lra).
    rewrite H1 in *. unfold mix in *.
    repeat split; [lra| | |].
    + match goal with |- Rabs ?e <= _ => match type of Hx with Rabs ?e' <= _ =>
        replace e with e' by lra end end. lra.
    + match goal with |- Rabs ?e <= _ => match type of Hy with Rabs ?e' <= _ =>
        replace e with e' by lra end end. lra.
    + match goal with |- Rabs ?e <= _ => match type of Hz with Rabs ?e' <= _ =>
        replace e with e' by lra end end. lra.
  - intros Hh Hu.
    assert (H0 : lp = 0)
      by (apply (localProgress_range_aux (uProgress u) (vy (aTreePos a))); lra).
    rewrite H0 in *. unfold mix in *.
    repeat split; [lra| | |].
    + match goal with |- Rabs ?e <= _ => match type of Hx with Rabs ?e' <= _ =>
        replace e with e' by lra end end. lra.
    + match goal with |- Rabs ?e <= _ => match type of Hy with Rabs ?e' <= _ =>
        replace e with e' by lra end end. lra.
    + match goal with |- Rabs ?e <= _ => match type of Hz with Rabs ?e' <= _ =>
        replace e with e' by lra end end. lra.
Qed.

(** Where the vertex shader puts a particle: with local progress [lp], at
    most [0.15 (2 - 1.95 lp)] in each coordinate from the blend of its two
    positions, with alpha [0.4 + 0.6 lp].  For a particle of height within
    [-7, 7] that is within 0.0075 of the formed position, alpha 1, when
    [uProgress >= 1], and within 0.3 of the scattered one, alpha 0.4, when
    [uProgress <= 0]. *)
Theorem foliageVertexShader_position {Clip : Type}
    (modelViewMatrix : Vector3 -> Vector3) (projectionMatrix : Vector3 -> Clip)
    (u : FoliageUniforms) (a : FoliageVertex) :
  let out := foliageVertexShader modelViewMatrix projectionMatrix u a in
  let lp := v_localProgress out in
  let blend := mix3 (aScatterPos a) (aTreePos a) lp in
  let drift := 0.15 * (2 - 1.95 * lp) in
  lp = localProgress (uProgress u) (vy (aTreePos a))
  /\ 0.0075 <= drift <= 0.3
  /\ Rabs (vx (v_pos out) - vx blend) <= drift
  /\ Rabs (vy (v_pos out) - vy blend) <= drift
  /\ Rabs (vz (v_pos out) - vz blend) <= drift
  /\ vAlpha out = 0.4 + 0.6 * lp
  /\ 0.4 <= vAlpha out <= 1
  /\ (-7 <= vy (aTreePos a) <= 7 -> 1 <= uProgress u ->
      vAlpha out = 1
      /\ Rabs (vx (v_pos out) - vx (aTreePos a)) <= 0.0075
      /\ Rabs (vy (v_pos out) - vy (aTreePos a)) <= 0.0075
      /\ Rabs (vz (v_pos out) - vz (aTreePos a)) <= 0.0075)
  /\ (-7 <= vy (aTreePos a) <= 7 -> uProgress u <= 0 ->
      vAlpha out = 0.4
      /\ Rabs (vx (v_pos out) - vx (aScatterPos a)) <= 0.3
      /\ Rabs (vy (v_pos out) - vy (aScatterPos a)) <= 0.3
      /\ Rabs (vz (v_pos out) - vz (aScatterPos a)) <= 0.3).
Proof. exact (vertex_position modelViewMatrix projectionMatrix u a). Qed.

(** The fragment shader draws a disc: a fragment farther than 0.5 from the
    centre of the point is discarded; any other gets the alpha
    [vAlpha (1 - 2 dist)^2], which for [vAlpha >= 0] lies between 0 (on
    the rim) and [vAlpha] (at the centre), and a colour blended from
    emerald to gold with a weight between 0 and 1.1. *)
Theorem foliageFragmentShader_disc (uColorEmerald uColorGold : Vector3)
    (uTime vAlpha vRandom : number) (gl_PointCoord : number * number) :
  let dist := sqrt ((fst gl_PointCoord - 0.5) * (fst gl_PointCoord - 0.5)
                    + (snd gl_PointCoord - 0.5) * (snd gl_PointCoord - 0.5)) in
  let out := foliageFragmentShader uColorEmerald uColorGold uTime vAlpha vRandom gl_PointCoord in
  (0.5 < dist -> out = None)
  /\ (dist <= 0.5 ->
      exists weight,
        0 <= weight <= 1.1
        /\ out = Some (mix3 uColorEmerald uColorGold weight,
                       vAlpha * ((1 - 2 * dist) * (1 - 2 * dist)))
        /\ (0 <= vAlpha -> 0 <= vAlpha * ((1 - 2 * dist) * (1 - 2 * dist)) <= vAlpha))
  /\ (gl_PointCoord = (0.5, 0.5) -> exists colour, out = Some (colour, vAlpha)).
Proof.
  intros dist out. subst out. unfold foliageFragmentShader. fold dist.
  assert (Hd0 : 0 <= dist) by apply sqrt_pos.
  split; [|split].
  - intros H. destruct (Rlt_dec 0.5 dist); [reflexivity|lra].
  - intros H. destruct (Rlt_dec 0.5 dist); [lra|].
    pose proof (SIN_bound (uTime * (2.0 + vRandom * 3.0) + vRandom * 100.0)) as Hs.
    eexists. split; [|split].
    2:{ f_equal. f_equal. lra. }
    + lra.
    + intros Hv.
      assert (Hg : 0 <= (1 - 2 * dist) * (1 - 2 * dist) <= 1) by nra.
      nra.
  - intros ->. cbn [fst snd] in *.
    assert (Hz : dist = 0).
    { unfold dist. replace ((0.5 - 0.5) * (0.5 - 0.5) + (0.5 - 0.5) * (0.5 - 0.5)) with 0 by lra.
      apply sqrt_0. }
    destruct (Rlt_dec 0.5 dist); [lra|].
    eexists. f_equal. f_equal. rewrite Hz. lra.
Qed.

(** ** Generated particles through the vertex shader *)

Lemma particle_height (rnd : nat -> number) (b : bool) (i : nat) (uv0 : number * number) :
  (i < FOLIAGE_COUNT)%nat ->
  -7 <= vy (aTreePos (particle (foliage (mount rnd b)) i uv0)) < 7.
Proof.
  intros Hi. cbn [particle aTreePos].
  destruct (mount_foliage_done rnd b) as (_ & _ & Hpts).
  destruct (Hpts i Hi) as (-> & _).
  pose proof (ratio_below_one i FOLIAGE_COUNT Hi) as Ht.
  unfold foliage_tree_point, TREE_HEIGHT. cbn [vy].
  set (t := INR i / INR FOLIAGE_COUNT) in *. lra.
Qed.

(** Every generated particle has a normalised height in [0,1), as the
    shader assumes; so whatever was drawn at random, with [uProgress >= 1]
    the shader puts it, fully opaque, within 0.0075 of its formed position
    in each coordinate, and with [uProgress <= 0], at alpha 0.4, within 0.3
    of its scattered position. *)
Theorem generated_particle_endpoints {Clip : Type}
    (rnd : nat -> number) (b : bool) (i : nat) (uv0 : number * number)
    (modelViewMatrix : Vector3 -> Vector3) (projectionMatrix : Vector3 -> Clip)
    (u : FoliageUniforms) :
  (i < FOLIAGE_COUNT)%nat ->
  let a := particle (foliage (mount rnd b)) i uv0 in
  let out := foliageVertexShader modelViewMatrix projectionMatrix u a in
  0 <= (vy (aTreePos a) + 7) / 14 < 1
  /\ (1 <= uProgress u ->
      v_localProgress out = 1 /\ vAlpha out = 1
      /\ Rabs (vx (v_pos out) - vx (aTreePos a)) <= 0.0075
      /\ Rabs (vy (v_pos out) - vy (aTreePos a)) <= 0.0075
      /\ Rabs (vz (v_pos out) - vz (aTreePos a)) <= 0.0075)
  /\ (uProgress u <= 0 ->
      v_localProgress out = 0 /\ vAlpha out = 0.4
      /\ Rabs (vx (v_pos out) - vx (aScatterPos a)) <= 0.3
      /\ Rabs (vy (v_pos out) - vy (aScatterPos a)) <= 0.3
      /\ Rabs (vz (v_pos out) - vz (aScatterPos a)) <= 0.3).
Proof.
  intros Hi a out.
  pose proof (particle_height rnd b i uv0 Hi) as Hy. fold a in Hy.
  destruct (vertex_position modelViewMatrix projectionMatrix u a)
    as (Hlp & _ & _ & _ & _ & _ & _ & Hformed & Hscattered).
  fold out in Hlp, Hformed, Hscattered.
  destruct (localProgress_range_aux (uProgress u) (vy (aTreePos a))) as (_ & H0 & H1).
  split; [lra|]. split.
  - intros Hu. split; [rewrite Hlp; apply H1; lra|]. apply Hformed; lra.
  - intros Hu. split; [rewrite Hlp; apply H0; lra|]. apply Hscattered; lra.
Qed.

Lemma generated_particle_endpoints_witness :
  let a := particle (foliage (mount (always 0.5) true)) 0 (0, 0) in
  let out := foliageVertexShader (fun v => v) (fun v => v)
               {| uTime := 0; uProgress := 1 |} a in
  0 <= (vy (aTreePos a) + 7) / 14 < 1
  /\ (1 <= 1 ->
      v_localProgress out = 1 /\ vAlpha out = 1
      /\ Rabs (vx (v_pos out) - vx (aTreePos a)) <= 0.0075
      /\ Rabs (vy (v_pos out) - vy (aTreePos a)) <= 0.0075
      /\ Rabs (vz (v_pos out) - vz (aTreePos a)) <= 0.0075)
  /\ (1 <= 0 ->
      v_localProgress out = 0 /\ vAlpha out = 0.4
      /\ Rabs (vx (v_pos out) - vx (aScatterPos a)) <= 0.3
      /\ Rabs (vy (v_pos out) - vy (aScatterPos a)) <= 0.3
      /\ Rabs (vz (v_pos out) - vz (aScatterPos a)) <= 0.3).
Proof.
  apply (generated_particle_endpoints (always 0.5) true 0 (0, 0) (fun v => v) (fun v => v)
           {| uTime := 0; uProgress := 1 |}).
  unfold FOLIAGE_COUNT. lia.
Defined.

(** With every random draw in [0,1), a generated particle that the model
    view transform puts at depth [d > 0] in front of the camera is drawn
    with a point size between [17.92 / d] and [100.8 / d]. *)
Theorem generated_particle_size {Clip : Type}
    (rnd : nat -> number) (b : bool) (i : nat) (uv0 : number * number)
    (modelViewMatrix : Vector3 -> Vector3) (projectionMatrix : Vector3 -> Clip)
    (u : FoliageUniforms) :
  unit_interval rnd ->
  (i < FOLIAGE_COUNT)%nat ->
  let a := particle (foliage (mount rnd b)) i uv0 in
  let out := foliageVertexShader modelViewMatrix projectionMatrix u a in
  let d := - vz (modelViewMatrix (v_pos out)) in
  0 < d ->
  17.92 / d <= gl_PointSize out <= 100.8 / d.
Proof.
  intros Hrnd Hi a out d Hd.
  destruct (mount_foliage_attrs rnd b) as (_ & _ & Hpts).
  destruct (Hpts i Hi) as [Hr Hs].
  pose proof (Hrnd (8 * 180 + 6 * i + 4)%nat) as Hu4.
  pose proof (Hrnd (8 * 180 + 6 * i + 5)%nat) as Hu5.
  pose proof (proj1 (localProgress_range_aux (uProgress u) (vy (aTreePos a)))) as Hlp.
  subst d out. cbn [foliageVertexShader gl_PointSize v_pos] in *.
  set (lp := localProgress (uProgress u) (vy (aTreePos a))) in *.
  match goal with H : 0 < ?e |- _ => set (d := e) in * end.
  subst a. cbn [particle aRandom aSize] in *. rewrite Hr, Hs.
  set (r := rnd (8 * 180 + 6 * i + 4)%nat) in *.
  set (z := rnd (8 * 180 + 6 * i + 5)%nat) in *.
  unfold mix.
  assert (Hm : 0.8 <= 0.8 * (1 - r) + 1.2 * r <= 1.2) by lra.
  assert (Hf : 0.8 <= 0.8 * (1 - lp) + 1.2 * lp <= 1.2) by lra.
  assert (Hz : 0.4 <= z * 0.6 + 0.4 <= 1) by lra.
  set (sm := 0.8 * (1 - r) + 1.2 * r) in *.
  set (fs := 0.8 * (1 - lp) + 1.2 * lp) in *.
  set (sz := z * 0.6 + 0.4) in *.
  assert (Hn : 17.92 <= sz * sm * fs * 70.0 <= 100.8).
  { assert (0.32 <= sz * sm <= 1.2) by nra.
    assert (0.256 <= sz * sm * fs <= 1.44) by nra. lra. }
  assert (Hinv : 0 < / d) by (apply Rinv_0_lt_compat; exact Hd).
  replace (sz * sm * fs * 70.0 * (1.0 / d)) with (sz * sm * fs * 70.0 * / d) by lra.
  unfold Rdiv. split; apply Rmult_le_compat_r; lra.
Qed.

Lemma generated_particle_size_witness :
  let a := particle (foliage (mount (always 0.5) true)) 0 (0, 0) in
  let out := foliageVertexShader (fun v => mkVector3 0 0 (-10)) (fun v => v)
               {| uTime := 0; uProgress := 1 |} a in
  17.92 / - vz (mkVector3 0 0 (-10)) <= gl_PointSize out <= 100.8 / - vz (mkVector3 0 0 (-10)).
Proof.
  apply (generated_particle_size (always 0.5) true 0 (0, 0)
           (fun v => mkVector3 0 0 (-10)) (fun v => v) {| uTime := 0; uProgress := 1 |}).
  - intros k. unfold always. lra.
  - unfold FOLIAGE_COUNT. lia.
  - simpl. lra.
Defined.

(** ** The scatter of the foliage *)

(** With every random draw in [0,1), the scattered position of particle
    [i] is the point of the sphere of radius [sr = 25 + 20 u2] whose
    height over the radius is [2 u4 - 1], affine in the draw, at the
    azimuth [2 pi u3]: the area-uniform sampling of the sphere. *)
Theorem foliage_scatter_sampling (rnd : nat -> number) (b : bool) (i : nat) :
  unit_interval rnd ->
  (i < FOLIAGE_COUNT)%nat ->
  let v := point_at (f_scatterPos (foliage (mount rnd b))) i in
  let sr := 25 + rnd (8 * 180 + 6 * i + 1)%nat * 20 in
  let theta := rnd (8 * 180 + 6 * i + 2)%nat * PI * 2 in
  let h := 2 * rnd (8 * 180 + 6 * i + 3)%nat - 1 in
  -1 <= h < 1
  /\ vz v = sr * h
  /\ vx v = sr * sqrt (1 - h * h) * cos theta
  /\ vy v = sr * sqrt (1 - h * h) * sin theta
  /\ norm3 v = sr.
Proof.
  intros Hrnd Hi v sr theta h. subst v.
  destruct (mount_foliage_done rnd b) as (_ & _ & Hpts).
  destruct (Hpts i Hi) as (_ & ->).
  pose proof (Hrnd (8 * 180 + 6 * i + 1)%nat) as H1.
  pose proof (Hrnd (8 * 180 + 6 * i + 3)%nat) as H3.
  assert (Hh : -1 <= h <= 1) by (unfold h; lra).
  split; [unfold h; lra|].
  split; [|split; [|split]].
  - unfold foliage_scatter_point. cbn [vz]. fold h. rewrite cos_acos by exact Hh. reflexivity.
  - unfold foliage_scatter_point. cbn [vx]. fold h. fold theta.
    rewrite sin_acos by exact Hh. unfold Rsqr. reflexivity.
  - unfold foliage_scatter_point. cbn [vy]. fold h. fold theta.
    rewrite sin_acos by exact Hh. unfold Rsqr. reflexivity.
  - rewrite foliage_scatter_point_norm by lra. reflexivity.
Qed.

Lemma foliage_scatter_sampling_witness :
  let v := point_at (f_scatterPos (foliage (mount (always 0.5) false))) 0 in
  let sr := 25 + always 0.5 (8 * 180 + 6 * 0 + 1)%nat * 20 in
  let theta := always 0.5 (8 * 180 + 6 * 0 + 2)%nat * PI * 2 in
  let h := 2 * always 0.5 (8 * 180 + 6 * 0 + 3)%nat - 1 in
  -1 <= h < 1
  /\ vz v = sr * h
  /\ vx v = sr * sqrt (1 - h * h) * cos theta
  /\ vy v = sr * sqrt (1 - h * h) * sin theta
  /\ norm3 v = sr.
Proof.
  apply (foliage_scatter_sampling (always 0.5) false 0).
  - intros k. unfold always. lra.
  - unfold FOLIAGE_COUNT. lia.
Defined.

(** ** What a session allocates *)

Lemma forEach_from_alloc (base : nat) (time progress : number) (data : list OrnamentData) :
  forall (i0 : nat) (d : Object3D) (mesh : InstancedMesh) (c : nat) (vs : list Vector3),
  dummy_ok base d (mkStore c vs) ->
  Forall (item_below base) data ->
  let s' := snd (forEach_from time progress data i0 (d, mesh) (mkStore c vs)) in
  randomCalls s' = c /\ length (vectors s') = (length vs + length data)%nat.
Proof.
  induction data as [|item rest IH]; intros i0 d mesh c vs Hd Hbelow.
  - cbn. split; [reflexivity|lia].
  - inversion Hbelow as [|? ? Hitem Hrest]; subst.
    cbn [forEach_from length].
    erewrite bind_eq by (apply (ornament_item_run base); assumption).
    set (cur := displayed_position time progress item
                  (vec (mkStore c vs) (scatterPos item)) (vec (mkStore c vs) (treePos item))).
    set (vs1 := list_set (list_set (vs ++ [cur]) (position d) cur) (scale3 d)
                         (displayed_scale progress item)).
    assert (Hlen1 : length vs1 = S (length vs)).
    { unfold vs1. rewrite !list_set_length, length_app. simpl. lia. }
    destruct Hd as (Hp & Hs & Hne). cbn [vectors] in Hp, Hs.
    match goal with |- context [forEach_from _ _ _ _ (?d1, ?m1) _] =>
      destruct (IH (S i0) d1 m1 c vs1) as [Hc Hl];
        [unfold dummy_ok; cbn [position scale3 vectors]; rewrite Hlen1; lia|exact Hrest|]
    end.
    cbv zeta. rewrite Hc, Hl, Hlen1. split; [reflexivity|lia].
Qed.

Lemma OrnamentLayer_alloc (base : nat) (progress time : number)
    (data : list OrnamentData) (l : OrnamentLayerRefs) (s : Store) :
  meshRef l <> None ->
  dummy_ok base (dummy l) s ->
  Forall (item_below base) data ->
  let s' := snd (OrnamentLayer_useFrame progress data time l s) in
  randomCalls s' = randomCalls s
  /\ length (vectors s') = (length (vectors s) + length data)%nat.
Proof.
  intros Hm Hd Hbelow. destruct s as [c vs]. unfold OrnamentLayer_useFrame.
  destruct (meshRef l) as [mesh|]; [|congruence].
  pose proof (forEach_from_alloc base time progress data 0 (dummy l) mesh c vs Hd Hbelow) as H.
  cbv zeta in *. unfold bind.
  destruct (forEach_from time progress data 0 (dummy l, mesh) (mkStore c vs)) as [st s1].
  exact H.
Qed.

Lemma run_frame_alloc (rnd : nat -> number) (b : bool) (ss : Session) (time delta : number) :
  session_ready (mount rnd b) ss ->
  randomCalls (store (run_frame time delta ss)) = randomCalls (store ss)
  /\ length (vectors (store (run_frame time delta ss))) =
     (length (vectors (store ss)) + length (cubes ss) + length (spheres ss)
      + length (diamonds ss))%nat.
Proof.
  intros [Hk Hready].
  pose proof (fun L => layer_data_below rnd b ss L Hk) as Hbelow.
  destruct (run_frame_layers time delta ss) as (_ & _ & _ & -> & _).
  destruct (Hready Cubes) as [(mc & Hmc & Hlc) Hdc].
  destruct (Hready Spheres) as [(ms & Hms & Hls) Hds].
  destruct (Hready Diamonds) as [(md & Hmd & Hld) Hdd].
  cbn [layer_data layer_refs] in *.
  destruct (OrnamentLayer_useFrame_run ORNAMENT_OBJECTS (progressProp ss) time (cubes ss)
              (cubeLayer ss) mc (store ss) Hmc Hlc Hdc (Hbelow Cubes))
    as (_ & _ & _ & _ & _ & _ & U1).
  destruct (OrnamentLayer_alloc ORNAMENT_OBJECTS (progressProp ss) time (cubes ss)
              (cubeLayer ss) (store ss) ltac:(congruence) Hdc (Hbelow Cubes)) as [C1 L1].
  set (r1 := OrnamentLayer_useFrame (progressProp ss) (cubes ss) time (cubeLayer ss) (store ss)) in *.
  pose proof (dummy_ok_mono _ _ _ _ U1 Hds) as Hds1.
  destruct (OrnamentLayer_useFrame_run ORNAMENT_OBJECTS (progressProp ss) time (spheres ss)
              (sphereLayer ss) ms (snd r1) Hms Hls Hds1 (Hbelow Spheres))
    as (_ & _ & _ & _ & _ & _ & U2).
  destruct (OrnamentLayer_alloc ORNAMENT_OBJECTS (progressProp ss) time (spheres ss)
              (sphereLayer ss) (snd r1) ltac:(congruence) Hds1 (Hbelow Spheres)) as [C2 L2].
  set (r2 := OrnamentLayer_useFrame (progressProp ss) (spheres ss) time (sphereLayer ss) (snd r1)) in *.
  pose proof (dummy_ok_mono _ _ _ _ (untouched_trans _ _ _ _ U1 U2) Hdd) as Hdd2.
  destruct (OrnamentLayer_alloc ORNAMENT_OBJECTS (progressProp ss) time (diamonds ss)
              (diamondLayer ss) (snd r2) ltac:(congruence) Hdd2 (Hbelow Diamonds)) as [C3 L3].
  cbv zeta in *. rewrite C3, C2, C1, L3, L2, L1. split; [reflexivity|lia].
Qed.

(** After the mount, the callbacks of [Tree.tsx] never call [Math.random],
    in no frame and in no re-render: the number of draws stays that of the
    mount.  Each frame makes 180 [new THREE.Vector3()], the [currentPos] of
    each ornament of the three layers, and a re-render makes none: the
    store has grown by 180 vectors for each frame run since the mount. *)
Theorem session_allocations (rnd : nat -> number) (b : bool) (es : list Event) :
  randomCalls (store (run (mount rnd b) es)) = randomCalls (store (mount rnd b))
  /\ length (vectors (store (run (mount rnd b) es))) =
     (length (vectors (store (mount rnd b))) + 180 * count_frames es)%nat.
Proof.
  assert (Hgen : forall ss,
            session_ready (mount rnd b) ss ->
            session_ready (mount rnd b) (run ss es)
            /\ randomCalls (store (run ss es)) = randomCalls (store ss)
            /\ length (vectors (store (run ss es))) =
               (length (vectors (store ss)) + 180 * count_frames es)%nat).
  { unfold run. induction es as [|e es IH]; intros ss Hss; cbn [fold_left count_frames].
    - split; [exact Hss|]. split; [reflexivity|lia].
    - destruct e as [time delta|formed0]; cbn [step].
      + destruct (run_frame_ready rnd b ss time delta Hss) as [Hss' _].
        destruct (run_frame_alloc rnd b ss time delta Hss) as [Hc Hl].
        destruct (IH _ Hss') as (Hr & Hc' & Hl').
        split; [exact Hr|]. rewrite Hc', Hl', Hc, Hl. split; [reflexivity|].
        assert (Hsz : (length (cubes ss) + length (spheres ss) + length (diamonds ss) = 180)%nat).
        { destruct Hss as [(_ & Qc & Qs & Qd & _) _]. rewrite Qc, Qs, Qd.
          destruct (mount_shape rnd b) as (_ & _ & Ec & Es & Ed & _).
          rewrite Ec, Es, Ed, !of_type_mount, !length_map. vm_compute. reflexivity. }
        lia.
      + assert (Hss' : session_ready (mount rnd b) (rerender formed0 ss)).
        { destruct Hss as [Hk Hl]. split; [exact Hk|].
          intros L. specialize (Hl L). destruct L; exact Hl. }
        destruct (IH _ Hss') as (Hr & Hc' & Hl').
        split; [exact Hr|]. rewrite Hc', Hl'. split; reflexivity. }
  destruct (Hgen (mount rnd b) (mount_ready rnd b)) as (_ & Hc & Hl).
  split; assumption.
Qed.

(** ** The requests of the panel *)

Lemma wish_request_carries (p : string) :
  all_whitespace p = false -> carries_prompt (wish_request p).
Proof.
  intros H. exists p. split; [exact H|].
  unfold wish_request, or_else. cbn [contents model config].
  destruct p; [discriminate|]. repeat split.
Qed.

Lemma outbound_ignited (w : World) : outbound (log (ignited w)) = outbound (log w).
Proof.
  unfold ignited. destruct (formed w); [reflexivity|]. cbn [log].
  rewrite outbound_app, app_nil_r. reflexivity.
Qed.

Lemma panel_step_requests (apiKey : string) (p : Panel) (e : UIEvent) :
  panel_wf p ->
  Forall carries_prompt (outbound (log (world p))) ->
  Forall carries_prompt (outbound (log (world (panel_step apiKey p e)))).
Proof.
  intros [Hin _] Hlog. destruct e as [s| | |i outcome]; cbn [panel_step].
  - exact Hlog.
  - pose proof (handleGenerateWish_shape apiKey (world p)) as H.
    destruct (handleGenerateWish apiKey (world p)) as [r w'|req w' k]; cbn [commit world].
    + destruct H as [_ [[_ ->]|(_ & _ & ->)]].
      * rewrite outbound_ignited. exact Hlog.
      * unfold keyless_world. cbn [log]. rewrite outbound_ignited. exact Hlog.
    + destruct H as (Hb & _ & _ & -> & _). unfold loading_world. cbn [log].
      rewrite outbound_app, outbound_ignited. apply Forall_app. split; [exact Hlog|].
      cbn [outbound]. constructor; [|constructor]. apply wish_request_carries, Hb.
  - cbn. rewrite outbound_app. cbn. rewrite app_nil_r. exact Hlog.
  - destruct (nth_error (inflight p) i) as [k|] eqn:Hk; [|exact Hlog].
    assert (Hcont : submit_continuation k).
    { eapply Forall_forall; [exact Hin|]. eapply nth_error_In; eassumption. }
    rewrite Hcont. cbn [commit world]. unfold settled_world.
    destruct outcome; cbn [log]; [exact Hlog|].
    rewrite outbound_app. cbn. rewrite app_nil_r. exact Hlog.
Qed.

(** Every request the panel ever sends carries a prompt with a character
    that is not white space, as typed, after the template, with the fixed
    model and configuration: the default [Elegance] of the service is
    never sent from the panel. *)
Theorem panel_requests_carry_prompt (apiKey : string) (es : list UIEvent) :
  Forall carries_prompt (outbound (log (world (panel_run apiKey es)))).
Proof.
  unfold panel_run.
  assert (Hgen : forall p, panel_wf p ->
            Forall carries_prompt (outbound (log (world p))) ->
            Forall carries_prompt
              (outbound (log (world (fold_left (panel_step apiKey) es p))))).
  { induction es as [|e es IH]; intros p Hwf Hlog; cbn [fold_left]; [exact Hlog|].
    apply IH; [apply panel_step_wf, Hwf|apply panel_step_requests; assumption]. }
  apply Hgen; [exact initialPanel_wf|constructor].
Qed.
